(** * Verification of the listing extractor of DCS_G-SEARCH (search.py)

    The development embeds the text-mining core of [search.py]:
    [validate_email], [convert_to_numeric] and the chunk loop of
    [extract_data_to_csv], together with the fragment of Python's [re]
    module, [str] methods and [float] arithmetic these functions use.
    It goes on with the writer: the loop over the pages of
    [search_and_save_pages] with [extract_instagram_data], the text of
    the combined file and its way back through the extractor, the
    generator [safe_open_write] under [contextlib.contextmanager], the
    names of the files and [load_config].  The answers of the search
    API, the outcomes of [open] and the environment are parameters.

    Text is modelled over 8-bit characters, and the model is that of
    Python on ASCII text ([ascii_text]): there the classes of [re] and
    of the [str] methods ([\s], [\d], [\w], [strip], [upper], [lower])
    and the texts [int] and [float] read are the ones of [Chr] below.
    Python classifies characters above 127 by the Unicode database (the
    no-break space is white space, the digits of other scripts are
    digits), which is not modelled; a statement that depends on the
    class of a character of its input is made for ASCII text. *)

From Stdlib Require Import List Ascii String ZArith Lia Bool Arith PeanoNat.
From Stdlib Require Import SpecFloat Permutation Sorted DecimalString DecimalNat.
Import ListNotations.

(* ================================================================== *)
(** * Characters and [str] methods *)
(* ================================================================== *)

Definition str := list ascii.

(** A Python string literal. *)
Definition lit (s : string) : str := list_ascii_of_string s.

Definition nl : ascii := ascii_of_nat 10.

Module Chr.

Definition code (c : ascii) : nat := nat_of_ascii c.

Definition in_range (lo hi : nat) (c : ascii) : bool :=
  (lo <=? code c) && (code c <=? hi).

Definition only (a c : ascii) : bool := Ascii.eqb c a.

(** [\d] on the ASCII range. *)
Definition digit : ascii -> bool := in_range 48 57.
Definition lower : ascii -> bool := in_range 97 122.
Definition upper : ascii -> bool := in_range 65 90.
Definition alpha (c : ascii) : bool := lower c || upper c.

(** [\s] and [str.isspace] on the ASCII range: TAB, LF, VT, FF, CR,
    the separators FS, GS, RS, US and the space. *)
Definition space (c : ascii) : bool := in_range 9 13 c || in_range 28 32 c.

(** [.] without DOTALL, and with it. *)
Definition dot (c : ascii) : bool := negb (only nl c).
Definition any (_ : ascii) : bool := true.

Definition one_of (s : string) (c : ascii) : bool :=
  existsb (Ascii.eqb c) (lit s).

Definition union (p q : ascii -> bool) (c : ascii) : bool := p c || q c.
Definition compl (p : ascii -> bool) (c : ascii) : bool := negb (p c).

Definition to_upper (c : ascii) : ascii :=
  if lower c then ascii_of_nat (code c - 32) else c.
Definition to_lower (c : ascii) : ascii :=
  if upper c then ascii_of_nat (code c + 32) else c.

End Chr.

Module Str.

(** [s.upper()], [s.lower()] *)
Definition upper (s : str) : str := map Chr.to_upper s.
Definition lower (s : str) : str := map Chr.to_lower s.

Fixpoint lstrip (s : str) : str :=
  match s with
  | c :: t => if Chr.space c then lstrip t else s
  | [] => []
  end.

Definition rstrip (s : str) : str := rev (lstrip (rev s)).

(** [s.strip()] *)
Definition strip (s : str) : str := rstrip (lstrip s).

Fixpoint eqb (a b : str) : bool :=
  match a, b with
  | [], [] => true
  | x :: a', y :: b' => Ascii.eqb x y && eqb a' b'
  | _, _ => false
  end.

(** [s.startswith(p)] *)
Fixpoint startswith (p s : str) : bool :=
  match p, s with
  | [], _ => true
  | x :: p', y :: s' => Ascii.eqb x y && startswith p' s'
  | _ :: _, [] => false
  end.

(** [s.endswith(p)] *)
Definition endswith (p s : str) : bool := startswith (rev p) (rev s).

(** [p in s] for a string [p] *)
Fixpoint contains (p s : str) : bool :=
  startswith p s ||
  match s with
  | [] => false
  | _ :: t => contains p t
  end.

(** [c in s] for a one-character string [c] *)
Definition has (c : ascii) (s : str) : bool := existsb (Ascii.eqb c) s.

(** [s.replace(c, '')] for a one-character string [c] *)
Definition remove (c : ascii) (s : str) : str :=
  filter (fun x => negb (Ascii.eqb x c)) s.

(** [bool(s)]: a string is true when it is not empty *)
Definition truthy (s : str) : bool :=
  match s with [] => false | _ => true end.

End Str.

(* ================================================================== *)
(** * The fragment of [re] used by search.py *)
(* ================================================================== *)

(** Every repetition in the patterns of search.py ranges over a single
    character set, so the syntax has repetition of sets only.  [Rep p lo
    hi g] is [p{lo,hi}] ([hi = None] for no upper bound), greedy when
    [g] and lazy otherwise. *)
Inductive regex : Type :=
| Eps
| Chars (s : str)                (* literal text *)
| Cls (p : ascii -> bool)        (* one character of a set *)
| Rep (p : ascii -> bool) (lo : nat) (hi : option nat) (greedy : bool)
| Bol                            (* ^ *)
| Eol                            (* $ *)
| Cat (r1 r2 : regex)
| Alt (r1 r2 : regex)
| Grp (r : regex)                (* capturing group *)
| Ahead (r : regex).             (* (?=...) *)

Module Re.

(** A position of the matcher in the subject: the number of characters
    before it, the text after it, and the groups closed so far, in the
    order they were closed. *)
Record mstate : Type := MState {
  pos : nat;
  rest : str;
  caps : list str
}.

Definition room (hi : option nat) : bool :=
  match hi with Some 0 => false | _ => true end.

(** Backtracking over a repetition: a greedy one tries one more
    character before it tries to go on, a lazy one the other way. *)
Fixpoint rep (p : ascii -> bool) (g : bool) (lo : nat) (hi : option nat)
    (n : nat) (s : str) (cs : list str)
    (k : mstate -> option mstate) {struct s} : option mstate :=
  match s with
  | c :: t =>
      if p c && room hi then
        if g then
          match rep p g (pred lo) (option_map pred hi) (S n) t cs k with
          | Some r => Some r
          | None => if lo =? 0 then k (MState n s cs) else None
          end
        else
          match (if lo =? 0 then k (MState n s cs) else None) with
          | Some r => Some r
          | None => rep p g (pred lo) (option_map pred hi) (S n) t cs k
          end
      else if lo =? 0 then k (MState n s cs) else None
  | [] => if lo =? 0 then k (MState n s cs) else None
  end.

(** The matcher, in continuation-passing style: [exec r st k] is the
    first way, in the order of Python's backtracking, to match [r] at
    [st] such that the continuation [k] succeeds afterwards. *)
Fixpoint exec (r : regex) (st : mstate) (k : mstate -> option mstate)
    {struct r} : option mstate :=
  match r with
  | Eps => k st
  | Chars l =>
      if Str.startswith l (rest st)
      then k (MState (pos st + List.length l)
                (skipn (List.length l) (rest st)) (caps st))
      else None
  | Cls p =>
      match rest st with
      | c :: t => if p c then k (MState (S (pos st)) t (caps st)) else None
      | [] => None
      end
  | Rep p lo hi g => rep p g lo hi (pos st) (rest st) (caps st) k
  | Bol => if pos st =? 0 then k st else None
  | Eol =>
      match rest st with
      | [] => k st
      | [c] => if Chr.only nl c then k st else None
      | _ => None
      end
  | Cat r1 r2 => exec r1 st (fun st1 => exec r2 st1 k)
  | Alt r1 r2 =>
      match exec r1 st k with
      | Some res => Some res
      | None => exec r2 st k
      end
  | Grp r1 =>
      exec r1 st (fun st1 =>
        k (MState (pos st1) (rest st1)
             (caps st1 ++ [firstn (pos st1 - pos st) (rest st)])))
  | Ahead r1 =>
      match exec r1 st (fun st1 => Some st1) with
      | Some st1 => k (MState (pos st) (rest st) (caps st1))
      | None => None
      end
  end.

(** A match object: where the match starts and ends, the matched text
    and the texts of the groups. *)
Record mobj : Type := MObj {
  m_start : nat;
  m_end : nat;
  group0 : str;
  groups : list str
}.

Definition at_pos (r : regex) (n : nat) (s : str) : option mobj :=
  match exec r (MState n s []) (fun st => Some st) with
  | Some st => Some (MObj n (pos st) (firstn (pos st - n) s) (caps st))
  | None => None
  end.

(** [re.match(r, s)] *)
Definition rmatch (r : regex) (s : str) : option mobj := at_pos r 0 s.

Fixpoint search_from (r : regex) (n : nat) (s : str) : option mobj :=
  match at_pos r n s with
  | Some m => Some m
  | None =>
      match s with
      | [] => None
      | _ :: t => search_from r (S n) t
      end
  end.

(** [re.search(r, s)] *)
Definition search (r : regex) (s : str) : option mobj := search_from r 0 s.

(** [re.split(r, s)] for a pattern without groups that matches no
    empty text: [skip] characters of the match just found are still to
    be passed over, [cur] is the piece being collected, reversed. *)
Fixpoint split_go (r : regex) (skip n : nat) (cur : str) (s : str)
    {struct s} : list str :=
  match skip with
  | S skip' =>
      match s with
      | _ :: t => split_go r skip' (S n) cur t
      | [] => [rev cur]
      end
  | 0 =>
      match s with
      | [] => [rev cur]
      | c :: t =>
          match at_pos r n s with
          | Some m =>
              match m_end m - n with
              | S j => rev cur :: split_go r j (S n) [] t
              | 0 => split_go r 0 (S n) (c :: cur) t
              end
          | None => split_go r 0 (S n) (c :: cur) t
          end
      end
  end.

Definition split (r : regex) (s : str) : list str := split_go r 0 0 [] s.

End Re.

(* ================================================================== *)
(** * Python values: exceptions, numbers, [int] and [float] *)
(* ================================================================== *)

Inductive exn : Type :=
| ValueError | TypeError | IndexError | AttributeError | OSError.

(** The outcome of a Python expression or statement. *)
Inductive res (A : Type) : Type :=
| Ok (a : A)
| Raise (e : exn).

Arguments Ok {A} a.
Arguments Raise {A} e.

Definition bind {A B : Type} (m : res A) (f : A -> res B) : res B :=
  match m with
  | Ok a => f a
  | Raise e => Raise e
  end.

Notation "x <- m ;; f" := (bind m (fun x => f))
  (at level 61, m at next level, right associativity).

(** [try: body  except (ValueError, TypeError): handler] *)
Definition try_except {A : Type} (body : res A) (handler : res A) : res A :=
  match body with
  | Raise ValueError | Raise TypeError => handler
  | other => other
  end.

Module Flt.

(** Python's [float] is IEEE 754 binary64. *)
Definition prec : Z := 53.
Definition emax : Z := 1024.

Definition mul : spec_float -> spec_float -> spec_float := SFmul prec emax.

(** The float nearest to the integer [z], as in [float(z)] and in the
    conversion of an [int] operand of a [float] operation. *)
Definition of_int (z : Z) : spec_float := binary_normalize prec emax z 0 false.

Definition digit_val (c : ascii) : Z := Z.of_nat (Chr.code c - 48).

(** The value of a sequence of decimal digits, last digit first. *)
Fixpoint rev_digits_val (ds : str) : Z :=
  match ds with
  | [] => 0
  | d :: t => digit_val d + 10 * rev_digits_val t
  end.

(** The float nearest to [m * 10^e], ties to even, for [0 <= m]. *)
Definition of_decimal (neg : bool) (m e : Z) : spec_float :=
  match m with
  | Zpos _ =>
      let n := (m * 10 ^ Z.max 0 e)%Z in
      let d := (10 ^ Z.max 0 (- e))%Z in
      let '(q, e2, l) := SFdiv_core_binary prec emax n 0 d 0 in
      binary_round_aux prec emax neg q e2 l
  | _ => S754_zero neg
  end.

(** digit (["_"] digit)*, after its first digit: the digits read so
    far, last first, and the text left. *)
Fixpoint digits_more (acc : str) (s : str) {struct s} : str * str :=
  match s with
  | c :: t =>
      if Chr.digit c then digits_more (c :: acc) t
      else if Chr.only "_" c then
        match t with
        | d :: t' => if Chr.digit d then digits_more (d :: acc) t' else (acc, s)
        | [] => (acc, s)
        end
      else (acc, s)
  | [] => (acc, s)
  end.

Definition digitpart (s : str) : option (str * str) :=
  match s with
  | c :: t => if Chr.digit c then Some (digits_more [c] t) else None
  | [] => None
  end.

(** number ::= [digitpart] "." digitpart | digitpart ["."] : the
    digits of the integer and of the fractional part, last first. *)
Definition number (s : str) : option (str * str * str) :=
  match digitpart s with
  | Some (ip, r) =>
      match r with
      | c :: r' =>
          if Chr.only "." c then
            match digitpart r' with
            | Some (fp, r'') => Some (ip, fp, r'')
            | None => Some (ip, [], r')
            end
          else Some (ip, [], r)
      | [] => Some (ip, [], r)
      end
  | None =>
      match s with
      | c :: r' =>
          if Chr.only "." c then
            match digitpart r' with
            | Some (fp, r'') => Some ([], fp, r'')
            | None => None
            end
          else None
      | [] => None
      end
  end.

Definition sign (s : str) : bool * str :=
  match s with
  | c :: t =>
      if Chr.only "-" c then (true, t)
      else if Chr.only "+" c then (false, t)
      else (false, s)
  | [] => (false, s)
  end.

(** exponent ::= ("e" | "E") [sign] digitpart, up to the end of the
    text; an absent exponent is 0. *)
Definition exponent (s : str) : option Z :=
  match s with
  | [] => Some 0%Z
  | c :: t =>
      if Chr.only "e" c then
        let '(neg, t') := sign t in
        match digitpart t' with
        | Some (ds, []) =>
            Some (if neg then (- rev_digits_val ds)%Z else rev_digits_val ds)
        | _ => None
        end
      else None
  end.

(** [float(s)] for a string [s]: white space is stripped and case is
    not significant. *)
Definition of_str (s : str) : res spec_float :=
  let '(neg, body) := sign (Str.lower (Str.strip s)) in
  if Str.eqb body (lit "inf") || Str.eqb body (lit "infinity")
  then Ok (S754_infinity neg)
  else if Str.eqb body (lit "nan") then Ok S754_nan
  else
    match number body with
    | Some (ip, fp, r) =>
        match exponent r with
        | Some e =>
            Ok (of_decimal neg (rev_digits_val (fp ++ ip))
                  (e - Z.of_nat (List.length fp)))
        | None => Raise ValueError
        end
    | None => Raise ValueError
    end.

End Flt.

(** A Python number: an [int] or a [float]. *)
Inductive pynum : Type :=
| PyInt (z : Z)
| PyFloat (f : spec_float).

Module Num.

(** The exact value of a number: not a number, an infinity, or
    [m * 2^e]. *)
Inductive xval : Type :=
| XNaN
| XInf (neg : bool)
| XFin (m e : Z).

Definition val (x : pynum) : xval :=
  match x with
  | PyInt z => XFin z 0
  | PyFloat (S754_zero _) => XFin 0 0
  | PyFloat (S754_infinity s) => XInf s
  | PyFloat S754_nan => XNaN
  | PyFloat (S754_finite s m e) => XFin (if s then Z.neg m else Z.pos m) e
  end.

Definition xltb (a b : xval) : bool :=
  match a, b with
  | XNaN, _ | _, XNaN => false
  | XInf s1, XInf s2 => s1 && negb s2
  | XInf s, XFin _ _ => s
  | XFin _ _, XInf s => negb s
  | XFin m1 e1, XFin m2 e2 =>
      let e := Z.min e1 e2 in
      (m1 * 2 ^ (e1 - e) <? m2 * 2 ^ (e2 - e))%Z
  end.

(** [a < b]: Python compares an [int] and a [float] by their exact
    values. *)
Definition ltb (a b : pynum) : bool := xltb (val a) (val b).

Definition is_nan (a : pynum) : bool :=
  match val a with XNaN => true | _ => false end.

End Num.

(** [sys.int_info.default_max_str_digits]: the most digits [int] reads
    from a decimal text.  search.py leaves the limit of the interpreter
    as it is. *)
Definition max_str_digits : nat := 4300.

(** [int(s)] for a string [s]: white space is stripped; a sign and
    digits, which single underscores may separate, are read.  The
    integers of Python are unbounded, but a text of more than
    [max_str_digits] digits (the sign and the underscores are not
    counted) is refused with a ValueError. *)
Definition int_of_str (s : str) : res Z :=
  let '(neg, body) := Flt.sign (Str.strip s) in
  match Flt.digitpart body with
  | Some (ds, []) =>
      if max_str_digits <? List.length ds then Raise ValueError
      else
        Ok (if neg then (- Flt.rev_digits_val ds)%Z else Flt.rev_digits_val ds)
  | _ => Raise ValueError
  end.

(* ================================================================== *)
(** * search.py *)
(* ================================================================== *)

Declare Scope re_scope.
Delimit Scope re_scope with re.
Bind Scope re_scope with regex.
Infix ">>" := Cat (at level 60, right associativity) : re_scope.

Module Pat.

Local Open Scope re_scope.

Definition plus (p : ascii -> bool) : regex := Rep p 1 None true.
Definition star (p : ascii -> bool) : regex := Rep p 0 None true.
Definition star_lazy (p : ascii -> bool) : regex := Rep p 0 None false.
Definition opt (p : ascii -> bool) : regex := Rep p 0 (Some 1) true.
Definition times (n : nat) (p : ascii -> bool) : regex := Rep p n (Some n) true.
Definition at_least (n : nat) (p : ascii -> bool) : regex := Rep p n None true.

(** [[a-zA-Z0-9._%+-]] *)
Definition local_char : ascii -> bool :=
  Chr.union Chr.alpha (Chr.union Chr.digit (Chr.one_of "._%+-")).

(** [[a-zA-Z0-9.-]] *)
Definition domain_char : ascii -> bool :=
  Chr.union Chr.alpha (Chr.union Chr.digit (Chr.one_of ".-")).

(** [[a-zA-Z0-9._%+-]+@[a-zA-Z0-9.-]+\.[a-zA-Z]{2,}] *)
Definition address : regex :=
  plus local_char >> Chars (lit "@") >> plus domain_char >>
  Chars (lit ".") >> at_least 2 Chr.alpha.

(** [(?:^|\s)\.{3}\s*] *)
Definition ellipsis : regex :=
  Alt Bol (Cls Chr.space) >> times 3 (Chr.only ".") >> star Chr.space.

(** [\d+\.?\d*[KM]?] *)
Definition count : regex :=
  plus Chr.digit >> opt (Chr.only ".") >> star Chr.digit >>
  opt (Chr.one_of "KM").

(** [r'^[a-zA-Z0-9._%+-]+@[a-zA-Z0-9.-]+\.[a-zA-Z]{2,}$'] *)
Definition email_pattern : regex := Bol >> address >> Eol.

(** [r'^\d+\.\s*(.*?)\s*\(@'] *)
Definition name_pattern : regex :=
  Bol >> plus Chr.digit >> Chars (lit ".") >> star Chr.space >>
  Grp (star_lazy Chr.dot) >> star Chr.space >> Chars (lit "(@").

(** [r'\(@([^)]+)\)'] *)
Definition username_pattern : regex :=
  Chars (lit "(@") >> Grp (plus (Chr.compl (Chr.only ")"))) >> Chars (lit ")").

(** [r'URL: (https://[^\s]+)'] *)
Definition url_pattern : regex :=
  Chars (lit "URL: ") >>
  Grp (Chars (lit "https://") >> plus (Chr.compl Chr.space)).

(** The three patterns of [email_patterns], in the order of the list. *)
Definition email_patterns : list regex :=
  [ address;
    ellipsis >> Grp address;
    ellipsis >> Grp (plus local_char) >> star Chr.space >>
      Chars (lit "gmail.com") ].

(** [r'(\d+\.?\d*[KM]?)\s+Followers,\s*(\d+\.?\d*[KM]?)\s+Following,\s*(\d+\.?\d*[KM]?)\s+Posts'] *)
Definition meta_stats_pattern : regex :=
  Grp count >> plus Chr.space >> Chars (lit "Followers,") >> star Chr.space >>
  Grp count >> plus Chr.space >> Chars (lit "Following,") >> star Chr.space >>
  Grp count >> plus Chr.space >> Chars (lit "Posts").

(** [r'\n(?=\d+\.)'] *)
Definition split_pattern : regex :=
  Cls (Chr.only nl) >> Ahead (plus Chr.digit >> Chars (lit ".")).

(** [r'(\d+)\.'] *)
Definition number_pattern : regex :=
  Grp (plus Chr.digit) >> Chars (lit ".").

(** [r'Description: (.*?)(?=Meta Description:|$)'] with [re.DOTALL] *)
Definition description_pattern : regex :=
  Chars (lit "Description: ") >> Grp (star_lazy Chr.any) >>
  Ahead (Alt (Chars (lit "Meta Description:")) Eol).

End Pat.

(** [m.group(i)] for [1 <= i]; a group the pattern does not have is an
    IndexError. *)
Definition group (m : Re.mobj) (i : nat) : res str :=
  match nth_error (Re.groups m) (i - 1) with
  | Some g => Ok g
  | None => Raise IndexError
  end.

Definition gmail_com : str := lit "gmail.com".

Definition dummy_patterns : list str :=
  [lit "example.com"; lit "test.com"; lit "domain.com"].

(** [validate_email(email)]; the argument is [None] or a string. *)
Definition validate_email (email : option str) : option str :=
  match email with
  | None => None
  | Some e =>
      if negb (Str.truthy e) then None
      else
        match Re.rmatch Pat.email_pattern e with
        | None => None
        | Some _ =>
            if existsb (fun pattern => Str.contains pattern (Str.lower e))
                 dummy_patterns
            then None
            else Some e
        end
  end.

(** [convert_to_numeric(follower_string)]; the argument is [None] or a
    string. *)
Definition convert_to_numeric (follower_string : option str) : res pynum :=
  match follower_string with
  | None => Ok (PyInt 0)
  | Some s =>
      if negb (Str.truthy s) then Ok (PyInt 0)
      else
        try_except
          (let s := Str.upper (Str.strip s) in
           if Str.has "K" s then
             x <- Flt.of_str (Str.remove "K" s) ;;
             Ok (PyFloat (Flt.mul x (Flt.of_int 1000)))
           else if Str.has "M" s then
             x <- Flt.of_str (Str.remove "M" s) ;;
             Ok (PyFloat (Flt.mul x (Flt.of_int 1000000)))
           else
             x <- Flt.of_str s ;;
             Ok (PyFloat x))
          (Ok (PyInt 0))
  end.

(** The dictionary [data] of one listing. *)
Record row : Type := Row {
  number : option Z;
  name : option str;
  username : option str;
  url : option str;
  email : option str;
  followers : option str;
  following : option str;
  posts : option str;
  description : option str;
  follower_count_numeric : pynum
}.

Definition empty_row : row :=
  Row None None None None None None None None None (PyInt 0).

Definition set_number (d : row) (v : Z) : row :=
  Row (Some v) (name d) (username d) (url d) (email d) (followers d)
      (following d) (posts d) (description d) (follower_count_numeric d).
Definition set_name (d : row) (v : str) : row :=
  Row (number d) (Some v) (username d) (url d) (email d) (followers d)
      (following d) (posts d) (description d) (follower_count_numeric d).
Definition set_username (d : row) (v : str) : row :=
  Row (number d) (name d) (Some v) (url d) (email d) (followers d)
      (following d) (posts d) (description d) (follower_count_numeric d).
Definition set_url (d : row) (v : str) : row :=
  Row (number d) (name d) (username d) (Some v) (email d) (followers d)
      (following d) (posts d) (description d) (follower_count_numeric d).
Definition set_email (d : row) (v : option str) : row :=
  Row (number d) (name d) (username d) (url d) v (followers d)
      (following d) (posts d) (description d) (follower_count_numeric d).
Definition set_stats (d : row) (a b c : str) : row :=
  Row (number d) (name d) (username d) (url d) (email d) (Some a)
      (Some b) (Some c) (description d) (follower_count_numeric d).
Definition set_numeric (d : row) (v : pynum) : row :=
  Row (number d) (name d) (username d) (url d) (email d) (followers d)
      (following d) (posts d) (description d) v.
Definition set_description (d : row) (v : str) : row :=
  Row (number d) (name d) (username d) (url d) (email d) (followers d)
      (following d) (posts d) (Some v) (follower_count_numeric d).

(** The body of [for pattern in email_patterns: ... break]. *)
Fixpoint email_loop (patterns : list regex) (result : str) (data : row)
    : res row :=
  match patterns with
  | [] => Ok data
  | pattern :: others =>
      match Re.search pattern result with
      | Some email_match =>
          email <- (if 0 <? List.length (Re.groups email_match)
                    then group email_match 1
                    else Ok (Re.group0 email_match)) ;;
          let email :=
            if negb (Str.endswith gmail_com email)
               && Str.contains gmail_com result
            then email ++ gmail_com
            else email in
          Ok (set_email data (validate_email (Some email)))
      | None => email_loop others result data
      end
  end.

(** The body of [for result in results], for a chunk that is not blank:
    the statements in the order of the source, each updating [data]. *)
Definition process_chunk (result : str) : res row :=
  let data := empty_row in
  data <- match Re.rmatch Pat.number_pattern result with
          | Some number_match =>
              g <- group number_match 1 ;;
              n <- int_of_str g ;;
              Ok (set_number data n)
          | None => Ok data
          end ;;
  data <- match Re.search Pat.name_pattern result with
          | Some name_match =>
              g <- group name_match 1 ;;
              Ok (set_name data (Str.strip g))
          | None => Ok data
          end ;;
  data <- match Re.search Pat.username_pattern result with
          | Some username_match =>
              g <- group username_match 1 ;;
              Ok (set_username data g)
          | None => Ok data
          end ;;
  data <- match Re.search Pat.url_pattern result with
          | Some url_match =>
              g <- group url_match 1 ;;
              Ok (set_url data g)
          | None => Ok data
          end ;;
  data <- email_loop Pat.email_patterns result data ;;
  data <- match Re.search Pat.meta_stats_pattern result with
          | Some meta_match =>
              g1 <- group meta_match 1 ;;
              g2 <- group meta_match 2 ;;
              g3 <- group meta_match 3 ;;
              let data := set_stats data g1 g2 g3 in
              followers <- group meta_match 1 ;;
              v <- convert_to_numeric (Some followers) ;;
              Ok (set_numeric data v)
          | None => Ok data
          end ;;
  data <- match Re.search Pat.description_pattern result with
          | Some desc_match =>
              g <- group desc_match 1 ;;
              Ok (set_description data (Str.strip g))
          | None => Ok data
          end ;;
  Ok data.

(** [for result in results: if not result.strip(): continue ...
    extracted_items.append(data)] *)
Fixpoint extract_items (results : list str) : res (list row) :=
  match results with
  | [] => Ok []
  | result :: others =>
      if negb (Str.truthy (Str.strip result)) then extract_items others
      else
        data <- process_chunk result ;;
        items <- extract_items others ;;
        Ok (data :: items)
  end.

(** [list.sort(key=..., reverse=True)] is a stable sort into descending
    order, and compares keys with [<] only: an item passes the items of
    greater key among those that followed it, and no other. *)
Fixpoint insert_desc (x : row) (l : list row) : list row :=
  match l with
  | [] => [x]
  | y :: t =>
      if Num.ltb (follower_count_numeric x) (follower_count_numeric y)
      then y :: insert_desc x t
      else x :: l
  end.

Fixpoint sort_desc (l : list row) : list row :=
  match l with
  | [] => []
  | x :: t => insert_desc x (sort_desc t)
  end.

(** The chunks of the text, and the sorted records of the text. *)
Definition segments (content : str) : list str :=
  Re.split Pat.split_pattern content.

Definition extract_records (content : str) : res (list row) :=
  items <- extract_items (segments content) ;;
  Ok (sort_desc items).



(* ================================================================== *)
(** * Notions used in the statements *)
(* ================================================================== *)

Module Shape.

(** The characters a pattern can consume. *)
Fixpoint chars_of (r : regex) (c : ascii) : bool :=
  match r with
  | Eps | Bol | Eol | Ahead _ => false
  | Chars l => existsb (Ascii.eqb c) l
  | Cls p => p c
  | Rep p _ _ _ => p c
  | Cat r1 r2 | Alt r1 r2 => chars_of r1 c || chars_of r2 c
  | Grp r1 => chars_of r1 c
  end.

(** The least number of characters a pattern consumes. *)
Fixpoint min_len (r : regex) : nat :=
  match r with
  | Eps | Bol | Eol | Ahead _ => 0
  | Chars l => List.length l
  | Cls _ => 1
  | Rep _ lo _ _ => lo
  | Cat r1 r2 => min_len r1 + min_len r2
  | Alt r1 r2 => Nat.min (min_len r1) (min_len r2)
  | Grp r1 => min_len r1
  end.

(** The bodies of the groups of a pattern, in the order the groups
    close. *)
Fixpoint group_bodies (r : regex) : list regex :=
  match r with
  | Cat r1 r2 => group_bodies r1 ++ group_bodies r2
  | Grp r1 => group_bodies r1 ++ [r1]
  | Ahead r1 => group_bodies r1
  | _ => []
  end.

Definition no_groups (r : regex) : bool :=
  match group_bodies r with [] => true | _ => false end.

(** No group of the pattern is inside an alternative. *)
Fixpoint alt_free_groups (r : regex) : bool :=
  match r with
  | Cat r1 r2 => alt_free_groups r1 && alt_free_groups r2
  | Alt r1 r2 =>
      no_groups r1 && no_groups r2 && alt_free_groups r1 && alt_free_groups r2
  | Grp r1 | Ahead r1 => alt_free_groups r1
  | _ => true
  end.

(** The pattern consumes the character [c] in every match. *)
Fixpoint needs (c : ascii) (r : regex) : bool :=
  match r with
  | Chars l => existsb (Ascii.eqb c) l
  | Cat r1 r2 => needs c r1 || needs c r2
  | Alt r1 r2 => needs c r1 && needs c r2
  | Grp r1 => needs c r1
  | _ => false
  end.

(** A text fits a pattern's shape when it is long enough and made of
    characters the pattern can consume. *)
Definition fits (body : regex) (g : str) : Prop :=
  forallb (chars_of body) g = true /\ min_len body <= List.length g.

End Shape.

(** A text begins with an integer immediately followed by a period. *)
Fixpoint skip_digits (s : str) : str :=
  match s with
  | c :: t => if Chr.digit c then skip_digits t else s
  | [] => []
  end.

Definition marked (s : str) : bool :=
  match s with
  | c :: t =>
      Chr.digit c &&
      match skip_digits t with
      | d :: _ => Chr.only "." d
      | [] => false
      end
  | [] => false
  end.

(** Some line of the text begins with an integer and a period. *)
Fixpoint marked_after_newline (s : str) : bool :=
  match s with
  | c :: t => (Chr.only nl c && marked t) || marked_after_newline t
  | [] => false
  end.

Definition has_marked_line (s : str) : bool :=
  marked s || marked_after_newline s.

(** A chunk is blank when [result.strip()] is empty. *)
Definition blank (s : str) : bool := negb (Str.truthy (Str.strip s)).

(** The text is ASCII: each of its characters is below 128. *)
Definition ascii_text (s : str) : bool :=
  forallb (fun c => Chr.code c <? 128) s.

(** The digits a text begins with. *)
Fixpoint leading_digits (s : str) : str :=
  match s with
  | c :: t => if Chr.digit c then c :: leading_digits t else []
  | [] => []
  end.

(** A chunk begins with an integer that [int] refuses, and a period:
    the integer has more than [max_str_digits] digits. *)
Definition overlong (chunk : str) : bool :=
  marked chunk && (max_str_digits <? List.length (leading_digits chunk)).

(** Some chunk of the list that is not blank is overlong. *)
Definition some_overlong (results : list str) : bool :=
  existsb (fun c => negb (blank c) && overlong c) results.

(** Two keys are of the same rank when neither is less than the other. *)
Definition same_rank (a b : pynum) : bool :=
  negb (Num.ltb a b) && negb (Num.ltb b a).

(** The address handed to [validate_email] by the loop over
    [email_patterns], if a pattern matches. *)
Fixpoint email_candidate (patterns : list regex) (result : str)
    : res (option str) :=
  match patterns with
  | [] => Ok None
  | pattern :: others =>
      match Re.search pattern result with
      | Some email_match =>
          email <- (if 0 <? List.length (Re.groups email_match)
                    then group email_match 1
                    else Ok (Re.group0 email_match)) ;;
          Ok (Some (if negb (Str.endswith gmail_com email)
                       && Str.contains gmail_com result
                    then email ++ gmail_com
                    else email))
      | None => email_candidate others result
      end
  end.

(** Each field of a record, read off the chunk by the pattern of that
    field alone. *)
Module Field.

Definition first_group (m : option Re.mobj) : option str :=
  match m with
  | Some m => Some (nth 0 (Re.groups m) [])
  | None => None
  end.

Definition nth_group (i : nat) (m : option Re.mobj) : option str :=
  match m with
  | Some m => Some (nth i (Re.groups m) [])
  | None => None
  end.

Definition number (chunk : str) : option Z :=
  match first_group (Re.rmatch Pat.number_pattern chunk) with
  | Some g => match int_of_str g with Ok z => Some z | Raise _ => None end
  | None => None
  end.

Definition name (chunk : str) : option str :=
  option_map Str.strip (first_group (Re.search Pat.name_pattern chunk)).

Definition username (chunk : str) : option str :=
  first_group (Re.search Pat.username_pattern chunk).

Definition url (chunk : str) : option str :=
  first_group (Re.search Pat.url_pattern chunk).

Definition email (chunk : str) : option str :=
  match email_candidate Pat.email_patterns chunk with
  | Ok (Some e) => validate_email (Some e)
  | _ => None
  end.

Definition followers (chunk : str) : option str :=
  nth_group 0 (Re.search Pat.meta_stats_pattern chunk).

Definition following (chunk : str) : option str :=
  nth_group 1 (Re.search Pat.meta_stats_pattern chunk).

Definition posts (chunk : str) : option str :=
  nth_group 2 (Re.search Pat.meta_stats_pattern chunk).

Definition description (chunk : str) : option str :=
  option_map Str.strip
    (first_group (Re.search Pat.description_pattern chunk)).

Definition numeric (chunk : str) : pynum :=
  match followers chunk with
  | Some g =>
      match convert_to_numeric (Some g) with
      | Ok v => v
      | Raise _ => PyInt 0
      end
  | None => PyInt 0
  end.

Definition record (chunk : str) : row :=
  Row (number chunk) (name chunk) (username chunk) (url chunk)
      (email chunk) (followers chunk) (following chunk) (posts chunk)
      (description chunk) (numeric chunk).

End Field.

(** The characters of a text [float] accepts, once the text is stripped
    and in lower case: those of a number, and those of the names of the
    infinities and of the value that is not a number. *)
Definition number_char (c : ascii) : bool :=
  Chr.digit c || Chr.one_of "._e+-" c.

Definition float_char (c : ascii) : bool :=
  number_char c || Chr.one_of "infinityan" c.

(** No item is of lesser key than an item after it. *)
Definition descending (l : list row) : Prop :=
  StronglySorted
    (fun a b =>
       Num.ltb (follower_count_numeric a) (follower_count_numeric b) = false) l.

(** The key of every item is a number. *)
Definition no_nan (l : list row) : Prop :=
  Forall (fun d => Num.is_nan (follower_count_numeric d) = false) l.

(** The text [convert_to_numeric] hands to [float]: the argument,
    stripped and in upper case, without its letters K, or else M. *)
Definition numeric_text (s : str) : str :=
  let u := Str.upper (Str.strip s) in
  if Str.has "K" u then Str.remove "K" u
  else if Str.has "M" u then Str.remove "M" u
  else u.


(** What follows [\d+] in the pattern [\d+\.]: the literal period. *)
Definition dot_next (st : Re.mstate) : option Re.mstate :=
  Re.exec (Chars (lit ".")) st (fun st1 => Some st1).

(** The chunks of a text, read off the text alone: a chunk ends before
    each newline that an integer and a period follow.  [cur] is the
    chunk being collected, reversed. *)
Fixpoint pieces (cur : str) (s : str) : list str :=
  match s with
  | [] => [rev cur]
  | c :: t =>
      if Chr.only nl c && marked t then rev cur :: pieces [] t
      else pieces (c :: cur) t
  end.

(* ================================================================== *)
(** * Sample texts *)
(* ================================================================== *)

(** The lines of a text, joined by newlines. *)
Fixpoint unlines (l : list string) : str :=
  match l with
  | [] => []
  | [s] => lit s
  | s :: t => lit s ++ nl :: unlines t
  end.

Definition jane_chunk : str :=
  unlines [ "1. Jane Doe (@janedoe)";
            "   URL: https://instagram.com/janedoe";
            "   Description: Lifestyle blogger";
            "   10K Followers, 200 Following, 150 Posts";
            "   Meta Description: blog" ]%string.

(** The record the loop builds for [jane_chunk]. *)
Definition jane_record : row :=
  Row (Some 1%Z)
      (Some (lit "Jane Doe"))
      (Some (lit "janedoe"))
      (Some (lit "https://instagram.com/janedoe"))
      None
      (Some (lit "10K")) (Some (lit "200")) (Some (lit "150"))
      (Some (unlines [ "Lifestyle blogger";
                       "   10K Followers, 200 Following, 150 Posts" ]%string))
      (PyFloat (Flt.of_int 10000)).

(** A listing whose snippet shows an address cut after its local part. *)
Definition truncated_chunk : str :=
  unlines [ "1. Jane (@jane)";
            "   Description: write to ... jane gmail.com" ]%string.

(** A listing with an address of another provider before a gmail one. *)
Definition two_address_chunk : str :=
  unlines [ "1. Jane (@jane)";
            "   Description: jane@yahoo.com or bob@gmail.com" ]%string.

(** A listing with an address of a placeholder domain. *)
Definition placeholder_chunk : str :=
  unlines [ "1. Jane (@jane)";
            "   Description: jane@example.com" ]%string.

(** Two listings, the one of fewer followers first. *)
Definition ranked_text : str :=
  unlines [ "1. Ann (@ann)";
            "   500K Followers, 10 Following, 20 Posts";
            "2. Bob (@bob)";
            "   2M Followers, 30 Following, 40 Posts" ]%string.

Definition ann_chunk : str :=
  unlines [ "1. Ann (@ann)";
            "   500K Followers, 10 Following, 20 Posts" ]%string.

Definition bob_chunk : str :=
  unlines [ "2. Bob (@bob)";
            "   2M Followers, 30 Following, 40 Posts" ]%string.

(** A dump as [search_and_save_pages] writes it: a heading, then the
    listings. *)
Definition headed_text : str :=
  unlines [ "Page 1 Results:"; "1. Ann (@ann)" ]%string.

(** A listing whose number has one digit more than [int] reads. *)
Definition long_chunk : str :=
  repeat "1"%char (S max_str_digits) ++ lit ". Ann (@ann)".


(* ================================================================== *)
(** * What a pattern matches *)
(* ================================================================== *)

(** The matches of a pattern, whatever the order in which the matcher
    tries them: [matches r st st'] when [r] can take the matcher from
    [st] to [st'].  A lookahead is atomic, so it is read off the
    matcher. *)
Module Sem.

Definition within (hi : option nat) (n : nat) : Prop :=
  match hi with
  | Some h => n <= h
  | None => True
  end.

Fixpoint matches (r : regex) (st st' : Re.mstate) : Prop :=
  match r with
  | Eps => st' = st
  | Chars l =>
      Str.startswith l (Re.rest st) = true /\
      st' = Re.MState (Re.pos st + List.length l)
              (skipn (List.length l) (Re.rest st)) (Re.caps st)
  | Cls p =>
      exists c t,
        Re.rest st = c :: t /\ p c = true /\
        st' = Re.MState (S (Re.pos st)) t (Re.caps st)
  | Rep p lo hi _ =>
      exists u t,
        Re.rest st = u ++ t /\ forallb p u = true /\
        lo <= List.length u /\ within hi (List.length u) /\
        st' = Re.MState (Re.pos st + List.length u) t (Re.caps st)
  | Bol => Re.pos st = 0 /\ st' = st
  | Eol => (Re.rest st = [] \/ Re.rest st = [nl]) /\ st' = st
  | Cat r1 r2 => exists m, matches r1 st m /\ matches r2 m st'
  | Alt r1 r2 => matches r1 st st' \/ matches r2 st st'
  | Grp r1 =>
      exists m,
        matches r1 st m /\
        st' = Re.MState (Re.pos m) (Re.rest m)
                (Re.caps m ++ [firstn (Re.pos m - Re.pos st) (Re.rest st)])
  | Ahead r1 =>
      exists m,
        Re.exec r1 st (fun st1 => Some st1) = Some m /\
        st' = Re.MState (Re.pos st) (Re.rest st) (Re.caps m)
  end.

End Sem.

(** A text of the shape local@domain.tld: a local part and a domain that
    are not empty, and a last label of two letters at least. *)
Definition address_shape (e : str) : Prop :=
  exists l d t,
    e = l ++ "@"%char :: d ++ "."%char :: t /\
    1 <= List.length l /\ forallb Pat.local_char l = true /\
    1 <= List.length d /\ forallb Pat.domain_char d = true /\
    2 <= List.length t /\ forallb Chr.alpha t = true.

(** The address names a placeholder domain, in any case of letters. *)
Definition denylisted (e : str) : bool :=
  existsb (fun pattern => Str.contains pattern (Str.lower e)) dummy_patterns.

(** A text of the shape of a count: digits, then possibly a period and
    more digits, then possibly a K or an M. *)
Definition count_shape (f : str) : Prop :=
  exists d1 o1 d2 o2,
    f = d1 ++ o1 ++ d2 ++ o2 /\
    1 <= List.length d1 /\ forallb Chr.digit d1 = true /\
    (o1 = [] \/ o1 = ["."%char]) /\
    forallb Chr.digit d2 = true /\
    (o2 = [] \/ o2 = ["K"%char] \/ o2 = ["M"%char]).

(** A float of positive sign: zero, a positive number or the positive
    infinity. *)
Definition positive_sign (x : spec_float) : Prop :=
  match x with
  | S754_zero false | S754_infinity false | S754_finite false _ _ => True
  | _ => False
  end.

(** The key is a float of positive sign. *)
Definition plain_float (v : pynum) : Prop :=
  exists x, v = PyFloat x /\ positive_sign x.

(** White space only. *)
Definition spaces (w : str) : Prop := forallb Chr.space w = true.

(** A run of digits ends before the text [rest]. *)
Definition stops (rest : str) : Prop :=
  match rest with
  | [] => True
  | c :: _ => Chr.digit c = false /\ Chr.only "_" c = false
  end.

(** The lookahead [(?=Meta Description:|$)] holds before the text [t]. *)
Definition ahead_ok (t : str) : bool :=
  Str.startswith (lit "Meta Description:") t ||
  match t with
  | [] => true
  | [c] => Chr.only nl c
  | _ => false
  end.

(* ================================================================== *)
(** * The search results and the text written for them *)
(* ================================================================== *)

(** [str(n)] for an integer that is not negative. *)
Definition str_of_nat (n : nat) : str :=
  lit (NilZero.string_of_uint (Nat.to_uint n)).

(** [s * n] for a string [s] *)
Fixpoint repeat_str (s : str) (n : nat) : str :=
  match n with
  | 0 => []
  | S n' => s ++ repeat_str s n'
  end.

(** [d.get(key, default)] for a key that is present with value [v]
    ([Some v]) or absent ([None]) *)
Definition get_or (v : option str) (default : str) : str :=
  match v with
  | Some s => s
  | None => default
  end.

(** The outcome of a subscript [d[key]]: the value, or a KeyError. *)
Inductive keyed (A : Type) : Type :=
| Got (a : A)
| KeyError.

Arguments Got {A} a.
Arguments KeyError {A}.

Definition keyed_bind {A B : Type} (m : keyed A) (f : A -> keyed B)
    : keyed B :=
  match m with
  | Got a => f a
  | KeyError => KeyError
  end.

(** The answer of the search API, as far as search.py reads it.  A key
    of a JSON object is a field that is [None] when the key is absent;
    the values read are strings. *)
Module Api.

Record person : Type := Person {
  followers : option str;
  following : option str;
  interactioncount : option str
}.

Record metatags : Type := Metatags {
  og_description : option str
}.

Record pagemap : Type := Pagemap {
  persons : option (list person);          (* 'person' *)
  metatag_list : option (list metatags)    (* 'metatags' *)
}.

Record item : Type := Item {
  title : option str;
  link : option str;
  snippet : option str;
  item_pagemap : option pagemap            (* 'pagemap' *)
}.

(** ['queries'] is absent, or present with or without ['nextPage']. *)
Record search_results : Type := Results {
  items : option (list item);
  queries : option bool
}.

(** What [requests.get] and [raise_for_status] give for a page: a
    RequestException, or the decoded answer. *)
Inductive fetched : Type :=
| RequestFailed
| Fetched (r : search_results).

End Api.

(** [extract_instagram_data(item)] *)
Definition extract_instagram_data (item : Api.item) : keyed (option str) :=
  match Api.item_pagemap item with
  | None => KeyError
  | Some pagemap =>
      match Api.persons pagemap with
      | Some (person :: _) =>
          let followers := get_or (Api.followers person) (lit "N/A") in
          let following := get_or (Api.following person) (lit "N/A") in
          let posts := get_or (Api.interactioncount person) (lit "N/A") in
          Got (Some (followers ++ lit " Followers, " ++ following ++
                     lit " Following, " ++ posts ++ lit " Posts"))
      | _ => Got None
      end
  end.

(** The text added to [page_content] for the item numbered
    [global_item_number]. *)
Definition item_content (global_item_number : nat) (item : Api.item)
    : keyed str :=
  let page_content :=
    str_of_nat global_item_number ++ lit ". " ++
    get_or (Api.title item) (lit "No Title") ++ [nl] in
  let page_content :=
    page_content ++ lit "   URL: " ++
    get_or (Api.link item) (lit "No URL") ++ [nl] in
  let page_content :=
    match Api.snippet item with
    | Some snippet => page_content ++ lit "   Description: " ++ snippet ++ [nl]
    | None => page_content
    end in
  keyed_bind
    (match Api.item_pagemap item with
     | Some pagemap =>
         keyed_bind (extract_instagram_data item) (fun instagram_data =>
         let page_content :=
           match instagram_data with
           | Some data =>
               if Str.truthy data
               then page_content ++ lit "   " ++ data ++ [nl]
               else page_content
           | None => page_content
           end in
         Got
           match Api.metatag_list pagemap with
           | Some (metatags :: _) =>
               match Api.og_description metatags with
               | Some text =>
                   page_content ++ lit "   Meta Description: " ++ text ++ [nl]
               | None => page_content
               end
           | _ => page_content
           end)
     | None => Got page_content
     end)
    (fun page_content => Got (page_content ++ [nl])).

(** [for i, item in enumerate(search_results['items'], 1)]: the items
    get the numbers [result_count + 1], [result_count + 2], ... *)
Fixpoint items_content (result_count i : nat) (items : list Api.item)
    : keyed str :=
  match items with
  | [] => Got []
  | item :: others =>
      keyed_bind (item_content (result_count + i) item) (fun first =>
      keyed_bind (items_content result_count (S i) others) (fun rest =>
      Got (first ++ rest)))
  end.

Definition rule : str := repeat_str (lit "=") 80.

(** [page_content] for the answer of page [page]. *)
Definition page_content (page result_count : nat) (r : Api.search_results)
    : keyed str :=
  let heading :=
    lit "Page " ++ str_of_nat page ++ lit " Results:" ++ [nl] ++
    rule ++ [nl; nl] in
  match Api.items r with
  | Some items =>
      keyed_bind (items_content result_count 1 items) (fun listing =>
      Got (heading ++ listing))
  | None => Got (heading ++ lit "No results found for this page." ++ [nl; nl])
  end.

(** What the loop over the pages does besides writing. *)
Inductive event : Type :=
| Sleep                       (* time.sleep(1) *)
| Get (start_index : nat).    (* requests.get(cse_url) *)

(** What a run of the loop over the pages leaves: the text written to
    the combined file, the events in order, and [result_count]. *)
Record run : Type := Run {
  written : str;
  events : list event;
  results : nat
}.

(** [for page in range(1, num_pages + 1)], from page [page] on, with
    [remaining] pages to go. *)
Fixpoint pages_loop (fetch : nat -> Api.fetched)
    (remaining page result_count : nat) : keyed run :=
  match remaining with
  | 0 => Got (Run [] [] result_count)
  | S remaining' =>
      let start_index := (page - 1) * 10 + 1 in
      let now :=
        (if 1 <? page then [Sleep] else []) ++ [Get start_index] in
      match fetch page with
      | Api.RequestFailed => Got (Run [] now result_count)
      | Api.Fetched r =>
          keyed_bind (page_content page result_count r) (fun content =>
          let result_count :=
            match Api.items r with
            | Some items => result_count + List.length items
            | None => result_count
            end in
          match Api.queries r with
          | Some false => Got (Run content now result_count)
          | _ =>
              keyed_bind
                (pages_loop fetch remaining' (S page) result_count)
                (fun later =>
                   Got (Run (content ++ written later)
                            (now ++ events later)
                            (results later)))
          end)
      end
  end.

(** The combined file of [search_and_save_pages], when the files can be
    written: the heading, then what the loop writes. *)
Definition all_results (search_query : str) (num_pages : nat)
    (fetch : nat -> Api.fetched) : keyed run :=
  let heading :=
    lit "Google Search Results for '" ++ search_query ++ lit "'" ++ [nl] ++
    rule ++ [nl; nl] in
  keyed_bind (pages_loop fetch num_pages 1 0) (fun r =>
  Got (Run (heading ++ written r) (events r) (results r))).

(** Reading a text file with the default [newline=None]: a carriage
    return, with the newline after it if there is one, is read as a
    newline. *)
Definition cr : ascii := ascii_of_nat 13.

Fixpoint universal_newlines (s : str) : str :=
  match s with
  | [] => []
  | c :: t =>
      if Chr.only cr c then
        nl :: match t with
              | c' :: t' =>
                  if Chr.only nl c' then universal_newlines t'
                  else universal_newlines t
              | [] => []
              end
      else c :: universal_newlines t
  end.

(** [search_and_save_pages], when the files can be written and read:
    the rows of the CSV file, from the combined file read back. *)
Definition search_and_save_pages (search_query : str) (num_pages : nat)
    (fetch : nat -> Api.fetched) : keyed (res (list row)) :=
  keyed_bind (all_results search_query num_pages fetch) (fun r =>
  Got (extract_records (universal_newlines (written r)))).

(** The page can be followed by another: the request succeeds, and the
    answer does not say that there is no next page. *)
Definition continues (f : Api.fetched) : bool :=
  match f with
  | Api.Fetched r =>
      match Api.queries r with
      | Some false => false
      | _ => true
      end
  | Api.RequestFailed => false
  end.

(** The events of requesting [k] pages in a row, from page [page] on. *)
Definition requests (page k : nat) : list event :=
  flat_map
    (fun p => (if 1 <? p then [Sleep] else []) ++ [Get ((p - 1) * 10 + 1)])
    (seq page k).

(** A text without line ends. *)
Definition plain (s : str) : bool :=
  forallb (fun c => negb (Chr.only nl c) && negb (Chr.only cr c)) s.

Definition plain_opt (s : option str) : bool :=
  match s with
  | Some s => plain s
  | None => true
  end.

(** The texts of an item that are written are without line ends. *)
Definition plain_item (item : Api.item) : bool :=
  plain_opt (Api.title item) && plain_opt (Api.link item) &&
  plain_opt (Api.snippet item) &&
  match Api.item_pagemap item with
  | Some pagemap =>
      match Api.persons pagemap with
      | Some (person :: _) =>
          plain_opt (Api.followers person) &&
          plain_opt (Api.following person) &&
          plain_opt (Api.interactioncount person)
      | _ => true
      end &&
      match Api.metatag_list pagemap with
      | Some (metatags :: _) => plain_opt (Api.og_description metatags)
      | _ => true
      end
  | None => true
  end.

(** The items of page [p]. *)
Definition items_of (f : Api.fetched) : list Api.item :=
  match f with
  | Api.Fetched r =>
      match Api.items r with
      | Some items => items
      | None => []
      end
  | Api.RequestFailed => []
  end.

(** Lines, each with its newline. *)
Definition flat_lines (ls : list str) : str :=
  flat_map (fun l => l ++ [nl]) ls.

(** The lines written for an item. *)
Definition item_lines (n : nat) (item : Api.item) : list str :=
  [str_of_nat n ++ lit ". " ++ get_or (Api.title item) (lit "No Title");
   lit "   URL: " ++ get_or (Api.link item) (lit "No URL")] ++
  match Api.snippet item with
  | Some snippet => [lit "   Description: " ++ snippet]
  | None => []
  end ++
  match Api.item_pagemap item with
  | Some pagemap =>
      match Api.persons pagemap with
      | Some (person :: _) =>
          [lit "   " ++
           get_or (Api.followers person) (lit "N/A") ++ lit " Followers, " ++
           get_or (Api.following person) (lit "N/A") ++ lit " Following, " ++
           get_or (Api.interactioncount person) (lit "N/A") ++ lit " Posts"]
      | _ => []
      end ++
      match Api.metatag_list pagemap with
      | Some (metatags :: _) =>
          match Api.og_description metatags with
          | Some text => [lit "   Meta Description: " ++ text]
          | None => []
          end
      | _ => []
      end
  | None => []
  end ++ [[]].

(** The value of a sequence of decimal digits, first digit first, after
    the digits of value [a]. *)
Fixpoint digits_val (a : Z) (s : str) : Z :=
  match s with
  | [] => a
  | c :: t => digits_val (10 * a + Flt.digit_val c)%Z t
  end.

(** A line that begins with the number [k] and a period. *)
Definition numbered (l : str) (k : nat) : Prop :=
  exists x, l = str_of_nat k ++ "."%char :: x.

(** Lines without line ends inside, of which those that begin with an
    integer and a period are numbered [first], [first + 1], ... and are
    [count] in number. *)
Definition listing (first count : nat) (ls : list str) : Prop :=
  Forall (fun l => plain l = true) ls /\
  Forall2 numbered (filter marked ls) (seq first count).

(** Two pages of answers: two items, then one item and no next page. *)
Definition ann_item : Api.item :=
  Api.Item (Some (lit "Ann (@ann)"))
           (Some (lit "https://instagram.com/ann"))
           (Some (lit "Travel ... ann@gmail.com"))
           (Some (Api.Pagemap
                    (Some [Api.Person (Some (lit "500K")) (Some (lit "20"))
                             (Some (lit "1.5K"))])
                    (Some [Api.Metatags (Some (lit "Ann on Instagram"))]))).

Definition bare_item : Api.item := Api.Item None None None None.

Definition two_pages (page : nat) : Api.fetched :=
  match page with
  | 1 => Api.Fetched (Api.Results (Some [ann_item; bare_item]) (Some true))
  | 2 => Api.Fetched (Api.Results (Some [bare_item]) (Some false))
  | _ => Api.RequestFailed
  end.

(** The combined file of a search for travel India that is answered by
    [two_pages]. *)
Definition travel_dump : str :=
  match all_results (lit "travel India") 5 two_pages with
  | Got r => written r
  | KeyError => []
  end.

(* ================================================================== *)
(** * safe_open_write *)
(* ================================================================== *)

(** [safe_open_write] is a generator under [contextlib.contextmanager].
    The model follows the generator from one suspension to the next:
    [__enter__] runs it to its first [yield]; [__exit__] resumes it
    with [next] when the body of the [with] statement finished, and
    with [throw] when the body raised. *)
Module Retry.

(** The file the generator yields: [open(path)] or [open(new_path)]. *)
Inductive file : Type :=
| Original
| Alternative.

(** What [open] or the body of the [with] statement raises: a
    PermissionError, or an exception of another class under
    [Exception]. *)
Inductive raised : Type :=
| PermissionError
| OtherException.

(** What the program does, in order. *)
Inductive action : Type :=
| Open (f : file)      (* open(path, ...) or open(new_path, ...) *)
| Wait                 (* time.sleep(retry_delay) *)
| Body (f : file).     (* the body of the with statement *)

(** Where a run of the generator arrives: at a [yield], in iteration
    [attempt] of the loop; at its end; or at an exception that leaves
    it. *)
Inductive progress : Type :=
| Yielded (f : file) (attempt : nat)
| Returned
| Raised (e : raised).

(** The outcome of the [with] statement: it completes, an exception
    of [open] or of the body leaves it, or [contextmanager] raises
    RuntimeError because the generator did not yield, or did not stop
    when it was resumed. *)
Inductive outcome : Type :=
| Completed
| Fails (e : raised)
| DidNotYield
| DidNotStop.

Definition prepend (acts : list action) (r : list action * progress)
    : list action * progress :=
  (acts ++ fst r, snd r).

Section Generator.

Variable max_retries : nat.

(** The outcome of [open(path, ...)] in iteration [attempt], and of
    [open(new_path, ...)]: [None] when the file is opened. *)
Variable open_path : nat -> option raised.
Variable open_alt : option raised.

(** [except PermissionError], entered in iteration [attempt];
    [rest] is the run of the iterations that follow. *)
Definition handler (attempt : nat) (rest : list action * progress)
    : list action * progress :=
  if attempt <? max_retries - 1 then prepend [Wait] rest
  else
    match open_alt with
    | None => ([Open Alternative], Yielded Alternative attempt)
    | Some e => ([Open Alternative], Raised e)
    end.

(** [for attempt in range(max_retries)], from iteration [attempt]
    on, with [remaining] iterations to go, up to the next
    suspension. *)
Fixpoint attempts (remaining attempt : nat) : list action * progress :=
  match remaining with
  | 0 => ([], Returned)
  | S remaining' =>
      prepend [Open Original]
        match open_path attempt with
        | None => ([], Yielded Original attempt)
        | Some PermissionError =>
            handler attempt (attempts remaining' (S attempt))
        | Some OtherException => ([], Raised OtherException)
        end
  end.

(** The iterations after iteration [attempt]. *)
Definition following (attempt : nat) : list action * progress :=
  attempts (max_retries - S attempt) (S attempt).

(** [next(gen)] at a suspension: after [yield file] comes [return];
    after [yield alt_file] the handler ends and the loop goes on. *)
Definition resume_next (f : file) (attempt : nat)
    : list action * progress :=
  match f with
  | Original => ([], Returned)
  | Alternative => following attempt
  end.

(** [gen.throw(e)] at a suspension: at [yield file] the exception
    meets the handlers of the outer [try]; at [yield alt_file] it
    is inside a handler already, and leaves the generator. *)
Definition resume_throw (f : file) (attempt : nat) (e : raised)
    : list action * progress :=
  match f, e with
  | Original, PermissionError => handler attempt (following attempt)
  | _, _ => ([], Raised e)
  end.

(** [with safe_open_write(path) as f: body]: the actions and the
    outcome.  [body f] is [None] when the body finishes, and the
    exception it raises otherwise. *)
Definition safe_open_write (body : file -> option raised)
    : list action * outcome :=
  let '(entering, p) := attempts max_retries 0 in
  match p with
  | Returned => (entering, DidNotYield)
  | Raised e => (entering, Fails e)
  | Yielded f attempt =>
      let '(leaving, q) :=
        match body f with
        | None => resume_next f attempt
        | Some e => resume_throw f attempt e
        end in
      (entering ++ Body f :: leaving,
       match q, body f with
       | Returned, _ => Completed
       | Raised e, _ => Fails e
       | Yielded _ _, _ => DidNotStop
       end)
  end.

End Generator.

Definition is_open (f : file) (a : action) : bool :=
  match a, f with
  | Open Original, Original => true
  | Open Alternative, Alternative => true
  | _, _ => false
  end.

Definition is_wait (a : action) : bool :=
  match a with Wait => true | _ => false end.

Definition is_body (a : action) : bool :=
  match a with Body _ => true | _ => false end.

(** How many of the actions are of a kind. *)
Definition count (kind : action -> bool) (acts : list action) : nat :=
  List.length (filter kind acts).

(** Where the generator arrives after an [open] with outcome [r]
    that yields the file [f] in iteration [attempt]. *)
Definition arrival (r : option raised) (f : file) (attempt : nat)
    : progress :=
  match r with
  | None => Yielded f attempt
  | Some e => Raised e
  end.

(** [n] times: the file is not opened, and the program waits. *)
Fixpoint tries (n : nat) : list action :=
  match n with
  | 0 => []
  | S n' => Open Original :: Wait :: tries n'
  end.

End Retry.

(* ================================================================== *)
(** * File names and configuration *)
(* ================================================================== *)

(** [\w] on the ASCII range *)
Definition word (c : ascii) : bool :=
  Chr.alpha c || Chr.digit c || Chr.only "_" c.

(** [re.sub(r'[^\w]', '_', s)] *)
Definition sub_non_word (s : str) : str :=
  map (fun c => if negb (word c) then "_"%char else c) s.

(** The names of the files of [search_and_save_pages]; [timestamp] is
    what [time.strftime] gives. *)
Definition base_filename (niche location timestamp : str) : str :=
  sub_non_word niche ++ lit "_" ++ sub_non_word location ++ lit "_" ++
  timestamp.

Definition all_results_path (results_dir base_filename : str) : str :=
  results_dir ++ lit "/all_results_" ++ base_filename ++ lit ".txt".

Definition csv_filename (results_dir base_filename : str) : str :=
  results_dir ++ lit "/csv_results/" ++ base_filename ++ lit ".csv".

Definition page_file_path (results_dir : str) (page : nat)
    (base_filename : str) : str :=
  results_dir ++ lit "/page_" ++ str_of_nat page ++ lit "_" ++
  base_filename ++ lit ".txt".

(** The characters of a file name that has one extension. *)
Definition name_char (c : ascii) : bool := word c || Chr.only "." c.

(** The dictionary [config]. *)
Record config : Type := Config {
  api_key : str;
  search_engine_id : str;
  results_dir : str;
  max_pages : Z
}.

(** [load_config()]; [getenv] is the environment after [load_dotenv()].
    The entries of the dictionary are evaluated in order, [int] last;
    then the required settings are checked. *)
Definition load_config (getenv : string -> option str) : res config :=
  let api_key := getenv "GOOGLE_API_KEY"%string in
  let search_engine_id := getenv "GOOGLE_SEARCH_ENGINE_ID"%string in
  let results_dir :=
    get_or (getenv "RESULTS_DIR"%string) (lit "google_search_results") in
  max_pages <- int_of_str (get_or (getenv "MAX_PAGES"%string) (lit "10")) ;;
  match api_key, search_engine_id with
  | Some api_key, Some search_engine_id =>
      Ok (Config api_key search_engine_id results_dir max_pages)
  | _, _ => Raise ValueError
  end.

(** The characters of a count. *)
Definition count_char (c : ascii) : bool :=
  Chr.digit c || Chr.one_of ".KM" c.

(** Lines joined by newlines. *)
Definition unsplit (ls : list str) : str :=
  match ls with
  | [] => []
  | l :: others => l ++ List.concat (map (cons nl) others)
  end.

(** A text that may be absent has no comma. *)
Definition comma_free (v : option str) : bool :=
  match v with
  | Some s => negb (Str.has "," s)
  | None => true
  end.

(* ================================================================== *)
(** * Facts about the matcher *)
(* ================================================================== *)

Section MatcherFacts.

Import Re Shape.

Lemma startswith_split (l s : str) :
  Str.startswith l s = true -> s = l ++ skipn (List.length l) s.
Proof.
  revert s; induction l as [|x l IH]; intros [|y s]; simpl; try easy.
  intros H; apply andb_prop in H as [Hx Hl].
  apply Ascii.eqb_eq in Hx; subst y.
  f_equal; now apply IH.
Qed.

Lemma startswith_app (l s : str) : Str.startswith l (l ++ s) = true.
Proof.
  induction l as [|x l IH]; simpl; [reflexivity|].
  now rewrite Ascii.eqb_refl, IH.
Qed.

(** What a repetition that succeeded has consumed. *)
Lemma rep_inv p g (s : str) :
  forall lo hi n cs k res,
    rep p g lo hi n s cs k = Some res ->
    exists u t,
      s = u ++ t /\ forallb p u = true /\ lo <= List.length u /\
      k (MState (n + List.length u) t cs) = Some res.
Proof.
  induction s as [|c s IH]; intros lo hi n cs k res H; simpl in H.
  - destruct (Nat.eqb_spec lo 0) as [->|]; [|discriminate].
    exists [], []; simpl; rewrite Nat.add_0_r; auto.
  - assert (Here : (if lo =? 0 then k (MState n (c :: s) cs) else None) = Some res ->
                   exists u t, c :: s = u ++ t /\ forallb p u = true /\
                     lo <= List.length u /\
                     k (MState (n + List.length u) t cs) = Some res).
    { destruct (Nat.eqb_spec lo 0) as [->|]; [|discriminate].
      intros Hk; exists [], (c :: s); simpl; rewrite Nat.add_0_r; auto. }
    assert (More : rep p g (pred lo) (option_map pred hi) (S n) s cs k = Some res ->
                   p c = true ->
                   exists u t, c :: s = u ++ t /\ forallb p u = true /\
                     lo <= List.length u /\
                     k (MState (n + List.length u) t cs) = Some res).
    { intros Hr Hc. apply IH in Hr as (u & t & -> & Hu & Hlo & Hk).
      exists (c :: u), t; simpl; rewrite Hc, Hu.
      replace (n + S (List.length u)) with (S n + List.length u) by lia.
      repeat split; auto; lia. }
    destruct (p c) eqn:Hc; simpl in H; [|auto].
    destruct (room hi); simpl in H; [|auto].
    destruct g.
    + destruct (rep p true (pred lo) (option_map pred hi) (S n) s cs k) eqn:Hr.
      * injection H as <-; auto.
      * auto.
    + destruct (if lo =? 0 then k (MState n (c :: s) cs) else None) eqn:Hh.
      * injection H as <-; auto.
      * auto.
Qed.

Lemma existsb_eqb_self (c : ascii) (l : str) :
  In c l -> existsb (Ascii.eqb c) l = true.
Proof.
  intros H; apply existsb_exists; exists c; split; [easy | apply Ascii.eqb_refl].
Qed.

Lemma forallb_chars_self (l : str) :
  forallb (fun c => existsb (Ascii.eqb c) l) l = true.
Proof.
  apply forallb_forall; intros c; apply existsb_eqb_self.
Qed.

Lemma forallb_weaken (p q : ascii -> bool) (u : str) :
  (forall c, p c = true -> q c = true) ->
  forallb p u = true -> forallb q u = true.
Proof.
  intros Hpq Hu; apply forallb_forall; intros c Hc.
  apply Hpq; revert c Hc; now apply forallb_forall.
Qed.

Lemma no_groups_nil r : no_groups r = true -> group_bodies r = [].
Proof. unfold no_groups; now destruct (group_bodies r). Qed.

(** What a match that succeeded has consumed and captured: the
    continuation was entered at a state reached by consuming a text
    that fits the pattern, with one more capture for each group. *)
Lemma exec_inv (r : regex) :
  alt_free_groups r = true ->
  forall st k res,
    exec r st k = Some res ->
    exists st' u gs,
      k st' = Some res /\
      rest st = u ++ rest st' /\
      pos st' = pos st + List.length u /\
      fits r u /\
      caps st' = caps st ++ gs /\
      Forall2 fits (group_bodies r) gs.
Proof.
  unfold fits.
  induction r as [ | l | p | p lo hi g | | | r1 IH1 r2 IH2 | r1 IH1 r2 IH2
                 | r1 IH1 | r1 IH1 ]; intros Hwf st k res H; simpl in *.
  - exists st, [], []; rewrite app_nil_r, Nat.add_0_r; simpl; auto 10.
  - destruct (Str.startswith l (rest st)) eqn:Hs; [|discriminate].
    eexists _, l, []; split; [exact H|]; simpl.
    rewrite app_nil_r, forallb_chars_self.
    repeat split; auto using startswith_split.
  - destruct (rest st) as [|c t] eqn:Hr; [discriminate|].
    destruct (p c) eqn:Hc; [|discriminate].
    eexists _, [c], []; split; [exact H|]; simpl.
    rewrite app_nil_r, Hc; repeat split; auto; lia.
  - apply rep_inv in H as (u & t & Hs & Hu & Hlo & Hk).
    eexists _, u, []; split; [exact Hk|]; simpl.
    rewrite app_nil_r; auto 10.
  - destruct (pos st =? 0); [|discriminate].
    exists st, [], []; rewrite app_nil_r, Nat.add_0_r; simpl; auto 10.
  - assert (Hk : k st = Some res).
    { destruct (rest st) as [|c [|? ?]]; try easy.
      now destruct (Chr.only nl c). }
    exists st, [], []; rewrite app_nil_r, Nat.add_0_r; simpl; auto 10.
  - apply andb_prop in Hwf as [W1 W2].
    apply (IH1 W1) in H as (st1 & u1 & g1 & H & R1 & P1 & [C1 L1] & K1 & G1).
    apply (IH2 W2) in H as (st2 & u2 & g2 & H & R2 & P2 & [C2 L2] & K2 & G2).
    exists st2, (u1 ++ u2), (g1 ++ g2); split; [exact H|].
    rewrite R1, R2, P2, P1, K2, K1, !app_assoc, forallb_app, length_app.
    repeat split; auto using Forall2_app; try lia.
    apply andb_true_intro; split.
    + eapply forallb_weaken; [|exact C1]; intros c ->; reflexivity.
    + eapply forallb_weaken; [|exact C2]; intros c ->; apply orb_true_r.
  - apply andb_prop in Hwf as [Hwf W2]. apply andb_prop in Hwf as [Hwf W1].
    apply andb_prop in Hwf as [N1 N2].
    apply no_groups_nil in N1, N2.
    destruct (exec r1 st k) eqn:E1.
    + injection H as <-.
      apply (IH1 W1) in E1 as (st1 & u1 & g1 & H & R1 & P1 & [C1 L1] & K1 & G1).
      rewrite N1 in G1; inversion G1; subst g1.
      exists st1, u1, []; repeat split; auto; try lia.
      eapply forallb_weaken; [|exact C1]; intros c ->; reflexivity.
    + apply (IH2 W2) in H as (st2 & u2 & g2 & H & R2 & P2 & [C2 L2] & K2 & G2).
      rewrite N2 in G2; inversion G2; subst g2.
      exists st2, u2, []; repeat split; auto; try lia.
      eapply forallb_weaken; [|exact C2]; intros c ->; apply orb_true_r.
  - apply (IH1 Hwf) in H as (st1 & u1 & g1 & H & R1 & P1 & [C1 L1] & K1 & G1).
    assert (F : firstn (pos st1 - pos st) (rest st) = u1).
    { rewrite P1, R1.
      replace (pos st + List.length u1 - pos st) with (List.length u1 + 0) by lia.
      rewrite firstn_app_2; simpl; apply app_nil_r. }
    rewrite F in H.
    eexists _, u1, (g1 ++ [u1]); split; [exact H|]; simpl.
    rewrite K1, app_assoc.
    repeat split; auto.
    apply Forall2_app; [exact G1|].
    constructor; [auto|constructor].
  - destruct (exec r1 st (fun st1 => Some st1)) as [st1|] eqn:E1; [|discriminate].
    apply (IH1 Hwf) in E1 as (st1' & u1 & g1 & E & R1 & P1 & [C1 L1] & K1 & G1).
    injection E as ->.
    eexists _, [], g1; split; [exact H|]; simpl.
    rewrite Nat.add_0_r; repeat split; auto.
Qed.

(** The groups of a match object fit the group bodies of the pattern. *)
Lemma at_pos_groups (r : regex) (n : nat) (s : str) (m : mobj) :
  alt_free_groups r = true ->
  at_pos r n s = Some m -> Forall2 fits (group_bodies r) (groups m).
Proof.
  unfold at_pos; intros Hwf H.
  destruct (exec r (MState n s []) (fun st => Some st)) as [st|] eqn:E;
    [|discriminate].
  injection H as <-; simpl.
  apply (exec_inv _ Hwf) in E as (st' & u & gs & E & _ & _ & _ & K & G).
  injection E as ->; simpl in K; now subst gs.
Qed.

Lemma search_from_groups (r : regex) (s : str) :
  alt_free_groups r = true ->
  forall n m, search_from r n s = Some m ->
              Forall2 fits (group_bodies r) (groups m).
Proof.
  intros Hwf; induction s as [|c s IH]; intros n m H; simpl in H;
    destruct (at_pos r n _) eqn:E.
  - injection H as <-; eauto using at_pos_groups.
  - discriminate.
  - injection H as <-; eauto using at_pos_groups.
  - eauto.
Qed.

Lemma search_groups (r : regex) (s : str) (m : mobj) :
  alt_free_groups r = true ->
  search r s = Some m -> Forall2 fits (group_bodies r) (groups m).
Proof. intros Hwf; apply search_from_groups, Hwf. Qed.

Lemma rmatch_groups (r : regex) (s : str) (m : mobj) :
  alt_free_groups r = true ->
  rmatch r s = Some m -> Forall2 fits (group_bodies r) (groups m).
Proof. intros Hwf; apply at_pos_groups, Hwf. Qed.

End MatcherFacts.

Section StrFacts.

Lemma lstrip_id (s : str) :
  match s with c :: _ => Chr.space c = false | [] => True end ->
  Str.lstrip s = s.
Proof. destruct s as [|c s]; simpl; [easy | now intros ->]. Qed.

Lemma strip_id (s : str) :
  forallb (fun c => negb (Chr.space c)) s = true -> Str.strip s = s.
Proof.
  intros H; unfold Str.strip, Str.rstrip.
  assert (A : forall c, In c s -> Chr.space c = false).
  { intros c Hc; apply negb_true_iff; revert c Hc; now apply forallb_forall. }
  rewrite (lstrip_id s), (lstrip_id (rev s)); [apply rev_involutive | | ].
  - destruct (rev s) as [|c t] eqn:E; [easy|].
    apply A, in_rev; rewrite E; now left.
  - destruct s; [easy | apply A; now left].
Qed.

End StrFacts.

Section NumberFacts.

Lemma digit_not_space c : Chr.digit c = true -> Chr.space c = false.
Proof.
  unfold Chr.digit, Chr.space, Chr.in_range.
  intros H; apply andb_prop in H as [A B].
  apply Nat.leb_le in A, B.
  apply orb_false_iff; split; apply andb_false_iff.
  - right; apply Nat.leb_gt; lia.
  - right; apply Nat.leb_gt; lia.
Qed.

Lemma digit_not_char (a c : ascii) :
  Chr.digit a = false -> Chr.digit c = true -> Chr.only a c = false.
Proof.
  unfold Chr.only; intros Ha Hc.
  destruct (Ascii.eqb_spec c a) as [->|]; [congruence | reflexivity].
Qed.

Lemma digits_more_all (s acc : str) :
  forallb Chr.digit s = true -> Flt.digits_more acc s = (rev s ++ acc, []).
Proof.
  revert acc; induction s as [|c s IH]; intros acc H; simpl in *; [reflexivity|].
  apply andb_prop in H as [Hc Hs]; rewrite Hc, (IH _ Hs).
  now rewrite <- app_assoc.
Qed.

(** [int] reads a text made of digits, unless they are too many. *)
Lemma int_of_digits (g : str) :
  forallb Chr.digit g = true -> 1 <= List.length g ->
  int_of_str g =
  if max_str_digits <? List.length g then Raise ValueError
  else Ok (Flt.rev_digits_val (rev g)).
Proof.
  intros Hg Hl; unfold int_of_str.
  rewrite strip_id.
  2:{ eapply forallb_weaken; [|exact Hg].
      intros c Hc; now rewrite digit_not_space. }
  destruct g as [|c g]; [simpl in Hl; lia|].
  simpl in Hg; apply andb_prop in Hg as [Hc Hs].
  unfold Flt.sign.
  rewrite !(digit_not_char _ c) by (reflexivity || exact Hc).
  unfold Flt.digitpart; rewrite Hc, (digits_more_all _ _ Hs).
  rewrite length_app, length_rev, Nat.add_comm; reflexivity.
Qed.

Lemma int_of_digits_short (g : str) :
  forallb Chr.digit g = true -> 1 <= List.length g ->
  List.length g <= max_str_digits ->
  int_of_str g = Ok (Flt.rev_digits_val (rev g)).
Proof.
  intros Hg Hl Hs; rewrite (int_of_digits g Hg Hl).
  destruct (Nat.ltb_spec max_str_digits (List.length g)); [lia | reflexivity].
Qed.

End NumberFacts.

Section ChunkFacts.

Import Shape.

Lemma group_nth (m : Re.mobj) (i : nat) :
  i < List.length (Re.groups m) ->
  group m (S i) = Ok (nth i (Re.groups m) []).
Proof.
  intros H; unfold group; simpl; rewrite Nat.sub_0_r.
  destruct (nth_error (Re.groups m) i) eqn:E.
  - now rewrite (nth_error_nth _ _ _ E).
  - apply nth_error_None in E; lia.
Qed.

Lemma groups_length r s m :
  alt_free_groups r = true ->
  Re.search r s = Some m ->
  List.length (Re.groups m) = List.length (group_bodies r).
Proof.
  intros W H; symmetry; eapply Forall2_length, search_groups; eauto.
Qed.

Lemma of_str_outcome (s : str) :
  (exists x, Flt.of_str s = Ok x) \/ Flt.of_str s = Raise ValueError.
Proof.
  unfold Flt.of_str.
  destruct (Flt.sign _) as [neg body].
  destruct (_ || _); [eauto|].
  destruct (Str.eqb _ _); [eauto|].
  destruct (Flt.number body) as [[[ip fp] r]|]; [|auto].
  destruct (Flt.exponent r); eauto.
Qed.

(** [convert_to_numeric] raises nothing. *)
Lemma convert_to_numeric_total (x : option str) :
  exists v, convert_to_numeric x = Ok v.
Proof.
  destruct x as [s|]; simpl; [|eauto].
  destruct (Str.truthy s); simpl; [|eauto].
  set (u := Str.upper (Str.strip s)).
  destruct (Str.has "K" u).
  - destruct (of_str_outcome (Str.remove "K" u)) as [[x ->] | ->]; simpl; eauto.
  - destruct (Str.has "M" u).
    + destruct (of_str_outcome (Str.remove "M" u)) as [[x ->] | ->]; simpl; eauto.
    + destruct (of_str_outcome u) as [[x ->] | ->]; simpl; eauto.
Qed.

Lemma email_candidate_total (ps : list regex) (result : str) :
  exists c, email_candidate ps result = Ok c.
Proof.
  induction ps as [|p ps IH]; simpl; [eauto|].
  destruct (Re.search p result) as [m|]; [|exact IH].
  destruct (Nat.ltb_spec 0 (List.length (Re.groups m))) as [H|H].
  - rewrite (group_nth _ _ H); simpl; eauto.
  - simpl; eauto.
Qed.

Lemma email_loop_candidate (ps : list regex) (result : str) (data : row) :
  email_loop ps result data =
  (c <- email_candidate ps result ;;
   Ok (match c with
       | Some e => set_email data (validate_email (Some e))
       | None => data
       end)).
Proof.
  induction ps as [|p ps IH]; simpl; [reflexivity|].
  destruct (Re.search p result) as [m|]; [|exact IH].
  destruct (if 0 <? _ then _ else _); reflexivity.
Qed.

Lemma number_group (chunk : str) (m : Re.mobj) :
  Re.rmatch Pat.number_pattern chunk = Some m ->
  exists g, Re.groups m = [g] /\ forallb Chr.digit g = true /\
            1 <= List.length g.
Proof.
  intros H; apply rmatch_groups in H; [|reflexivity].
  simpl in H; inversion H as [|b g bs gs [F L] T]; subst.
  inversion T; subst; eauto.
Qed.

Lemma one_group_of r s m :
  alt_free_groups r = true ->
  List.length (group_bodies r) = 1 ->
  Re.search r s = Some m ->
  group m 1 = Ok (nth 0 (Re.groups m) []).
Proof.
  intros W L H; apply group_nth.
  rewrite (groups_length _ _ _ W H), L; auto.
Qed.

Lemma three_groups_of r s m :
  alt_free_groups r = true ->
  List.length (group_bodies r) = 3 ->
  Re.search r s = Some m ->
  group m 1 = Ok (nth 0 (Re.groups m) []) /\
  group m 2 = Ok (nth 1 (Re.groups m) []) /\
  group m 3 = Ok (nth 2 (Re.groups m) []).
Proof.
  intros W L H; repeat split; apply group_nth;
    rewrite (groups_length _ _ _ W H), L; auto.
Qed.

(** The body of the loop raises when [int] refuses the number, and
    nothing otherwise: then each field of the record it builds is the
    one its own pattern gives. *)
Theorem process_chunk_record (chunk : str) :
  process_chunk chunk =
  match Re.rmatch Pat.number_pattern chunk with
  | Some m =>
      if max_str_digits <? List.length (nth 0 (Re.groups m) [])
      then Raise ValueError
      else Ok (Field.record chunk)
  | None => Ok (Field.record chunk)
  end.
Proof.
  unfold process_chunk, Field.record, Field.number, Field.name,
    Field.username, Field.url, Field.email, Field.numeric, Field.followers,
    Field.following, Field.posts, Field.description.
  destruct (Re.rmatch Pat.number_pattern chunk) as [m0|] eqn:E0;
    cbn [bind Field.first_group Field.nth_group option_map].
  1: destruct (number_group _ _ E0) as (g & Hg & Hd & Hl);
     rewrite (group_nth m0 0) by (rewrite Hg; simpl; lia);
     rewrite Hg; cbn [nth bind]; rewrite (int_of_digits _ Hd Hl);
     destruct (max_str_digits <? List.length g); [reflexivity|];
     cbn [bind].
  all: destruct (Re.search Pat.name_pattern chunk) as [m1|] eqn:E1;
    [rewrite (one_group_of Pat.name_pattern _ _ eq_refl eq_refl E1)|];
    cbn [bind Field.first_group Field.nth_group option_map].
  all: destruct (Re.search Pat.username_pattern chunk) as [m2|] eqn:E2;
    [rewrite (one_group_of Pat.username_pattern _ _ eq_refl eq_refl E2)|];
    cbn [bind Field.first_group Field.nth_group option_map].
  all: destruct (Re.search Pat.url_pattern chunk) as [m3|] eqn:E3;
    [rewrite (one_group_of Pat.url_pattern _ _ eq_refl eq_refl E3)|];
    cbn [bind Field.first_group Field.nth_group option_map].
  all: rewrite email_loop_candidate;
    destruct (email_candidate_total Pat.email_patterns chunk) as [c ->];
    cbn [bind].
  all: destruct (Re.search Pat.meta_stats_pattern chunk) as [m4|] eqn:E4;
    [destruct (three_groups_of Pat.meta_stats_pattern _ _ eq_refl eq_refl E4) as (-> & -> & ->);
     cbn [bind];
     destruct (convert_to_numeric_total (Some (nth 0 (Re.groups m4) [])))
       as [v Ev]; rewrite Ev|];
    cbn [bind Field.first_group Field.nth_group option_map];
    rewrite ?Ev.
  all: destruct (Re.search Pat.description_pattern chunk) as [m5|] eqn:E5;
    [rewrite (one_group_of Pat.description_pattern _ _ eq_refl eq_refl E5)|];
    cbn [bind Field.first_group Field.nth_group option_map].
  all: destruct c; reflexivity.
Qed.

(** What the loop returns for a chunk is the record of the chunk. *)
Lemma process_chunk_ok (chunk : str) (d : row) :
  process_chunk chunk = Ok d -> d = Field.record chunk.
Proof.
  rewrite process_chunk_record.
  destruct (Re.rmatch Pat.number_pattern chunk) as [m|].
  - destruct (max_str_digits <? _); [discriminate | now intros [= <-]].
  - now intros [= <-].
Qed.

(** The loop raises a ValueError, or nothing. *)
Lemma process_chunk_error (chunk : str) (e : exn) :
  process_chunk chunk = Raise e -> e = ValueError.
Proof.
  rewrite process_chunk_record.
  destruct (Re.rmatch Pat.number_pattern chunk) as [m|].
  - destruct (max_str_digits <? _); [now intros [= <-] | discriminate].
  - discriminate.
Qed.

End ChunkFacts.

Section RoundingFacts.

Local Open Scope Z_scope.

Lemma shr_1_nonneg mrs : 0 <= shr_m mrs -> 0 <= shr_m (shr_1 mrs).
Proof.
  destruct mrs as [m r s]; simpl.
  destruct m as [|[p|p|]|[p|p|]]; simpl; lia.
Qed.

Lemma iter_pos_nonneg (n : positive) :
  forall mrs, 0 <= shr_m mrs -> 0 <= shr_m (iter_pos shr_1 n mrs).
Proof.
  induction n as [n IH|n IH|]; intros mrs H; simpl;
    auto using shr_1_nonneg.
Qed.

Lemma shr_fexp_nonneg prec emax m e l :
  0 <= m -> 0 <= shr_m (fst (shr_fexp prec emax m e l)).
Proof.
  intros H; unfold shr_fexp, shr.
  assert (H0 : 0 <= shr_m (shr_record_of_loc m l)).
  { destruct l as [|[]]; simpl; exact H. }
  destruct (fexp prec emax (Zdigits2 m + e) - e); simpl;
    auto using iter_pos_nonneg.
Qed.

Lemma round_nearest_even_nonneg m l :
  0 <= m -> 0 <= round_nearest_even m l.
Proof.
  intros H; destruct l as [|[]]; simpl; try lia.
  destruct (Z.even m); lia.
Qed.

(** Rounding a mantissa that is not negative gives a number. *)
Lemma binary_round_aux_number prec emax s m e l :
  0 <= m -> binary_round_aux prec emax s m e l <> S754_nan.
Proof.
  intros H; unfold binary_round_aux.
  pose proof (shr_fexp_nonneg prec emax m e l H) as H1.
  destruct (shr_fexp prec emax m e l) as [mrs' e']; simpl in H1.
  pose proof (shr_fexp_nonneg prec emax _ e' loc_Exact
                (round_nearest_even_nonneg _ (loc_of_shr_record mrs') H1)) as H2.
  destruct (shr_fexp prec emax _ e' loc_Exact) as [mrs'' e'']; simpl in H2.
  destruct (shr_m mrs''); [easy | | lia].
  now destruct (e'' <=? emax - prec).
Qed.

Lemma of_decimal_number neg m e : Flt.of_decimal neg m e <> S754_nan.
Proof.
  unfold Flt.of_decimal; destruct m as [|p|p]; try easy.
  destruct (SFdiv_core_binary _ _ _ _ _ _) as [[q e2] l] eqn:E.
  apply binary_round_aux_number.
  unfold SFdiv_core_binary in E.
  set (n := Z.pos p * 10 ^ Z.max 0 e) in *.
  set (d := 10 ^ Z.max 0 (- e)) in *.
  assert (Hn : 0 <= n) by (unfold n; apply Z.mul_nonneg_nonneg; [lia|];
                           apply Z.pow_nonneg; lia).
  assert (Hd : 0 < d) by (unfold d; apply Z.pow_pos_nonneg; lia).
  match type of E with
  | (let '(q, r) := Z.div_eucl ?a ?b in _) = _ =>
      assert (Ha : 0 <= a);
      [| pose proof (Z_div_mod a b ltac:(lia)) as D;
         destruct (Z.div_eucl a b) as [q' r']; injection E as <- _ _;
         nia ]
  end.
  destruct (_ - _ - _); try lia.
  rewrite Z.shiftl_mul_pow2 by lia.
  apply Z.mul_nonneg_nonneg; [lia | apply Z.pow_nonneg; lia].
Qed.

Lemma mul_number x m e :
  Flt.mul x (S754_finite false m e) = S754_nan -> x = S754_nan.
Proof.
  destruct x as [s|s| |s mx ex]; simpl; try easy.
  intros H; now apply binary_round_aux_number in H.
Qed.

End RoundingFacts.

Section CharFacts.

Ltac by_cases c :=
  destruct c as [[] [] [] [] [] [] [] []]; vm_compute;
  try reflexivity; try discriminate.




Lemma float_char_not_space c :
  float_char (Chr.to_lower c) = true -> Chr.space c = false.
Proof. by_cases c. Qed.


End CharFacts.

Section ParserFacts.

Lemma str_eqb_eq (a b : str) : Str.eqb a b = true -> a = b.
Proof.
  revert b; induction a as [|x a IH]; intros [|y b]; simpl; try easy.
  intros H; apply andb_prop in H as [Hx Ha].
  apply Ascii.eqb_eq in Hx; subst; f_equal; auto.
Qed.

Lemma only_eq a c : Chr.only a c = true -> c = a.
Proof. apply Ascii.eqb_eq. Qed.





Lemma sign_consumed s neg body :
  Flt.sign s = (neg, body) ->
  exists u, s = u ++ body /\ forallb number_char u = true.
Proof.
  unfold Flt.sign; destruct s as [|c t].
  { intros H; injection H as _ <-; now exists []. }
  destruct (Chr.only "-" c) eqn:Hm.
  { apply only_eq in Hm; subst c; intros H; injection H as _ <-.
    now exists ["-"%char]. }
  destruct (Chr.only "+" c) eqn:Hp.
  { apply only_eq in Hp; subst c; intros H; injection H as _ <-.
    now exists ["+"%char]. }
  intros H; injection H as _ <-; now exists [].
Qed.



(** Only the text [nan], with a sign or without, is read as the value
    that is not a number. *)
Lemma of_str_nan (s : str) :
  Flt.of_str s = Ok S754_nan -> In "n"%char (Str.lower (Str.strip s)).
Proof.
  unfold Flt.of_str.
  destruct (Flt.sign _) as [neg body] eqn:Es.
  apply sign_consumed in Es as (u & -> & Hu).
  destruct (_ || _); [easy|].
  destruct (Str.eqb body (lit "nan")) eqn:E3.
  { apply str_eqb_eq in E3; subst body; intros _.
    apply in_or_app; right; simpl; auto. }
  destruct (Flt.number body) as [[[ip fp] r]|]; [|easy].
  destruct (Flt.exponent r); [|easy].
  intros H; injection H as H; now apply of_decimal_number in H.
Qed.

End ParserFacts.

Section StripFacts.

Lemma lstrip_split (s : str) :
  exists a, s = a ++ Str.lstrip s /\ forallb Chr.space a = true.
Proof.
  induction s as [|c s (a & E & H)]; simpl.
  - now exists [].
  - destruct (Chr.space c) eqn:Hc.
    + exists (c :: a); simpl; rewrite Hc, H; split; [now f_equal | reflexivity].
    + now exists [].
Qed.

Lemma lstrip_head (s : str) :
  match Str.lstrip s with c :: _ => Chr.space c = false | [] => True end.
Proof.
  induction s as [|c s IH]; simpl; [exact I|].
  destruct (Chr.space c) eqn:Hc; [exact IH | exact Hc].
Qed.

Lemma lstrip_idem (s : str) : Str.lstrip (Str.lstrip s) = Str.lstrip s.
Proof. apply lstrip_id, lstrip_head. Qed.

(** A text is its stripped text between two runs of white space. *)
Lemma strip_split (s : str) :
  exists a b, s = a ++ Str.strip s ++ b /\
              forallb Chr.space a = true /\ forallb Chr.space b = true.
Proof.
  unfold Str.strip, Str.rstrip.
  destruct (lstrip_split s) as (a & Ea & Ha).
  destruct (lstrip_split (rev (Str.lstrip s))) as (b & Eb & Hb).
  exists a, (rev b); repeat split; auto.
  - rewrite <- rev_app_distr, <- Eb, rev_involutive; exact Ea.
  - rewrite forallb_forall in *; intros c Hc; apply Hb; now apply in_rev.
Qed.

Lemma strip_incl (s : str) (c : ascii) : In c (Str.strip s) -> In c s.
Proof.
  destruct (strip_split s) as (a & b & E & _); intros H.
  rewrite E; apply in_or_app; right; apply in_or_app; now left.
Qed.

Lemma strip_keeps (s : str) (c : ascii) :
  In c s -> Chr.space c = false -> In c (Str.strip s).
Proof.
  destruct (strip_split s) as (a & b & E & Ha & Hb); intros H Hc.
  rewrite E in H; rewrite forallb_forall in Ha, Hb.
  apply in_app_or in H as [H|H]; [apply Ha in H; congruence|].
  apply in_app_or in H as [H|H]; [exact H | apply Hb in H; congruence].
Qed.

Lemma strip_head (s : str) : Str.lstrip (Str.strip s) = Str.strip s.
Proof.
  apply lstrip_id; unfold Str.strip, Str.rstrip.
  pose proof (lstrip_head s) as H.
  destruct (lstrip_split (rev (Str.lstrip s))) as (b & Eb & Hb).
  apply (f_equal (@rev ascii)) in Eb.
  rewrite rev_involutive, rev_app_distr in Eb.
  destruct (rev (Str.lstrip (rev (Str.lstrip s)))) as [|c t]; [exact I|].
  rewrite Eb in H; exact H.
Qed.

Lemma strip_idem (s : str) : Str.strip (Str.strip s) = Str.strip s.
Proof.
  unfold Str.strip at 1; rewrite strip_head.
  unfold Str.rstrip, Str.strip, Str.rstrip.
  now rewrite rev_involutive, lstrip_idem.
Qed.



Lemma lstrip_spaces (s : str) :
  forallb Chr.space s = true -> Str.lstrip s = [].
Proof.
  induction s as [|c s IH]; simpl; [reflexivity|].
  intros H; apply andb_prop in H as [-> H]; auto.
Qed.

(** A chunk is blank when it is empty or white space only. *)
Lemma blank_spec (s : str) : blank s = forallb Chr.space s.
Proof.
  unfold blank.
  destruct (forallb Chr.space s) eqn:A.
  - unfold Str.strip; now rewrite (lstrip_spaces _ A).
  - assert (E : exists c, In c s /\ Chr.space c = false).
    { clear -A; induction s as [|c s IH]; [discriminate|]; simpl in A.
      destruct (Chr.space c) eqn:C.
      - destruct (IH A) as (x & Hx & Sx); exists x; simpl; auto.
      - exists c; simpl; auto. }
    destruct E as (c & Hc & Sc).
    apply strip_keeps in Hc; [|exact Sc].
    now destruct (Str.strip s).
Qed.

End StripFacts.

Section ConvertFacts.



Lemma has_false (a : ascii) (s : str) :
  (forall c, In c s -> Chr.only a c = false) -> Str.has a s = false.
Proof.
  intros H; unfold Str.has.
  destruct (existsb (Ascii.eqb a) s) eqn:E; [|reflexivity].
  apply existsb_exists in E as (c & Hc & Ec).
  apply H in Hc; unfold Chr.only in Hc.
  rewrite Ascii.eqb_sym in Hc; congruence.
Qed.


Lemma remove_absent (a : ascii) (s : str) :
  Str.has a s = false -> Str.remove a s = s.
Proof.
  unfold Str.has, Str.remove; induction s as [|c s IH]; simpl; [reflexivity|].
  intros H; apply orb_false_iff in H as [Hc Hs].
  rewrite Ascii.eqb_sym, Hc; simpl; now rewrite IH.
Qed.

Lemma has_app (a : ascii) (s t : str) :
  Str.has a (s ++ t) = Str.has a s || Str.has a t.
Proof. apply existsb_app. Qed.





Lemma convert_by_text (s : str) :
  Str.truthy s = true ->
  convert_to_numeric (Some s) =
  try_except
    (x <- Flt.of_str (numeric_text s) ;;
     Ok (PyFloat
           (if Str.has "K" (Str.upper (Str.strip s))
            then Flt.mul x (Flt.of_int 1000)
            else if Str.has "M" (Str.upper (Str.strip s))
                 then Flt.mul x (Flt.of_int 1000000)
                 else x)))
    (Ok (PyInt 0)).
Proof.
  intros T; unfold convert_to_numeric, numeric_text; rewrite T; cbn [negb].
  destruct (Str.has "K" _); [reflexivity|].
  destruct (Str.has "M" _); reflexivity.
Qed.




End ConvertFacts.

Section OrderFacts.

Import Num.
Local Open Scope Z_scope.

(** Comparing [m1 * 2^e1] and [m2 * 2^e2] at any common scale. *)
Lemma fin_ltb_scale (m1 e1 m2 e2 E : Z) :
  E <= e1 -> E <= e2 ->
  xltb (XFin m1 e1) (XFin m2 e2) = (m1 * 2 ^ (e1 - E) <? m2 * 2 ^ (e2 - E)).
Proof.
  intros H1 H2; simpl.
  set (e := Z.min e1 e2).
  assert (He : E <= e) by (unfold e; lia).
  assert (P : 0 < 2 ^ (e - E)) by (apply Z.pow_pos_nonneg; lia).
  replace (e1 - E) with ((e1 - e) + (e - E)) by lia.
  replace (e2 - E) with ((e2 - e) + (e - E)) by lia.
  rewrite !Z.pow_add_r by (unfold e; lia).
  rewrite !Z.mul_assoc.
  destruct (Z.ltb_spec (m1 * 2 ^ (e1 - e)) (m2 * 2 ^ (e2 - e))) as [L|L];
    symmetry; [apply Z.ltb_lt | apply Z.ltb_ge].
  - now apply Z.mul_lt_mono_pos_r.
  - now apply Z.mul_le_mono_nonneg_r; [lia|].
Qed.

Lemma xltb_asym (a b : xval) : xltb a b = true -> xltb b a = false.
Proof.
  destruct a as [|s1|m1 e1], b as [|s2|m2 e2]; simpl; try easy.
  - now destruct s1, s2.
  - now destruct s1.
  - now destruct s2.
  - rewrite (Z.min_comm e2 e1); intros H.
    apply Z.ltb_lt in H; apply Z.ltb_ge; lia.
Qed.

Lemma xltb_cotrans (a b v : xval) :
  v <> XNaN -> xltb a b = true -> xltb a v = true \/ xltb v b = true.
Proof.
  intros Hv.
  destruct a as [|s1|m1 e1], b as [|s2|m2 e2], v as [|s3|m3 e3]; try easy.
  all: try (set (E := Z.min e1 (Z.min e2 e3));
            rewrite (fin_ltb_scale m1 e1 m2 e2 E),
              (fin_ltb_scale m1 e1 m3 e3 E),
              (fin_ltb_scale m3 e3 m2 e2 E) by (unfold E; lia);
            rewrite !Z.ltb_lt; lia).
  all: simpl; repeat match goal with s : bool |- _ => destruct s end;
    simpl; auto.
Qed.

Lemma ltb_asym (a b : pynum) : ltb a b = true -> ltb b a = false.
Proof. apply xltb_asym. Qed.

Lemma ltb_cotrans (a b v : pynum) :
  is_nan v = false -> ltb a b = true -> ltb a v = true \/ ltb v b = true.
Proof.
  unfold is_nan, ltb; intros Hv; apply xltb_cotrans.
  now destruct (val v).
Qed.

End OrderFacts.

Section SortFacts.

Local Abbreviation key := follower_count_numeric.

Lemma insert_desc_perm x l : Permutation (x :: l) (insert_desc x l).
Proof.
  induction l as [|y t IH]; simpl; [reflexivity|].
  destruct (Num.ltb (key x) (key y)); [|reflexivity].
  rewrite perm_swap; now constructor.
Qed.

Lemma sort_desc_perm l : Permutation l (sort_desc l).
Proof.
  induction l as [|x t IH]; simpl; [constructor|].
  rewrite <- insert_desc_perm; now constructor.
Qed.

Lemma insert_desc_in x l d : In d (insert_desc x l) <-> d = x \/ In d l.
Proof.
  split; intros H.
  - apply (Permutation_in _ (Permutation_sym (insert_desc_perm x l))) in H.
    destruct H; auto.
  - apply (Permutation_in _ (insert_desc_perm x l)); destruct H; subst;
      simpl; auto.
Qed.

Lemma insert_desc_sorted x l :
  no_nan l -> descending l -> descending (insert_desc x l).
Proof.
  unfold descending; intros N S; induction S as [|y t S IH F]; simpl.
  - repeat constructor.
  - inversion N as [|? ? Ny Nt]; subst.
    destruct (Num.ltb (key x) (key y)) eqn:L.
    + constructor; [auto|].
      apply Forall_forall; intros d Hd.
      apply insert_desc_in in Hd as [->|Hd].
      * now apply ltb_asym.
      * revert d Hd; now apply Forall_forall.
    + constructor; [now constructor|].
      constructor; [exact L|].
      apply Forall_forall; intros d Hd.
      destruct (Num.ltb (key x) (key d)) eqn:L'; [|reflexivity].
      destruct (ltb_cotrans _ _ (key y) Ny L') as [A|A]; [congruence|].
      rewrite Forall_forall in F; rewrite (F d Hd) in A; discriminate.
Qed.

Lemma no_nan_perm l l' : Permutation l l' -> no_nan l -> no_nan l'.
Proof. intros P; unfold no_nan; now apply Permutation_Forall. Qed.

(** The sorted list is in descending order. *)
Lemma sort_desc_sorted l : no_nan l -> descending (sort_desc l).
Proof.
  induction l as [|x t IH]; intros N; simpl.
  - constructor.
  - inversion N; subst.
    apply insert_desc_sorted; [|now apply IH].
    eapply no_nan_perm; [apply sort_desc_perm | assumption].
Qed.

Lemma insert_desc_filter (f : row -> bool) x l :
  (forall y, f x = true -> Num.ltb (key x) (key y) = true -> f y = false) ->
  filter f (insert_desc x l) = filter f (x :: l).
Proof.
  intros H; induction l as [|y t IH]; [reflexivity|].
  cbn [insert_desc].
  destruct (Num.ltb (key x) (key y)) eqn:L; [|reflexivity].
  cbn [filter] in *; rewrite IH.
  destruct (f x) eqn:Fx; [|reflexivity].
  now rewrite (H y eq_refl L).
Qed.

(** Sorting keeps the order of the items of one rank. *)
Lemma sort_desc_stable (v : pynum) l :
  Num.is_nan v = false ->
  filter (fun d => same_rank (key d) v) (sort_desc l) =
  filter (fun d => same_rank (key d) v) l.
Proof.
  intros Hv; induction l as [|x t IH]; [reflexivity|].
  cbn [sort_desc]; rewrite insert_desc_filter.
  - cbn [filter]; now rewrite IH.
  - unfold same_rank; intros y Fx L.
    apply andb_prop in Fx as [A B]; apply negb_true_iff in A, B.
    destruct (ltb_cotrans _ _ v Hv L) as [C|C]; [congruence|].
    rewrite C; apply andb_false_r.
Qed.

(** In a descending list, an item is not of lesser key than an item
    at a later place. *)
Lemma descending_nth (l : list row) :
  descending l ->
  forall i j a b,
    i < j -> nth_error l i = Some a -> nth_error l j = Some b ->
    Num.ltb (follower_count_numeric a) (follower_count_numeric b) = false.
Proof.
  unfold descending; induction l as [|x t IH]; intros S i j a b L A B.
  - destruct i; discriminate.
  - apply StronglySorted_inv in S as [S F].
    destruct j as [|j]; [lia|]; cbn [nth_error] in B.
    destruct i as [|i]; cbn [nth_error] in A.
    + injection A as <-.
      rewrite Forall_forall in F; eapply F, nth_error_In, B.
    + apply (IH S i j a b); auto; lia.
Qed.

End SortFacts.

Section SplitFacts.

Import Re.

Lemma digit_not_dot c : Chr.digit c = true -> Chr.only "." c = false.
Proof. now apply digit_not_char. Qed.

Lemma dot_next_at n c t cs :
  dot_next (MState n (c :: t) cs) =
  if Chr.only "." c then Some (MState (n + 1) t cs) else None.
Proof.
  unfold dot_next, Chr.only.
  change (lit ".") with ["."%char].
  cbn [exec Str.startswith rest pos caps List.length skipn].
  rewrite (Ascii.eqb_sym c ".").
  destruct (Ascii.eqb "." c); reflexivity.
Qed.

Lemma rep_digits_dot (t : str) :
  forall n cs,
    rep Chr.digit true 0 None n t cs dot_next <> None <->
    match skip_digits t with
    | d :: _ => Chr.only "." d = true
    | [] => False
    end.
Proof.
  induction t as [|c t IH]; intros n cs; simpl.
  - unfold dot_next; simpl; tauto.
  - destruct (Chr.digit c) eqn:Hc; simpl.
    + rewrite <- (IH (S n) cs).
      destruct (rep Chr.digit true 0 None (S n) t cs dot_next); [easy|].
      rewrite dot_next_at, (digit_not_dot _ Hc); tauto.
    + rewrite dot_next_at.
      destruct (Chr.only "." c); split; easy.
Qed.

Lemma rep_digits_dot_caps (t : str) :
  forall lo n cs st,
    rep Chr.digit true lo None n t cs dot_next = Some st -> caps st = cs.
Proof.
  intros lo n cs st H.
  apply rep_inv in H as (u & r & _ & _ & _ & H).
  unfold dot_next in H; cbn [exec rest pos caps] in H.
  destruct (Str.startswith (lit ".") r); [|discriminate].
  now injection H as <-.
Qed.

Lemma marked_rep (t : str) (n : nat) :
  rep Chr.digit true 1 None n t [] dot_next <> None <-> marked t = true.
Proof.
  destruct t as [|c t]; [simpl; easy|].
  simpl; destruct (Chr.digit c) eqn:Hc; simpl; [|easy].
  pose proof (rep_digits_dot t (S n) []) as R.
  destruct (rep Chr.digit true 0 None (S n) t [] dot_next);
    destruct (skip_digits t) as [|d r]; try exact R.
  - exfalso; apply (proj1 R); discriminate.
  - split; [intros H; now contradiction H | discriminate].
Qed.

(** The pattern of [re.split] matches at a newline that an integer
    and a period follow, and there only; the match is the newline. *)
Lemma split_at (n : nat) (s : str) :
  at_pos Pat.split_pattern n s =
  match s with
  | c :: t =>
      if Chr.only nl c && marked t then Some (MObj n (S n) [c] []) else None
  | [] => None
  end.
Proof.
  unfold at_pos; destruct s as [|c t]; [reflexivity|].
  change (exec Pat.split_pattern (MState n (c :: t) []) (fun st => Some st))
    with (if Chr.only nl c
          then match rep Chr.digit true 1 None (S n) t [] dot_next with
               | Some st1 => Some (MState (S n) t (caps st1))
               | None => None
               end
          else None).
  destruct (Chr.only nl c); [|reflexivity]; cbn [andb].
  pose proof (marked_rep t (S n)) as M.
  pose proof (rep_digits_dot_caps t 1 (S n) []) as C.
  destruct (rep Chr.digit true 1 None (S n) t [] dot_next) as [st|].
  - rewrite (C st eq_refl).
    replace (marked t) with true by (symmetry; now apply M).
    cbn [pos caps]; replace (S n - n) with 1 by lia; reflexivity.
  - destruct (marked t); [|reflexivity].
    now destruct (proj2 M eq_refl).
Qed.

Lemma split_go_pieces (s : str) :
  forall n cur, split_go Pat.split_pattern 0 n cur s = pieces cur s.
Proof.
  induction s as [|c t IH]; intros n cur; cbn [split_go pieces];
    [reflexivity|].
  rewrite split_at.
  destruct (Chr.only nl c && marked t); cbn [m_end].
  - replace (S n - n) with 1 by lia; now rewrite IH.
  - apply IH.
Qed.

(** Segmentation, read off the text. *)
Lemma segments_pieces (content : str) : segments content = pieces [] content.
Proof. apply split_go_pieces. Qed.

Lemma pieces_whole (s : str) :
  forall cur, marked_after_newline s = false -> pieces cur s = [rev cur ++ s].
Proof.
  induction s as [|c t IH]; intros cur H; simpl in *.
  - now rewrite app_nil_r.
  - apply orb_false_iff in H as [-> H].
    rewrite (IH _ H); simpl; now rewrite <- app_assoc.
Qed.

Lemma skip_digits_newline (t post : str) :
  skip_digits (t ++ nl :: post) =
  match skip_digits t with
  | [] => nl :: post
  | r => r ++ nl :: post
  end.
Proof.
  induction t as [|c t IH]; simpl; [reflexivity|].
  destruct (Chr.digit c); [exact IH | reflexivity].
Qed.

(** A newline ends a line: what follows it does not make the text
    before it begin with an integer and a period. *)
Lemma marked_newline (t post : str) : marked (t ++ nl :: post) = marked t.
Proof.
  destruct t as [|c t]; simpl; [reflexivity|].
  rewrite skip_digits_newline.
  destruct (skip_digits t); reflexivity.
Qed.

Lemma pieces_first (pre post : str) :
  forall cur,
    marked_after_newline pre = false -> marked post = true ->
    pieces cur (pre ++ nl :: post) = (rev cur ++ pre) :: pieces [] post.
Proof.
  induction pre as [|c t IH]; intros cur H M; simpl in *.
  - rewrite M; simpl; now rewrite app_nil_r.
  - apply orb_false_iff in H as [H1 H].
    rewrite marked_newline, H1, (IH _ H M); simpl; now rewrite <- app_assoc.
Qed.

End SplitFacts.

Section NumberMatch.

Import Re.

Lemma leading_digits_split (t : str) :
  firstn (List.length (leading_digits t)) t = leading_digits t /\
  skipn (List.length (leading_digits t)) t = skip_digits t /\
  forallb Chr.digit (leading_digits t) = true.
Proof.
  induction t as [|c t (F & S & D)]; [repeat split|].
  cbn [leading_digits skip_digits]; destruct (Chr.digit c) eqn:Hc;
    cbn [List.length firstn skipn forallb]; [|repeat split].
  now rewrite F, S, Hc, D.
Qed.

(** A greedy run of digits, before a continuation that fails in front
    of a digit, takes all the digits the text begins with. *)
Lemma rep_leading_digits (k : mstate -> option mstate) :
  (forall n c t cs, Chr.digit c = true -> k (MState n (c :: t) cs) = None) ->
  forall t lo n cs,
    rep Chr.digit true lo None n t cs k =
    if lo <=? List.length (leading_digits t)
    then k (MState (n + List.length (leading_digits t)) (skip_digits t) cs)
    else None.
Proof.
  intros K; induction t as [|c t IH]; intros lo n cs;
    cbn [rep leading_digits skip_digits List.length].
  - rewrite Nat.add_0_r; now destruct lo.
  - destruct (Chr.digit c) eqn:Hc; cbn [andb room List.length].
    + rewrite IH, (K n c t cs Hc); cbn [option_map].
      replace (S n + List.length (leading_digits t))
        with (n + S (List.length (leading_digits t))) by lia.
      destruct lo as [|lo]; cbn [pred Nat.leb Nat.eqb];
        [|destruct (lo <=? _); [|reflexivity]];
        now destruct (k _).
    + rewrite Nat.add_0_r; now destruct lo.
Qed.

(** The pattern of the number matches a chunk that begins with an
    integer and a period, and no other; its group is the integer. *)
Lemma number_match (chunk : str) :
  option_map groups (rmatch Pat.number_pattern chunk) =
  if marked chunk then Some [leading_digits chunk] else None.
Proof.
  unfold rmatch, at_pos, Pat.number_pattern, Pat.plus.
  cbn [exec pos rest caps].
  rewrite rep_leading_digits.
  2:{ intros n c t cs Hc; cbn [pos rest caps].
      change (lit ".") with ["."%char]; cbn [Str.startswith].
      rewrite Ascii.eqb_sym; fold (Chr.only "." c).
      now rewrite (digit_not_dot _ Hc). }
  destruct (leading_digits_split chunk) as (F & S & D).
  cbn [pos rest caps]; rewrite Nat.add_0_l, Nat.sub_0_r, F.
  change (lit ".") with ["."%char]; cbn [Str.startswith app].
  destruct chunk as [|c t]; [reflexivity|].
  cbn [leading_digits skip_digits marked] in *.
  destruct (Chr.digit c) eqn:Hc; cbn [List.length Nat.leb andb];
    [|reflexivity].
  destruct (skip_digits t) as [|d r]; [reflexivity|].
  unfold Chr.only; rewrite (Ascii.eqb_sym d "."), andb_true_r.
  now destruct (Ascii.eqb "." d).
Qed.

Lemma number_match_none (chunk : str) :
  marked chunk = false -> rmatch Pat.number_pattern chunk = None.
Proof.
  intros M; pose proof (number_match chunk) as H; rewrite M in H.
  now destruct (rmatch Pat.number_pattern chunk).
Qed.

Lemma number_match_some (chunk : str) :
  marked chunk = true ->
  exists m, rmatch Pat.number_pattern chunk = Some m /\
            groups m = [leading_digits chunk].
Proof.
  intros M; pose proof (number_match chunk) as H; rewrite M in H.
  destruct (rmatch Pat.number_pattern chunk) as [m|]; [|discriminate].
  exists m; split; [reflexivity | now injection H].
Qed.

(** A pattern that begins with [^] matches at the start only. *)
Lemma search_from_bol (r : regex) (s : str) :
  forall n, search_from (Cat Bol r) (S n) s = None.
Proof.
  induction s as [|c s IH]; intros n; cbn [search_from];
    unfold at_pos; cbn [exec pos Nat.eqb]; [reflexivity | apply IH].
Qed.

(** The pattern of the name matches no chunk that does not begin
    with an integer and a period. *)
Lemma name_unmarked (chunk : str) :
  marked chunk = false -> Field.name chunk = None.
Proof.
  intros M; unfold Field.name, search, Pat.name_pattern.
  assert (A : at_pos
                (Bol >> Pat.plus Chr.digit >> Chars (lit ".") >>
                 Pat.star Chr.space >> Grp (Pat.star_lazy Chr.dot) >>
                 Pat.star Chr.space >> Chars (lit "(@"))%re 0 chunk = None).
  { unfold at_pos, Pat.plus; cbn [exec pos rest caps Nat.eqb].
    rewrite rep_leading_digits.
    2:{ intros n c t cs Hc; cbn [exec pos rest caps].
        change (lit ".") with ["."%char]; cbn [Str.startswith].
        rewrite Ascii.eqb_sym; fold (Chr.only "." c).
        now rewrite (digit_not_dot _ Hc). }
    destruct chunk as [|c t]; [reflexivity|].
    cbn [leading_digits skip_digits marked] in *.
    destruct (Chr.digit c) eqn:Hc; cbn [List.length Nat.leb andb] in *;
      [|reflexivity].
    cbn [exec pos rest caps].
    change (lit ".") with ["."%char].
    destruct (skip_digits t) as [|d r]; [reflexivity|].
    cbn [Str.startswith]; unfold Chr.only in M.
    now rewrite Ascii.eqb_sym, M. }
  destruct chunk as [|c t]; cbn [search_from]; rewrite A; [reflexivity|].
  now rewrite search_from_bol.
Qed.

(** The number of a record is null when the pattern of the number
    does not match, or [int] refuses the integer. *)
Lemma number_null (chunk : str) :
  Field.number chunk = None <->
  rmatch Pat.number_pattern chunk = None \/ overlong chunk = true.
Proof.
  unfold Field.number, overlong.
  destruct (marked chunk) eqn:M; cbn [andb].
  - destruct (number_match_some _ M) as (m & E & G).
    destruct (number_group _ _ E) as (g & Hg & Hd & Hl).
    rewrite E; cbn [Field.first_group]; rewrite Hg; cbn [nth].
    rewrite Hg in G; injection G as <-.
    rewrite (int_of_digits _ Hd Hl).
    destruct (max_str_digits <? List.length g); split; auto.
    + discriminate.
    + intros [H|H]; discriminate.
  - rewrite (number_match_none _ M); cbn [Field.first_group]; split; auto.
Qed.

(** The body of the loop raises a ValueError at an overlong chunk, and
    makes the record of any other chunk. *)
Theorem process_chunk_overlong (chunk : str) :
  process_chunk chunk =
  if overlong chunk then Raise ValueError else Ok (Field.record chunk).
Proof.
  rewrite process_chunk_record; unfold overlong.
  destruct (marked chunk) eqn:M; cbn [andb].
  - destruct (number_match_some _ M) as (m & -> & ->); reflexivity.
  - now rewrite number_match_none.
Qed.

End NumberMatch.

Section KeyFacts.

Import Shape.

Lemma count_char_not_n c :
  chars_of Pat.count c = true ->
  Chr.to_lower (Chr.to_upper c) <> "n"%char.
Proof.
  destruct c as [[] [] [] [] [] [] [] []]; vm_compute; congruence.
Qed.

Lemma numeric_text_incl (s : str) (c : ascii) :
  In c (numeric_text s) -> In c (Str.upper (Str.strip s)).
Proof.
  unfold numeric_text, Str.remove.
  destruct (Str.has "K" _); [now intros H%filter_In|].
  destruct (Str.has "M" _); [now intros H%filter_In|].
  easy.
Qed.

Lemma is_nan_float (x : spec_float) :
  Num.is_nan (PyFloat x) = true -> x = S754_nan.
Proof. now destruct x. Qed.

(** The value of a text of the shape of a count is a number. *)
Lemma convert_count (g : str) (v : pynum) :
  forallb (chars_of Pat.count) g = true ->
  convert_to_numeric (Some g) = Ok v -> Num.is_nan v = false.
Proof.
  intros Hg H.
  destruct (Str.truthy g) eqn:T.
  2:{ unfold convert_to_numeric in H; rewrite T in H.
      now injection H as <-. }
  rewrite (convert_by_text _ T) in H.
  destruct (of_str_outcome (numeric_text g)) as [[x Hx]|Hx];
    rewrite Hx in H; cbn in H; [|now injection H as <-].
  injection H as <-.
  destruct (Num.is_nan _) eqn:N; [exfalso|reflexivity].
  apply is_nan_float in N.
  assert (X : x = S754_nan).
  { destruct (Str.has "K" _); [now apply mul_number in N|].
    destruct (Str.has "M" _); [now apply mul_number in N|].
    exact N. }
  subst x; apply of_str_nan in Hx.
  apply in_map_iff in Hx as (c & Ec & Hc).
  apply strip_incl, numeric_text_incl in Hc.
  apply in_map_iff in Hc as (c0 & <- & Hc0).
  apply strip_incl in Hc0.
  rewrite forallb_forall in Hg.
  now apply (count_char_not_n c0 (Hg _ Hc0)).
Qed.

(** The key of a record is a number. *)
Lemma numeric_number (chunk : str) :
  Num.is_nan (Field.numeric chunk) = false.
Proof.
  unfold Field.numeric, Field.followers, Field.nth_group.
  destruct (Re.search Pat.meta_stats_pattern chunk) as [m|] eqn:E;
    [|reflexivity].
  destruct (convert_to_numeric _) as [v|e] eqn:C; [|reflexivity].
  apply convert_count in C; [exact C|].
  apply search_groups in E; [|reflexivity].
  cbn in E; inversion E as [|b g bs gs [F L] T]; subst; exact F.
Qed.

End KeyFacts.

Section PipelineFacts.

(** The loop over the chunks raises a ValueError when a chunk that is
    not blank is overlong; otherwise it makes the record of each
    chunk that is not blank, in the order of the chunks. *)
Lemma extract_items_records (results : list str) :
  extract_items results =
  if some_overlong results then Raise ValueError
  else Ok (map Field.record (filter (fun c => negb (blank c)) results)).
Proof.
  induction results as [|c l IH]; [reflexivity|].
  unfold some_overlong; cbn [extract_items filter existsb].
  fold (some_overlong l); fold (blank c).
  destruct (blank c); cbn [negb andb orb].
  - exact IH.
  - rewrite process_chunk_overlong, IH.
    destruct (overlong c); cbn [bind orb]; [reflexivity|].
    now destruct (some_overlong l).
Qed.



Lemma extract_items_short (results : list str) :
  some_overlong results = false ->
  extract_items results =
  Ok (map Field.record (filter (fun c => negb (blank c)) results)).
Proof. intros H; now rewrite extract_items_records, H. Qed.

Lemma records_no_nan (chunks : list str) : no_nan (map Field.record chunks).
Proof.
  unfold no_nan; apply Forall_forall; intros d Hd.
  apply in_map_iff in Hd as (c & <- & _); apply numeric_number.
Qed.

Lemma extract_records_sorted (content : str) :
  extract_records content =
  if some_overlong (segments content) then Raise ValueError
  else Ok (sort_desc (map Field.record
                        (filter (fun c => negb (blank c))
                           (segments content)))).
Proof.
  unfold extract_records; rewrite extract_items_records.
  now destruct (some_overlong (segments content)).
Qed.

Lemma extract_records_ok (content : str) (out : list row) :
  extract_records content = Ok out ->
  some_overlong (segments content) = false /\
  extract_items (segments content) =
  Ok (map Field.record
        (filter (fun c => negb (blank c)) (segments content))) /\
  out = sort_desc (map Field.record
                     (filter (fun c => negb (blank c)) (segments content))).
Proof.
  rewrite extract_records_sorted, extract_items_records.
  destruct (some_overlong (segments content)); [discriminate|].
  now intros [= <-].
Qed.

Lemma extract_records_error (content : str) (e : exn) :
  extract_records content = Raise e ->
  some_overlong (segments content) = true /\ e = ValueError.
Proof.
  rewrite extract_records_sorted.
  destruct (some_overlong (segments content)); [|discriminate].
  now intros [= <-].
Qed.

Lemma extract_records_short (content : str) :
  some_overlong (segments content) = false ->
  extract_records content =
  Ok (sort_desc (map Field.record
                   (filter (fun c => negb (blank c)) (segments content)))).
Proof. intros H; now rewrite extract_records_sorted, H. Qed.

End PipelineFacts.

Section EmailFacts.

Lemma startswith_map (f : ascii -> ascii) (p s : str) :
  Str.startswith p s = true ->
  Str.startswith (map f p) (map f s) = true.
Proof.
  revert s; induction p as [|x p IH]; intros [|y s]; simpl; try easy.
  intros H; apply andb_prop in H as [Hx Hp].
  apply Ascii.eqb_eq in Hx; subst y.
  now rewrite Ascii.eqb_refl, (IH _ Hp).
Qed.

Lemma contains_map (f : ascii -> ascii) (p s : str) :
  Str.contains p s = true ->
  Str.contains (map f p) (map f s) = true.
Proof.
  induction s as [|c s IH]; simpl.
  - rewrite !orb_false_r; apply (startswith_map f p []).
  - intros H; apply orb_prop in H as [H|H].
    + apply (startswith_map f p (c :: s)) in H.
      simpl in H; now rewrite H.
    + rewrite (IH H); apply orb_true_r.
Qed.

Lemma contains_lower (p s : str) :
  Str.contains p s = true ->
  Str.contains (Str.lower p) (Str.lower s) = true.
Proof. apply contains_map. Qed.

(** What [validate_email] returns is its argument, matched by the
    pattern and free of the placeholder domains. *)
Lemma validate_email_some (e r : str) :
  validate_email (Some e) = Some r ->
  r = e /\
  Re.rmatch Pat.email_pattern e <> None /\
  forall d, In d dummy_patterns -> Str.contains d e = false.
Proof.
  unfold validate_email.
  destruct (negb (Str.truthy e)); [easy|].
  destruct (Re.rmatch Pat.email_pattern e) as [m|]; [|easy].
  destruct (existsb _ dummy_patterns) eqn:D; [easy|].
  intros H; injection H as <-; repeat split; [easy|].
  intros d Hd.
  destruct (Str.contains d e) eqn:C; [|reflexivity].
  apply contains_lower in C.
  assert (L : Str.lower d = d).
  { destruct Hd as [<-|[<-|[<-|[]]]]; reflexivity. }
  rewrite L in C.
  assert (X : existsb (fun p => Str.contains p (Str.lower e)) dummy_patterns
              = true)
    by (apply existsb_exists; eauto).
  congruence.
Qed.

(** The email of a record is absent or an accepted address. *)
Lemma field_email_validated (chunk e : str) :
  Field.email chunk = Some e -> validate_email (Some e) = Some e.
Proof.
  unfold Field.email.
  destruct (email_candidate Pat.email_patterns chunk) as [[c|]|]; try easy.
  intros H; destruct (validate_email_some _ _ H) as (-> & _); exact H.
Qed.

End EmailFacts.

Section LiteralFacts.

Import Re Shape.

(** A match consumes the characters the pattern needs. *)
Lemma exec_needs (r : regex) :
  forall st k res,
    exec r st k = Some res ->
    exists st' u,
      k st' = Some res /\ rest st = u ++ rest st' /\
      forall c, needs c r = true -> In c u.
Proof.
  induction r as [ | l | p | p lo hi g | | | r1 IH1 r2 IH2 | r1 IH1 r2 IH2
                 | r1 IH1 | r1 IH1 ]; intros st k res H; simpl in *.
  - exists st, []; repeat split; easy.
  - destruct (Str.startswith l (rest st)) eqn:Hs; [|discriminate].
    eexists _, l; split; [exact H|]; simpl.
    split; [now apply startswith_split|].
    intros c Hc; apply existsb_exists in Hc as (x & Hx & E).
    apply Ascii.eqb_eq in E; now subst.
  - destruct (rest st) as [|c t] eqn:Hr; [discriminate|].
    destruct (p c); [|discriminate].
    eexists _, [c]; split; [exact H|]; simpl; split; easy.
  - apply rep_inv in H as (u & t & Hs & _ & _ & Hk).
    eexists _, u; split; [exact Hk|]; simpl; split; easy.
  - destruct (pos st =? 0); [|discriminate].
    exists st, []; repeat split; easy.
  - assert (Hk : k st = Some res).
    { destruct (rest st) as [|c [|? ?]]; try easy.
      now destruct (Chr.only nl c). }
    exists st, []; repeat split; easy.
  - apply IH1 in H as (st1 & u1 & H & R1 & N1).
    apply IH2 in H as (st2 & u2 & H & R2 & N2).
    exists st2, (u1 ++ u2); split; [exact H|].
    rewrite R1, R2, app_assoc; split; [reflexivity|].
    intros c Hc; apply in_or_app.
    apply orb_prop in Hc as [Hc|Hc]; auto.
  - destruct (exec r1 st k) eqn:E1.
    + injection H as <-.
      apply IH1 in E1 as (st1 & u1 & H & R1 & N1).
      exists st1, u1; repeat split; auto.
      intros c Hc; apply andb_prop in Hc as [Hc _]; auto.
    + apply IH2 in H as (st2 & u2 & H & R2 & N2).
      exists st2, u2; repeat split; auto.
      intros c Hc; apply andb_prop in Hc as [_ Hc]; auto.
  - apply IH1 in H as (st1 & u1 & H & R1 & N1).
    eexists _, u1; split; [exact H|]; simpl; auto.
  - destruct (exec r1 st (fun st1 => Some st1)) as [st1|]; [|discriminate].
    eexists _, []; split; [exact H|]; simpl; split; easy.
Qed.

Lemma rmatch_needs (r : regex) (s : str) (m : mobj) (c : ascii) :
  rmatch r s = Some m -> needs c r = true -> In c s.
Proof.
  unfold rmatch, at_pos; intros H N.
  destruct (exec r (MState 0 s []) (fun st => Some st)) as [st|] eqn:E;
    [|discriminate].
  apply exec_needs in E as (st' & u & _ & R & Hu); simpl in R.
  rewrite R; apply in_or_app; left; now apply Hu.
Qed.

(** An address [validate_email] accepts has an at sign. *)
Lemma validate_email_at (e r : str) :
  validate_email (Some e) = Some r -> In "@"%char e.
Proof.
  intros H; apply validate_email_some in H as (_ & M & _).
  destruct (rmatch Pat.email_pattern e) as [m|] eqn:E; [|easy].
  now apply (rmatch_needs _ _ _ "@"%char E).
Qed.

Lemma local_char_not_at (g : str) :
  forallb Pat.local_char g = true -> ~ In "@"%char g.
Proof.
  intros H I; rewrite forallb_forall in H; now apply H in I.
Qed.

(** The address the third pattern leads to is never accepted: when
    neither of the first two patterns matches, the email is null. *)
Lemma third_pattern_rejected (chunk : str) :
  search (nth 0 Pat.email_patterns Eps) chunk = None ->
  search (nth 1 Pat.email_patterns Eps) chunk = None ->
  Field.email chunk = None.
Proof.
  intros H1 H2; unfold Field.email, Pat.email_patterns in *.
  cbn [nth] in H1, H2; cbn [email_candidate]; rewrite H1, H2.
  match goal with |- context [search ?r chunk] =>
    destruct (search r chunk) as [m|] eqn:E; [|reflexivity];
    apply search_groups in E; [|reflexivity] end.
  cbn in E; inversion E as [|b g bs gs [F _] T Eb Eg].
  inversion T; subst gs; unfold group; rewrite <- Eg.
  cbn [List.length Nat.ltb Nat.leb Nat.sub nth_error bind].
  match goal with |- validate_email (Some ?c) = None =>
    destruct (validate_email (Some c)) as [r|] eqn:V; [exfalso|exact V];
    apply validate_email_at in V end.
  apply (local_char_not_at g F).
  destruct (_ && _); [|exact V].
  apply in_app_or in V as [V|V]; [exact V|].
  vm_compute in V; repeat destruct V as [V|V]; try discriminate V; easy.
Qed.

(** An address the first pattern finds is extended by gmail.com when
    it does not end with it and the chunk contains it. *)
Lemma first_pattern_extended (chunk : str) (m : mobj) :
  search (nth 0 Pat.email_patterns Eps) chunk = Some m ->
  Str.endswith gmail_com (group0 m) = false ->
  Str.contains gmail_com chunk = true ->
  email_candidate Pat.email_patterns chunk
    = Ok (Some (group0 m ++ gmail_com)).
Proof.
  intros H E C; unfold Pat.email_patterns in *; cbn [nth] in H.
  cbn [email_candidate]; rewrite H.
  apply search_groups in H; [|reflexivity].
  cbn in H; inversion H.
  cbn [List.length Nat.ltb Nat.leb bind]; now rewrite E, C.
Qed.

End LiteralFacts.

(* ================================================================== *)
(** * The claims *)
(* ================================================================== *)

Section Samples.

Lemma jane_chunk_processed : process_chunk jane_chunk = Ok jane_record.
Proof. vm_compute; reflexivity. Qed.

Lemma filter_idem (A : Type) (f : A -> bool) (l : list A) :
  filter f (filter f l) = filter f l.
Proof.
  induction l as [|a l IH]; simpl; [reflexivity|].
  destruct (f a) eqn:E; simpl; rewrite ?E; congruence.
Qed.

Lemma hello_records : extract_records (lit "hello") = Ok [empty_row].
Proof. vm_compute; reflexivity. Qed.

Lemma long_chunk_raises : process_chunk long_chunk = Raise ValueError.
Proof. vm_compute; reflexivity. Qed.

Lemma long_chunk_overlong :
  ascii_text long_chunk = true /\ blank long_chunk = false /\
  overlong long_chunk = true.
Proof.
  split; [vm_compute; reflexivity|].
  split; vm_compute; reflexivity.
Qed.


(** A text none of whose lines begins with an integer and a period is
    one chunk, which is not overlong. *)
Lemma unmarked_whole (content : str) :
  has_marked_line content = false ->
  segments content = [content] /\ some_overlong [content] = false /\
  Field.number content = None /\ Field.name content = None.
Proof.
  unfold has_marked_line; intros H.
  apply orb_false_iff in H as [M N].
  split; [rewrite segments_pieces; now apply pieces_whole|].
  split; [|split].
  - unfold some_overlong, overlong; cbn [existsb]; rewrite M.
    now rewrite andb_false_r.
  - apply number_null; left; now apply number_match_none.
  - now apply name_unmarked.
Qed.

End Samples.

(** C1 (as amended): the chunk of Jane Doe gives the record with number
    1, name "Jane Doe", handle "janedoe", the URL of the profile,
    followers "10K" and the key 10000.0; its description is all the text
    between "Description: " and "Meta Description:", which includes the
    line of the counts.  The text made of this chunk alone gives this
    one record. *)
Theorem C1_jane_doe_record :
  process_chunk jane_chunk = Ok jane_record /\
  extract_records jane_chunk = Ok [jane_record] /\
  description jane_record =
    Some (lit "Lifestyle blogger" ++ nl ::
          lit "   10K Followers, 200 Following, 150 Posts").
Proof. repeat split; vm_compute; reflexivity. Qed.

(** C1, the claim as stated fails: no record of the chunk of Jane Doe
    has the description "Lifestyle blogger". *)
Lemma C1_description_is_longer :
  ~ (exists d,
       process_chunk jane_chunk = Ok d /\
       number d = Some 1%Z /\
       name d = Some (lit "Jane Doe") /\
       username d = Some (lit "janedoe") /\
       url d = Some (lit "https://instagram.com/janedoe") /\
       followers d = Some (lit "10K") /\
       follower_count_numeric d = PyFloat (Flt.of_int 10000) /\
       description d = Some (lit "Lifestyle blogger")).
Proof.
  intros (d & H & _ & _ & _ & _ & _ & _ & D).
  rewrite jane_chunk_processed in H; injection H as <-.
  vm_compute in D; discriminate.
Qed.

(** C2: the text before the first listing is a chunk, and gives a
    record.  The combined file of a search for travel India with three
    items has four chunks, the first of which is the heading of the
    file, and gives four records, one of them with every field null;
    the text "hello", none of whose lines begins with an integer and a
    period, gives one record.  So it is with every ASCII text: one none
    of whose lines begins with an integer and a period is its own
    single chunk, and gives one record without number and name unless
    it is blank; the text before the first newline that an integer and
    a period follow is the first chunk; blank chunks alone give no
    record. *)
Theorem C2_leading_text_is_a_chunk :
  (exists heading items out,
     segments travel_dump = heading :: items /\
     List.length items = 3 /\
     Str.startswith (lit "Google Search Results for 'travel India'") heading
       = true /\
     has_marked_line heading = false /\
     Field.record heading = empty_row /\
     extract_records travel_dump = Ok out /\
     List.length out = 4 /\ In empty_row out) /\
  has_marked_line (lit "hello") = false /\
  extract_records (lit "hello") = Ok [empty_row] /\
  (forall content,
     ascii_text content = true ->
     segments content = pieces [] content) /\
  (forall content,
     ascii_text content = true ->
     has_marked_line content = false ->
     segments content = [content] /\
     extract_records content =
       Ok (if blank content then [] else [Field.record content]) /\
     number (Field.record content) = None /\
     name (Field.record content) = None) /\
  (forall pre post,
     ascii_text (pre ++ nl :: post) = true ->
     marked_after_newline pre = false -> marked post = true ->
     segments (pre ++ nl :: post) = pre :: segments post) /\
  (forall results,
     forallb ascii_text results = true ->
     extract_items results =
     extract_items (filter (fun c => negb (blank c)) results)).
Proof.
  split.
  { eexists _, _, _.
    split; [vm_compute; reflexivity|].
    split; [reflexivity|].
    split; [vm_compute; reflexivity|].
    split; [vm_compute; reflexivity|].
    split; [vm_compute; reflexivity|].
    split; [vm_compute; reflexivity|].
    split; [reflexivity|].
    right; left; reflexivity. }
  split; [reflexivity|].
  split; [exact hello_records|].
  split; [intros content _; apply segments_pieces|].
  split; [|split].
  - intros content _ H.
    destruct (unmarked_whole content H) as (S & O & N1 & N2).
    split; [exact S|].
    split; [|split; [exact N1 | exact N2]].
    rewrite extract_records_short, S by (now rewrite S).
    cbn [filter]; now destruct (blank content).
  - intros pre post _ H M.
    now rewrite !segments_pieces, pieces_first.
  - intros results _; rewrite !extract_items_records.
    rewrite filter_idem.
    replace (some_overlong (filter (fun c => negb (blank c)) results))
      with (some_overlong results); [reflexivity|].
    unfold some_overlong; induction results as [|c l IH]; [reflexivity|].
    cbn [filter existsb]; destruct (blank c) eqn:B;
      cbn [negb andb orb existsb]; rewrite ?B; cbn [negb andb];
      now rewrite IH.
Qed.

Lemma C2_leading_text_is_a_chunk_witness :
  ascii_text (lit "hello") = true /\
  has_marked_line (lit "hello") = false /\
  extract_records (lit "hello") =
    Ok (if blank (lit "hello") then [] else [Field.record (lit "hello")]) /\
  ascii_text (lit "Page 1 Results:" ++ nl :: lit "1. Ann (@ann)") = true /\
  marked_after_newline (lit "Page 1 Results:") = false /\
  marked (lit "1. Ann (@ann)") = true /\
  segments (lit "Page 1 Results:" ++ nl :: lit "1. Ann (@ann)")
    = lit "Page 1 Results:" :: segments (lit "1. Ann (@ann)") /\
  forallb ascii_text [lit " "; lit "1. Ann (@ann)"] = true /\
  extract_items [lit " "; lit "1. Ann (@ann)"] =
  extract_items
    (filter (fun c => negb (blank c)) [lit " "; lit "1. Ann (@ann)"]) /\
  segments (lit "hello") = pieces [] (lit "hello").
Proof.
  destruct C2_leading_text_is_a_chunk as (_ & _ & _ & P & A & B & C).
  split; [reflexivity|].
  split; [reflexivity|].
  split; [apply (A (lit "hello")); reflexivity|].
  split; [reflexivity|].
  split; [reflexivity|].
  split; [reflexivity|].
  split; [apply (B (lit "Page 1 Results:") (lit "1. Ann (@ann)"));
          reflexivity|].
  split; [reflexivity|].
  split; [apply (C [lit " "; lit "1. Ann (@ann)"]); reflexivity|].
  apply (P (lit "hello")); reflexivity.
Defined.

(** C3: on a chunk whose snippet shows "... jane gmail.com", only the
    third pattern matches; it captures "jane", the loop hands
    "janegmail.com" to [validate_email], which rejects it (it accepts
    "jane@gmail.com"), and the email of the record is null.  So it is
    with every chunk: when neither of the first two patterns matches,
    the email is null. *)
Theorem C3_truncated_address_is_lost :
  Re.search (nth 0 Pat.email_patterns Eps) truncated_chunk = None /\
  Re.search (nth 1 Pat.email_patterns Eps) truncated_chunk = None /\
  Field.first_group (Re.search (nth 2 Pat.email_patterns Eps) truncated_chunk)
    = Some (lit "jane") /\
  Str.contains gmail_com truncated_chunk = true /\
  email_candidate Pat.email_patterns truncated_chunk
    = Ok (Some (lit "janegmail.com")) /\
  validate_email (Some (lit "janegmail.com")) = None /\
  validate_email (Some (lit "jane@gmail.com")) = Some (lit "jane@gmail.com") /\
  (exists d, process_chunk truncated_chunk = Ok d /\ email d = None) /\
  (forall chunk,
     Re.search (nth 0 Pat.email_patterns Eps) chunk = None ->
     Re.search (nth 1 Pat.email_patterns Eps) chunk = None ->
     Field.email chunk = None).
Proof.
  repeat split; try (vm_compute; reflexivity).
  - exists (Field.record truncated_chunk); split; vm_compute; reflexivity.
  - apply third_pattern_rejected.
Qed.

Lemma C3_truncated_address_is_lost_witness :
  Re.search (nth 0 Pat.email_patterns Eps) truncated_chunk = None /\
  Re.search (nth 1 Pat.email_patterns Eps) truncated_chunk = None /\
  Field.email truncated_chunk = None.
Proof.
  destruct C3_truncated_address_is_lost as (_ & _ & _ & _ & _ & _ & _ & _ & G).
  split; [reflexivity|].
  split; [reflexivity|].
  apply (G truncated_chunk); reflexivity.
Defined.

(** C4: on a chunk with "jane@yahoo.com" before a gmail address, the
    first pattern matches "jane@yahoo.com", and the loop hands
    "jane@yahoo.comgmail.com" to [validate_email], which accepts it.  So
    it is with every chunk that contains gmail.com: an address the first
    pattern finds and that does not end with gmail.com is extended by
    it. *)
Theorem C4_full_address_is_extended :
  option_map Re.group0
    (Re.search (nth 0 Pat.email_patterns Eps) two_address_chunk)
    = Some (lit "jane@yahoo.com") /\
  email_candidate Pat.email_patterns two_address_chunk
    = Ok (Some (lit "jane@yahoo.comgmail.com")) /\
  (exists d, process_chunk two_address_chunk = Ok d /\
             email d = Some (lit "jane@yahoo.comgmail.com")) /\
  (forall chunk m,
     Re.search (nth 0 Pat.email_patterns Eps) chunk = Some m ->
     Str.endswith gmail_com (Re.group0 m) = false ->
     Str.contains gmail_com chunk = true ->
     email_candidate Pat.email_patterns chunk
       = Ok (Some (Re.group0 m ++ gmail_com))).
Proof.
  repeat split; try (vm_compute; reflexivity).
  - exists (Field.record two_address_chunk); split; vm_compute; reflexivity.
  - apply first_pattern_extended.
Qed.

Lemma C4_full_address_is_extended_witness :
  Re.search (nth 0 Pat.email_patterns Eps) two_address_chunk
    = Some (Re.MObj 32 46 (lit "jane@yahoo.com") []) /\
  Str.endswith gmail_com (lit "jane@yahoo.com") = false /\
  Str.contains gmail_com two_address_chunk = true /\
  email_candidate Pat.email_patterns two_address_chunk
    = Ok (Some (lit "jane@yahoo.com" ++ gmail_com)).
Proof.
  destruct C4_full_address_is_extended as (_ & _ & _ & G).
  split; [reflexivity|].
  split; [reflexivity|].
  split; [reflexivity|].
  apply (G two_address_chunk (Re.MObj 32 46 (lit "jane@yahoo.com") []));
    reflexivity.
Defined.




Section Samples2.

Lemma ranked_text_records :
  extract_records ranked_text
  = Ok [Field.record bob_chunk; Field.record ann_chunk].
Proof. vm_compute; reflexivity. Qed.

Lemma two_millions_first (c1 c2 : str) :
  Field.followers c1 = Some (lit "2M") ->
  Field.followers c2 = Some (lit "500K") ->
  Num.ltb (Field.numeric c2) (Field.numeric c1) = true /\
  Num.ltb (Field.numeric c1) (Field.numeric c2) = false.
Proof.
  unfold Field.numeric; intros -> ->; split; vm_compute; reflexivity.
Qed.

End Samples2.

(** C6: when the extraction returns, the records come out in descending
    order of the key [follower_count_numeric]: they are the records the
    loop made, in another order, and those of one rank, the 0 of a
    chunk without counts included, keep the order of their chunks; a
    record with followers "2M" stands before every record with
    followers "500K", whichever chunk comes first. *)
Theorem C6_sorted_and_stable :
  (forall content out,
     extract_records content = Ok out ->
     exists items,
       extract_items (segments content) = Ok items /\
       Permutation items out /\
       descending out /\
       forall v, Num.is_nan v = false ->
         filter (fun d => same_rank (follower_count_numeric d) v) out =
         filter (fun d => same_rank (follower_count_numeric d) v) items) /\
  (forall content out i j a b,
     extract_records content = Ok out ->
     nth_error out i = Some a -> nth_error out j = Some b ->
     followers a = Some (lit "2M") -> followers b = Some (lit "500K") ->
     i < j /\
     Num.ltb (follower_count_numeric b) (follower_count_numeric a) = true).
Proof.
  split.
  - intros content out E.
    apply extract_records_ok in E as (_ & I & ->).
    eexists; split; [exact I|].
    split; [apply sort_desc_perm|].
    split; [apply sort_desc_sorted, records_no_nan|].
    intros v Hv; now apply sort_desc_stable.
  - intros content out i j a b E A B Fa Fb.
    apply extract_records_ok in E as (_ & _ & ->).
    set (chunks := filter (fun c => negb (blank c)) (segments content)) in *.
    pose proof (sort_desc_sorted _ (records_no_nan chunks)) as S.
    assert (R : forall k d,
              nth_error (sort_desc (map Field.record chunks)) k = Some d ->
              exists c, d = Field.record c).
    { intros k d H; apply nth_error_In in H.
      apply (Permutation_in _ (Permutation_sym (sort_desc_perm _))) in H.
      apply in_map_iff in H as (c & <- & _); now exists c. }
    destruct (R i a A) as (ca & ->), (R j b B) as (cb & ->).
    cbn [followers follower_count_numeric Field.record] in *.
    destruct (two_millions_first ca cb Fa Fb) as [L G].
    split; [|exact L].
    destruct (Nat.lt_trichotomy i j) as [H|[->|H]]; [exact H | |].
    + assert (X : Some (Field.record ca) = Some (Field.record cb))
        by (now rewrite <- A, <- B).
      apply (f_equal (option_map followers)) in X.
      cbn [option_map followers Field.record] in X.
      rewrite Fa, Fb in X; vm_compute in X; discriminate X.
    + pose proof (descending_nth _ S j i _ _ H B A) as D.
      cbn [follower_count_numeric Field.record] in D; congruence.
Qed.

Lemma C6_sorted_and_stable_witness :
  extract_records ranked_text
    = Ok [Field.record bob_chunk; Field.record ann_chunk] /\
  followers (Field.record bob_chunk) = Some (lit "2M") /\
  followers (Field.record ann_chunk) = Some (lit "500K") /\
  0 < 1 /\
  Num.is_nan (PyInt 0) = false /\
  exists items,
    extract_items (segments headed_text) = Ok items /\
    filter (fun d => same_rank (follower_count_numeric d) (PyInt 0))
      [empty_row; Field.record (lit "1. Ann (@ann)")] =
    filter (fun d => same_rank (follower_count_numeric d) (PyInt 0)) items.
Proof.
  destruct C6_sorted_and_stable as (A & B).
  split; [exact ranked_text_records|].
  split; [reflexivity|].
  split; [reflexivity|].
  split.
  { apply (B ranked_text
             [Field.record bob_chunk; Field.record ann_chunk] 0 1
             (Field.record bob_chunk) (Field.record ann_chunk));
      try reflexivity; exact ranked_text_records. }
  split; [reflexivity|].
  destruct (A headed_text [empty_row; Field.record (lit "1. Ann (@ann)")])
    as (items & E & _ & _ & S); [vm_compute; reflexivity|].
  exists items; split; [exact E|].
  apply (S (PyInt 0)); reflexivity.
Defined.

(** C7: when the extraction returns, the email of every record of the
    output is null or a string that the pattern of [validate_email]
    matches, so one with an at sign, and that contains none of
    example.com, test.com and domain.com; the address
    jane@example.com, which the pattern matches, is rejected, and the
    record of a chunk that shows it has a null email. *)
Theorem C7_email_null_or_valid :
  (forall content out,
     extract_records content = Ok out ->
     forall d, In d out ->
       email d = None \/
       exists e,
         email d = Some e /\
         Re.rmatch Pat.email_pattern e <> None /\
         In "@"%char e /\
         forall p, In p dummy_patterns -> Str.contains p e = false) /\
  Re.rmatch Pat.email_pattern (lit "jane@example.com") <> None /\
  validate_email (Some (lit "jane@example.com")) = None /\
  email_candidate Pat.email_patterns placeholder_chunk
    = Ok (Some (lit "jane@example.com")) /\
  extract_records placeholder_chunk
    = Ok [Field.record placeholder_chunk] /\
  email (Field.record placeholder_chunk) = None.
Proof.
  split.
  - intros content out E d Hd.
    apply extract_records_ok in E as (_ & _ & ->).
    apply (Permutation_in _ (Permutation_sym (sort_desc_perm _))) in Hd.
    apply in_map_iff in Hd as (c & <- & _); cbn [email Field.record].
    destruct (Field.email c) as [e|] eqn:E; [right|now left].
    apply field_email_validated in E.
    pose proof (validate_email_at _ _ E) as At.
    apply validate_email_some in E as (_ & M & D).
    eauto 6.
  - repeat split; try (vm_compute; reflexivity).
    vm_compute; discriminate.
Qed.

Lemma C7_email_null_or_valid_witness :
  extract_records (lit "1. Ann ann@gmail.com")
    = Ok [Field.record (lit "1. Ann ann@gmail.com")] /\
  In (Field.record (lit "1. Ann ann@gmail.com"))
    [Field.record (lit "1. Ann ann@gmail.com")] /\
  (email (Field.record (lit "1. Ann ann@gmail.com")) = None \/
   exists e,
     email (Field.record (lit "1. Ann ann@gmail.com")) = Some e /\
     Re.rmatch Pat.email_pattern e <> None /\
     In "@"%char e /\
     Str.contains (lit "example.com") e = false).
Proof.
  destruct C7_email_null_or_valid as (A & _).
  assert (E : extract_records (lit "1. Ann ann@gmail.com")
              = Ok [Field.record (lit "1. Ann ann@gmail.com")])
    by (vm_compute; reflexivity).
  split; [exact E|].
  split; [now left|].
  destruct (A _ _ E (Field.record (lit "1. Ann ann@gmail.com")))
    as [N | (e & E1 & E2 & E3 & E4)]; [now left | now left | right].
  exists e; repeat split; auto.
  apply E4; simpl; auto.
Defined.




(** C9: [validate_email] returns None or its argument, unchanged. *)
Theorem C9_validate_email_returns_argument :
  validate_email None = None /\
  forall e, validate_email (Some e) = None \/ validate_email (Some e) = Some e.
Proof.
  split; [reflexivity|].
  intros e; unfold validate_email.
  destruct (negb (Str.truthy e)); [now left|].
  destruct (Re.rmatch Pat.email_pattern e); [|now left].
  destruct (existsb _ dummy_patterns); [now left | now right].
Qed.




(* ================================================================== *)
(** * The matcher finds the matches of a pattern, and only them *)
(* ================================================================== *)

Section SemFacts.

Import Re Sem.

Lemma rep_sound p g (s : str) :
  forall lo hi n cs k res,
    rep p g lo hi n s cs k = Some res ->
    exists u t,
      s = u ++ t /\ forallb p u = true /\ lo <= List.length u /\
      within hi (List.length u) /\
      k (MState (n + List.length u) t cs) = Some res.
Proof.
  induction s as [|c s IH]; intros lo hi n cs k res H; simpl in H.
  - destruct (Nat.eqb_spec lo 0) as [->|]; [|discriminate].
    exists [], []; simpl; rewrite Nat.add_0_r.
    repeat split; auto; destruct hi; simpl; lia.
  - assert (Here : (if lo =? 0 then k (MState n (c :: s) cs) else None)
                   = Some res ->
                   exists u t, c :: s = u ++ t /\ forallb p u = true /\
                     lo <= List.length u /\ within hi (List.length u) /\
                     k (MState (n + List.length u) t cs) = Some res).
    { destruct (Nat.eqb_spec lo 0) as [->|]; [|discriminate].
      intros Hk; exists [], (c :: s); simpl; rewrite Nat.add_0_r.
      repeat split; auto; destruct hi; simpl; lia. }
    assert (More : rep p g (pred lo) (option_map pred hi) (S n) s cs k
                   = Some res ->
                   p c = true -> room hi = true ->
                   exists u t, c :: s = u ++ t /\ forallb p u = true /\
                     lo <= List.length u /\ within hi (List.length u) /\
                     k (MState (n + List.length u) t cs) = Some res).
    { intros Hr Hc Hroom.
      apply IH in Hr as (u & t & -> & Hu & Hlo & Hhi & Hk).
      exists (c :: u), t; simpl; rewrite Hc, Hu.
      replace (n + S (List.length u)) with (S n + List.length u) by lia.
      repeat split; auto; [lia|].
      destruct hi as [[|h]|]; simpl in *; try easy; lia. }
    destruct (p c) eqn:Hc; simpl in H; [|auto].
    destruct (room hi) eqn:Hroom; simpl in H; [|auto].
    destruct g.
    + destruct (rep p true (pred lo) (option_map pred hi) (S n) s cs k)
        eqn:Hr; [injection H as <-; auto | auto].
    + destruct (if lo =? 0 then k (MState n (c :: s) cs) else None)
        eqn:Hh; [injection H as <-; auto | auto].
Qed.

Lemma rep_complete p g (u : str) :
  forall t lo hi n cs (k : mstate -> option mstate),
    forallb p u = true -> lo <= List.length u ->
    within hi (List.length u) ->
    k (MState (n + List.length u) t cs) <> None ->
    rep p g lo hi n (u ++ t) cs k <> None.
Proof.
  induction u as [|c u IH]; intros t lo hi n cs k Hu Hlo Hhi Hk.
  - simpl in Hlo, Hk; rewrite Nat.add_0_r in Hk.
    assert (lo = 0) by lia; subst lo.
    destruct t as [|c t]; simpl; [exact Hk|].
    destruct (p c && room hi); [|exact Hk].
    destruct g.
    + now destruct (rep p true 0 (option_map pred hi) (S n) t cs k).
    + now destruct (k (MState n (c :: t) cs)).
  - simpl in Hu, Hlo, Hhi, Hk; apply andb_prop in Hu as [Hc Hu].
    assert (R : room hi = true)
      by (destruct hi as [[|h]|]; simpl in *; auto; lia).
    assert (M : rep p g (pred lo) (option_map pred hi) (S n) (u ++ t) cs k
                <> None).
    { apply IH; auto; [lia | |].
      - destruct hi as [h|]; simpl in *; [lia | exact I].
      - now replace (S n + List.length u) with (n + S (List.length u))
          by lia. }
    simpl; rewrite Hc, R; simpl.
    destruct g.
    + now destruct (rep p true (pred lo) (option_map pred hi) (S n)
                      (u ++ t) cs k).
    + destruct (if lo =? 0 then k (MState n (c :: u ++ t) cs) else None);
        [discriminate | exact M].
Qed.

(** Whatever the matcher finds is a match of the pattern. *)
Theorem exec_sound (r : regex) :
  forall st k res,
    exec r st k = Some res ->
    exists st', matches r st st' /\ k st' = Some res.
Proof.
  induction r as [ | l | p | p lo hi g | | | r1 IH1 r2 IH2 | r1 IH1 r2 IH2
                 | r1 IH1 | r1 IH1 ]; intros st k res H; simpl in *.
  - eauto.
  - destruct (Str.startswith l (rest st)) eqn:Hs; [|discriminate]; eauto.
  - destruct (rest st) as [|c t] eqn:Hr; [discriminate|].
    destruct (p c) eqn:Hc; [|discriminate]; eauto 8.
  - apply rep_sound in H as (u & t & Hs & Hu & Hlo & Hhi & Hk); eauto 10.
  - destruct (Nat.eqb_spec (pos st) 0); [|discriminate]; eauto.
  - destruct (rest st) as [|c [|? ?]] eqn:Hr; try discriminate; [eauto|].
    destruct (Chr.only nl c) eqn:Hc; [|discriminate].
    apply Ascii.eqb_eq in Hc; subst c; eauto.
  - apply IH1 in H as (st1 & M1 & H).
    apply IH2 in H as (st2 & M2 & H); eauto.
  - destruct (exec r1 st k) eqn:E1.
    + injection H as <-; apply IH1 in E1 as (st1 & M1 & H); eauto.
    + apply IH2 in H as (st2 & M2 & H); eauto.
  - apply IH1 in H as (st1 & M1 & H); eauto.
  - destruct (exec r1 st (fun st1 => Some st1)) as [st1|] eqn:E1;
      [|discriminate]; eauto.
Qed.

(** The matcher finds a match when the pattern has one after which
    the continuation succeeds. *)
Theorem exec_complete (r : regex) :
  forall st st' (k : mstate -> option mstate),
    matches r st st' -> k st' <> None -> exec r st k <> None.
Proof.
  induction r as [ | l | p | p lo hi g | | | r1 IH1 r2 IH2 | r1 IH1 r2 IH2
                 | r1 IH1 | r1 IH1 ]; intros st st' k M K; simpl in *.
  - now subst.
  - destruct M as [-> ->]; exact K.
  - destruct M as (c & t & -> & -> & ->); exact K.
  - destruct M as (u & t & -> & Hu & Hlo & Hhi & ->).
    now apply rep_complete.
  - destruct M as [-> ->]; exact K.
  - destruct M as [[-> | ->] ->]; [exact K|].
    now change (Chr.only nl nl) with true.
  - destruct M as (m & M1 & M2).
    apply (IH1 st m); [exact M1|]; now apply (IH2 m st').
  - destruct M as [M|M].
    + pose proof (IH1 st st' k M K) as E.
      now destruct (exec r1 st k).
    + destruct (exec r1 st k); [discriminate|]; now apply (IH2 st st').
  - destruct M as (m & M1 & ->); apply (IH1 st m); [exact M1 | exact K].
  - destruct M as (m & -> & ->); exact K.
Qed.

(** [re.match] succeeds exactly when the pattern has a match at the
    start of the text. *)
Lemma rmatch_matches (r : regex) (s : str) :
  rmatch r s <> None <-> exists st', matches r (MState 0 s []) st'.
Proof.
  unfold rmatch, at_pos; split.
  - destruct (exec r (MState 0 s []) (fun st => Some st)) as [st|] eqn:E;
      [|easy].
    intros _; apply exec_sound in E as (st' & M & _); eauto.
  - intros (st' & M).
    pose proof (exec_complete r _ _ (fun st => Some st) M) as E.
    destruct (exec r (MState 0 s []) (fun st => Some st)); [easy|].
    exfalso; now apply E.
Qed.

End SemFacts.

Section AddressFacts.

Import Re Sem.

Lemma matches_chars (l : str) (st st' : mstate) :
  matches (Chars l) st st' <->
  exists t, rest st = l ++ t /\
            st' = MState (pos st + List.length l) t (caps st).
Proof.
  simpl; split.
  - intros [H ->]; pose proof (startswith_split _ _ H) as E.
    exists (skipn (List.length l) (rest st)); split; [exact E | reflexivity].
  - intros (t & E & ->); rewrite E, startswith_app; split; [reflexivity|].
    now rewrite skipn_app, skipn_all, Nat.sub_diag.
Qed.

(** The matches of [[a-zA-Z0-9._%+-]+@[a-zA-Z0-9.-]+\.[a-zA-Z]{2,}]. *)
Lemma matches_address (st st' : mstate) :
  matches Pat.address st st' <->
  exists l d t tl,
    rest st = (l ++ "@"%char :: d ++ "."%char :: t) ++ tl /\
    1 <= List.length l /\ forallb Pat.local_char l = true /\
    1 <= List.length d /\ forallb Pat.domain_char d = true /\
    2 <= List.length t /\ forallb Chr.alpha t = true /\
    st' = MState
            (pos st + List.length (l ++ "@"%char :: d ++ "."%char :: t))
            tl (caps st).
Proof.
  unfold Pat.address, Pat.plus, Pat.at_least.
  cbn [matches]; split.
  - intros (m1 & (l & r1 & E1 & Fl & Ll & _ & ->) & m2 & M2 & m3 &
            (d & r3 & E3 & Fd & Ld & _ & ->) & m4 & M4 &
            (t & tl & E5 & Ft & Lt & _ & ->)).
    apply matches_chars in M2 as (r2 & E2 & ->).
    apply matches_chars in M4 as (r4 & E4 & ->).
    cbn [rest pos caps] in *; subst.
    exists l, d, t, tl; repeat split; auto.
    + rewrite E1; cbn; rewrite <- !app_assoc; cbn.
      now rewrite <- !app_assoc.
    + f_equal; rewrite !length_app; cbn; rewrite !length_app; cbn; lia.
  - intros (l & d & t & tl & E & Ll & Fl & Ld & Fd & Lt & Ft & ->).
    eexists; split.
    { exists l, ("@"%char :: d ++ "."%char :: t ++ tl).
      repeat split; eauto.
      rewrite E, <- app_assoc; cbn; now rewrite <- app_assoc. }
    eexists; split.
    { apply matches_chars; cbn [rest pos caps]; eexists; split; reflexivity. }
    eexists; split.
    { exists d, ("."%char :: t ++ tl); cbn [rest pos caps].
      repeat split; eauto. }
    eexists; split.
    { apply matches_chars; cbn [rest pos caps]; eexists; split; reflexivity. }
    exists t, tl; cbn [rest pos caps]; repeat split; auto.
    f_equal; rewrite !length_app; cbn; rewrite !length_app; cbn; lia.
Qed.

(** The pattern of [validate_email] matches the texts of the shape of
    an address, and those followed by one newline. *)
Lemma email_pattern_shape (e : str) :
  rmatch Pat.email_pattern e <> None <->
  address_shape e \/ exists e0, e = e0 ++ [nl] /\ address_shape e0.
Proof.
  rewrite rmatch_matches; unfold Pat.email_pattern; cbn [matches]; split.
  - intros (st' & m1 & [_ ->] & m2 & A & [Hend ->]).
    apply matches_address in A
      as (l & d & t & tl & E & Ll & Fl & Ld & Fd & Lt & Ft & ->).
    cbn [rest] in *.
    destruct Hend as [-> | ->].
    + left; exists l, d, t; rewrite app_nil_r in E; auto 10.
    + right; exists (l ++ "@"%char :: d ++ "."%char :: t); split; [exact E|].
      exists l, d, t; auto 10.
  - intros [(l & d & t & E & H) | (e0 & -> & l & d & t & E & H)].
    + eexists; eexists; split; [split; reflexivity|].
      eexists; split.
      * apply matches_address; exists l, d, t, []; cbn [rest].
        rewrite app_nil_r; split; [exact E|].
        destruct H as (? & ? & ? & ? & ? & ?); repeat split; eauto.
      * split; [now left | reflexivity].
    + eexists; eexists; split; [split; reflexivity|].
      eexists; split.
      * apply matches_address; exists l, d, t, [nl]; cbn [rest].
        split; [now rewrite E|].
        destruct H as (? & ? & ? & ? & ? & ?); repeat split; eauto.
      * split; [now right | reflexivity].
Qed.

Lemma address_shape_truthy (e : str) :
  rmatch Pat.email_pattern e <> None -> Str.truthy e = true.
Proof.
  intros H; apply email_pattern_shape in H.
  destruct H as [(l & d & t & -> & L & _) | (e0 & -> & _)].
  - destruct l; [simpl in L; lia | reflexivity].
  - now destruct e0.
Qed.

End AddressFacts.

(** X1: [validate_email] accepts exactly the addresses of the shape
    local@domain.tld, one newline after the address allowed, that name
    no placeholder domain in any case of letters; it returns them
    unchanged, and None for every other text. *)
Theorem X1_validate_email_accepts (e : str) :
  (validate_email (Some e) = Some e <->
   (address_shape e \/ exists e0, e = e0 ++ [nl] /\ address_shape e0) /\
   denylisted e = false) /\
  (validate_email (Some e) = None <->
   ~ (address_shape e \/ exists e0, e = e0 ++ [nl] /\ address_shape e0) \/
   denylisted e = true).
Proof.
  rewrite <- email_pattern_shape.
  pose proof (address_shape_truthy e) as T.
  unfold validate_email, denylisted in *.
  destruct (Re.rmatch Pat.email_pattern e) as [m|] eqn:M.
  - rewrite T by discriminate; cbn [negb].
    destruct (existsb _ dummy_patterns); split; split;
      try easy; try (intros [H|H]; [now contradiction H | easy]); auto.
  - destruct (negb (Str.truthy e)); split; split; try easy; auto;
      try (intros [H _]; now contradiction H).
Qed.

Section SearchFacts.

Import Re Sem.

Lemma at_pos_sound (r : regex) (n : nat) (s : str) (m : mobj) :
  at_pos r n s = Some m ->
  exists st',
    matches r (MState n s []) st' /\
    groups m = caps st' /\ m_start m = n /\ m_end m = pos st' /\
    group0 m = firstn (pos st' - n) s.
Proof.
  unfold at_pos; intros H.
  destruct (exec r (MState n s []) (fun st => Some st)) as [st|] eqn:E;
    [|discriminate].
  injection H as <-.
  apply exec_sound in E as (st' & M & E); injection E as ->.
  exists st; auto.
Qed.

Lemma search_from_sound (r : regex) (s : str) :
  forall n m,
    search_from r n s = Some m ->
    exists pre suf st',
      s = pre ++ suf /\
      matches r (MState (n + List.length pre) suf []) st' /\
      groups m = caps st'.
Proof.
  induction s as [|c s IH]; intros n m H; simpl in H.
  - destruct (at_pos r n []) eqn:E; [|discriminate].
    injection H as <-; apply at_pos_sound in E as (st' & M & G & _).
    exists [], [], st'; simpl; rewrite Nat.add_0_r; auto.
  - destruct (at_pos r n (c :: s)) eqn:E.
    + injection H as <-; apply at_pos_sound in E as (st' & M & G & _).
      exists [], (c :: s), st'; simpl; rewrite Nat.add_0_r; auto.
    + apply IH in H as (pre & suf & st' & -> & M & G).
      exists (c :: pre), suf, st'; simpl.
      now replace (n + S (List.length pre)) with (S n + List.length pre)
        by lia.
Qed.

(** What [re.search] finds is a match of the pattern at some place of
    the text. *)
Lemma search_sound (r : regex) (s : str) (m : mobj) :
  search r s = Some m ->
  exists pre suf st',
    s = pre ++ suf /\
    matches r (MState (List.length pre) suf []) st' /\
    groups m = caps st'.
Proof. intros H; now apply search_from_sound in H. Qed.

Lemma firstn_here (n : nat) (u t : str) :
  firstn (n + List.length u - n) (u ++ t) = u.
Proof.
  replace (n + List.length u - n) with (List.length u + 0) by lia.
  rewrite firstn_app_2; simpl; apply app_nil_r.
Qed.

End SearchFacts.

Section FieldFacts.

Import Re Sem.

Lemma username_found (chunk u : str) :
  Field.username chunk = Some u ->
  1 <= List.length u /\
  forallb (Chr.compl (Chr.only ")")) u = true /\
  exists pre post, chunk = pre ++ lit "(@" ++ u ++ ")"%char :: post.
Proof.
  unfold Field.username, Field.first_group.
  destruct (search Pat.username_pattern chunk) as [m|] eqn:E; [|easy].
  intros H; injection H as <-.
  apply search_sound in E as (pre & suf & st' & -> & M & ->).
  unfold Pat.username_pattern, Pat.plus in M; cbn [matches] in M.
  destruct M as (m1 & M1 & m2 & (m3 & (u & t & E & Fu & Lu & _ & ->) & ->)
                 & M3).
  apply matches_chars in M1 as (t1 & E1 & ->).
  apply matches_chars in M3 as (t3 & E3 & ->).
  cbn [rest pos caps nth app] in *; subst.
  rewrite firstn_here.
  repeat split; auto; exists pre, t3; reflexivity.
Qed.

Lemma url_found (chunk u : str) :
  Field.url chunk = Some u ->
  exists tail,
    u = lit "https://" ++ tail /\ 1 <= List.length tail /\
    forallb (Chr.compl Chr.space) u = true /\
    exists pre post, chunk = pre ++ lit "URL: " ++ u ++ post.
Proof.
  unfold Field.url, Field.first_group.
  destruct (search Pat.url_pattern chunk) as [m|] eqn:E; [|easy].
  intros H; injection H as <-.
  apply search_sound in E as (pre & suf & st' & -> & M & ->).
  unfold Pat.url_pattern, Pat.plus in M; cbn [matches] in M.
  destruct M as (m1 & M1 & m2 & (m3 & M3 & u & t & E & Fu & Lu & _ & ->)
                 & ->).
  apply matches_chars in M1 as (t1 & E1 & ->).
  apply matches_chars in M3 as (t3 & E3 & ->).
  cbn [rest pos caps nth app] in *; subst.
  replace (List.length pre + List.length (lit "URL: ") +
           List.length (lit "https://") + List.length u -
           (List.length pre + List.length (lit "URL: ")))
    with (List.length (lit "https://" ++ u) + 0)
    by (rewrite length_app; lia).
  rewrite app_assoc, firstn_app_2; cbn [firstn]; rewrite app_nil_r.
  exists u; split; [reflexivity|]; split; [exact Lu|]; split.
  - rewrite forallb_app, Fu; reflexivity.
  - exists pre, t; reflexivity.
Qed.

Lemma name_found (chunk n : str) :
  Field.name chunk = Some n ->
  Str.strip n = n /\ ~ In nl n.
Proof.
  unfold Field.name, Field.first_group.
  destruct (search Pat.name_pattern chunk) as [m|] eqn:E; [|easy].
  intros H; injection H as <-; split; [apply strip_idem|].
  apply search_groups in E; [|reflexivity].
  cbn in E; inversion E as [|b g bs gs [F _] T Eb Eg]; subst.
  cbn [nth]; intros I; apply strip_incl in I.
  rewrite forallb_forall in F; apply F in I; discriminate.
Qed.

End FieldFacts.

Section CountFacts.

Import Re Sem.

Lemma rep_opt_text (p : ascii -> bool) (u : str) :
  forallb p u = true -> List.length u <= 1 ->
  u = [] \/ exists c, u = [c] /\ p c = true.
Proof.
  destruct u as [|c [|? ?]]; simpl; intros F L; [now left | right | lia].
  exists c; now rewrite andb_true_r in F.
Qed.

(** The matches of [\d+\.?\d*[KM]?] consume a text of the shape of a
    count. *)
Lemma matches_count (st st' : mstate) :
  matches Pat.count st st' ->
  exists f t,
    rest st = f ++ t /\ count_shape f /\
    st' = MState (pos st + List.length f) t (caps st).
Proof.
  unfold Pat.count, Pat.plus, Pat.opt, Pat.star; cbn [matches].
  intros (m1 & (d1 & r1 & E1 & F1 & L1 & _ & ->) &
          m2 & (o1 & r2 & E2 & F2 & _ & H2 & ->) &
          m3 & (d2 & r3 & E3 & F3 & _ & _ & ->) &
          (o2 & r4 & E4 & F4 & _ & H4 & ->)).
  cbn [rest pos caps within] in *; subst.
  exists (d1 ++ o1 ++ d2 ++ o2), r4; split; [now rewrite <- !app_assoc|].
  split.
  - exists d1, o1, d2, o2; repeat split; auto.
    + destruct (rep_opt_text _ _ F2 H2) as [->|(c & -> & Hc)]; [now left|].
      right; apply Ascii.eqb_eq in Hc; now subst.
    + destruct (rep_opt_text _ _ F4 H4) as [->|(c & -> & Hc)]; [now left|].
      right; unfold Chr.one_of in Hc; cbn in Hc.
      rewrite orb_false_r in Hc; apply orb_prop in Hc as [Hc|Hc];
        apply Ascii.eqb_eq in Hc; subst; auto.
  - f_equal; rewrite !length_app; lia.
Qed.

Lemma matches_count_group (st st' : mstate) :
  matches (Grp Pat.count) st st' ->
  exists f t,
    rest st = f ++ t /\ count_shape f /\
    st' = MState (pos st + List.length f) t (caps st ++ [f]).
Proof.
  cbn [matches]; intros (m & M & ->).
  apply matches_count in M as (f & t & E & S & ->).
  exists f, t; cbn [pos rest caps]; rewrite E, firstn_here; auto.
Qed.

Lemma matches_spaces p lo (st st' : mstate) :
  matches (Rep p lo None true) st st' ->
  exists w t,
    rest st = w ++ t /\ forallb p w = true /\ lo <= List.length w /\
    st' = MState (pos st + List.length w) t (caps st).
Proof.
  cbn [matches]; intros (w & t & E & F & L & _ & ->); eauto 8.
Qed.

(** The three counts of a record have the shape of a count, and stand
    in the chunk before Followers, Following and Posts. *)
Lemma stats_found (chunk f g p : str) :
  Field.followers chunk = Some f ->
  Field.following chunk = Some g ->
  Field.posts chunk = Some p ->
  count_shape f /\ count_shape g /\ count_shape p /\
  exists pre w1 w2 w3 w4 w5 post,
    chunk = pre ++ f ++ w1 ++ lit "Followers," ++ w2 ++ g ++ w3 ++
            lit "Following," ++ w4 ++ p ++ w5 ++ lit "Posts" ++ post /\
    1 <= List.length w1 /\ 1 <= List.length w3 /\ 1 <= List.length w5 /\
    spaces w1 /\ spaces w2 /\ spaces w3 /\ spaces w4 /\ spaces w5.
Proof.
  unfold Field.followers, Field.following, Field.posts, Field.nth_group.
  destruct (search Pat.meta_stats_pattern chunk) as [m|] eqn:E; [|easy].
  intros H1 H2 H3; injection H1 as <-; injection H2 as <-;
    injection H3 as <-.
  apply search_sound in E as (pre & suf & st' & -> & M & ->).
  unfold Pat.meta_stats_pattern, Pat.plus, Pat.star in M.
  cbn [matches] in M.
  destruct M as (m1 & M1 & m2 & M2 & m3 & M3 & m4 & M4 & m5 & M5 &
                 m6 & M6 & m7 & M7 & m8 & M8 & m9 & M9 & m10 & M10 & M11).
  apply matches_count_group in M1 as (f & t1 & E1 & S1 & ->).
  destruct M2 as (w1 & t2 & E2 & F2 & L2 & _ & ->).
  apply matches_chars in M3 as (t3 & E3 & ->).
  destruct M4 as (w2 & t4 & E4 & F4 & _ & _ & ->).
  apply matches_count_group in M5 as (g & t5 & E5 & S5 & ->).
  destruct M6 as (w3 & t6 & E6 & F6 & L6 & _ & ->).
  apply matches_chars in M7 as (t7 & E7 & ->).
  destruct M8 as (w4 & t8 & E8 & F8 & _ & _ & ->).
  apply matches_count_group in M9 as (p & t9 & E9 & S9 & ->).
  destruct M10 as (w5 & t10 & E10 & F10 & L10 & _ & ->).
  apply matches_chars in M11 as (t11 & E11 & ->).
  cbn [rest pos caps] in *; subst.
  cbn [app nth].
  split; [exact S1|]; split; [exact S5|]; split; [exact S9|].
  exists pre, w1, w2, w3, w4, w5, t11.
  repeat split; auto.
Qed.

End CountFacts.

Section KeyShapeFacts.

Local Open Scope Z_scope.

(** Rounding keeps the sign. *)
Lemma binary_round_aux_sign prec emax s m e l :
  0 <= m ->
  match binary_round_aux prec emax s m e l with
  | S754_zero s' | S754_infinity s' | S754_finite s' _ _ => s' = s
  | S754_nan => False
  end.
Proof.
  intros H; unfold binary_round_aux.
  pose proof (shr_fexp_nonneg prec emax m e l H) as H1.
  destruct (shr_fexp prec emax m e l) as [mrs' e']; simpl in H1.
  pose proof (shr_fexp_nonneg prec emax _ e' loc_Exact
                (round_nearest_even_nonneg _ (loc_of_shr_record mrs') H1))
    as H2.
  destruct (shr_fexp prec emax _ e' loc_Exact) as [mrs'' e'']; simpl in H2.
  destruct (shr_m mrs''); [easy | | lia].
  now destruct (e'' <=? emax - prec).
Qed.

Lemma of_decimal_sign m e : positive_sign (Flt.of_decimal false m e).
Proof.
  unfold Flt.of_decimal; destruct m as [|p|p]; try exact I.
  destruct (SFdiv_core_binary _ _ _ _ _ _) as [[q e2] l] eqn:E.
  assert (Q : 0 <= q).
  { unfold SFdiv_core_binary in E.
    set (n := Z.pos p * 10 ^ Z.max 0 e) in *.
    set (d := 10 ^ Z.max 0 (- e)) in *.
    assert (Hn : 0 <= n) by (unfold n; apply Z.mul_nonneg_nonneg; [lia|];
                             apply Z.pow_nonneg; lia).
    assert (Hd : 0 < d) by (unfold d; apply Z.pow_pos_nonneg; lia).
    match type of E with
    | (let '(q, r) := Z.div_eucl ?a ?b in _) = _ =>
        assert (Ha : 0 <= a);
        [| pose proof (Z_div_mod a b ltac:(lia)) as D;
           destruct (Z.div_eucl a b) as [q' r']; injection E as <- _ _;
           nia ]
    end.
    destruct (_ - _ - _); try lia.
    rewrite Z.shiftl_mul_pow2 by lia.
    apply Z.mul_nonneg_nonneg; [lia | apply Z.pow_nonneg; lia]. }
  pose proof (binary_round_aux_sign Flt.prec Flt.emax false q e2 l Q) as S.
  unfold positive_sign.
  destruct (binary_round_aux _ _ _ _ _ _) as [[]|[]| |[] ? ?];
    try exact I; try discriminate S; try contradiction.
Qed.

Lemma mul_sign x m e :
  positive_sign x -> positive_sign (Flt.mul x (S754_finite false m e)).
Proof.
  destruct x as [[]|[]| |[] mx ex]; simpl; try easy; intros _.
  pose proof (binary_round_aux_sign Flt.prec Flt.emax false
                (Z.pos (mx * m)) (ex + e) loc_Exact ltac:(lia)) as S.
  unfold positive_sign.
  destruct (binary_round_aux _ _ _ _ _ _) as [[]|[]| |[] ? ?];
    try exact I; try discriminate S; try contradiction.
Qed.

End KeyShapeFacts.

Section CountParseFacts.

Ltac by_cases c :=
  destruct c as [[] [] [] [] [] [] [] []]; vm_compute;
  try reflexivity; try discriminate.

Lemma digit_plain c :
  Chr.digit c = true ->
  Chr.to_upper c = c /\ Chr.to_lower c = c /\ Chr.space c = false /\
  Chr.only "K" c = false /\ Chr.only "M" c = false /\
  Chr.only "_" c = false /\ Chr.only "." c = false /\
  Chr.only "-" c = false /\ Chr.only "+" c = false /\
  Ascii.eqb c "i" = false /\ Ascii.eqb c "n" = false.
Proof. by_cases c; intros; repeat split; reflexivity. Qed.

Lemma digits_more_stop (d rest acc : str) :
  forallb Chr.digit d = true -> stops rest ->
  Flt.digits_more acc (d ++ rest) = (rev d ++ acc, rest).
Proof.
  revert acc; induction d as [|c d IH]; intros acc F S;
    cbn [app rev Flt.digits_more].
  - destruct rest as [|c r]; [reflexivity|].
    destruct S as [Hd Hu]; cbn [Flt.digits_more]; now rewrite Hd, Hu.
  - cbn [forallb] in F; apply andb_prop in F as [Hc F].
    rewrite Hc, (IH _ F S), <- app_assoc; reflexivity.
Qed.

Lemma digitpart_stop (d rest : str) :
  forallb Chr.digit d = true -> 1 <= List.length d -> stops rest ->
  Flt.digitpart (d ++ rest) = Some (rev d, rest).
Proof.
  destruct d as [|c d]; cbn [forallb List.length]; intros F L S; [lia|].
  apply andb_prop in F as [Hc F].
  cbn [app Flt.digitpart rev]; rewrite Hc.
  now rewrite (digits_more_stop _ _ _ F S).
Qed.

Lemma digitpart_none (rest : str) :
  match rest with [] => True | c :: _ => Chr.digit c = false end ->
  Flt.digitpart rest = None.
Proof.
  destruct rest as [|c r]; cbn [Flt.digitpart]; [easy | now intros ->].
Qed.

End CountParseFacts.

Section CountValueFacts.

Lemma number_of_count (d1 o1 d2 : str) :
  1 <= List.length d1 -> forallb Chr.digit d1 = true ->
  (o1 = [] \/ o1 = ["."%char]) -> forallb Chr.digit d2 = true ->
  exists ip fp, Flt.number (d1 ++ o1 ++ d2) = Some (ip, fp, []).
Proof.
  intros L1 F1 [-> | ->] F2; unfold Flt.number.
  - cbn [app]; rewrite <- (app_nil_r (d1 ++ d2)).
    rewrite digitpart_stop;
      [eauto | now rewrite forallb_app, F1, F2
       | rewrite length_app; lia | exact I].
  - cbn [app]; rewrite digitpart_stop; [|auto|auto|now split].
    change (Chr.only "." ".") with true; cbn iota.
    destruct d2 as [|c d2].
    + rewrite digitpart_none by exact I; eauto.
    + rewrite <- (app_nil_r (c :: d2)).
      rewrite digitpart_stop; [eauto | auto | simpl; lia | exact I].
Qed.

Lemma count_number_plain (d1 o1 d2 : str) :
  forallb Chr.digit d1 = true ->
  (o1 = [] \/ o1 = ["."%char]) -> forallb Chr.digit d2 = true ->
  forall c, In c (d1 ++ o1 ++ d2) ->
            Chr.space c = false /\ Chr.to_lower c = c /\ Chr.to_upper c = c /\
            Chr.only "K" c = false /\ Chr.only "M" c = false.
Proof.
  intros F1 O F2 c I.
  rewrite forallb_forall in F1, F2.
  apply in_app_or in I as [I|I];
    [apply F1, digit_plain in I; tauto|].
  apply in_app_or in I as [I|I];
    [|apply F2, digit_plain in I; tauto].
  destruct O as [-> | ->]; [easy|].
  destruct I as [<-|[]]; repeat split; reflexivity.
Qed.

Lemma map_fixed (f : ascii -> ascii) (s : str) :
  (forall c, In c s -> f c = c) -> map f s = s.
Proof.
  induction s as [|c s IH]; intros H; simpl; [reflexivity|].
  rewrite H, IH; auto; [intros; apply H; now right | now left].
Qed.

(** [float] reads a number of digits, a period and digits as a float
    of positive sign. *)
Lemma of_str_count_number (d1 o1 d2 : str) :
  1 <= List.length d1 -> forallb Chr.digit d1 = true ->
  (o1 = [] \/ o1 = ["."%char]) -> forallb Chr.digit d2 = true ->
  exists x, Flt.of_str (d1 ++ o1 ++ d2) = Ok x /\ positive_sign x.
Proof.
  intros L1 F1 O F2.
  pose proof (count_number_plain d1 o1 d2 F1 O F2) as P.
  destruct (number_of_count d1 o1 d2 L1 F1 O F2) as (ip & fp & N).
  unfold Flt.of_str.
  rewrite strip_id.
  2:{ apply forallb_forall; intros c I; apply P in I as (-> & _).
      reflexivity. }
  unfold Str.lower; rewrite map_fixed by (intros c I; now apply P in I).
  destruct d1 as [|c d1]; [simpl in L1; lia|].
  cbn [forallb] in F1; apply andb_prop in F1 as [Hc F1].
  pose proof (digit_plain c Hc)
    as (_ & _ & _ & _ & _ & _ & _ & Hm & Hp & Hi & Hn).
  cbn [app Flt.sign]; rewrite Hm, Hp.
  change (lit "inf") with ("i" :: lit "nf")%char.
  change (lit "infinity") with ("i" :: lit "nfinity")%char.
  change (lit "nan") with ("n" :: lit "an")%char.
  cbn [Str.eqb]; rewrite Hi, Hn; cbn [andb orb].
  cbn [app] in N; rewrite N; cbn [Flt.exponent].
  eexists; split; [reflexivity | apply of_decimal_sign].
Qed.

Lemma has_digits (a : ascii) (d : str) :
  Chr.digit a = false -> forallb Chr.digit d = true -> Str.has a d = false.
Proof.
  intros Ha F; apply has_false; intros c I.
  rewrite forallb_forall in F; apply F in I.
  now apply digit_not_char.
Qed.

Lemma str_remove_app (a : ascii) (s t : str) :
  Str.remove a (s ++ t) = Str.remove a s ++ Str.remove a t.
Proof. apply filter_app. Qed.

(** The value of a text of the shape of a count is a float of
    positive sign: the value 0 of a parse failure is not used. *)
Lemma convert_count_shape (f : str) :
  count_shape f ->
  exists v, convert_to_numeric (Some f) = Ok v /\ plain_float v.
Proof.
  intros (d1 & o1 & d2 & o2 & -> & L1 & F1 & O1 & F2 & O2).
  pose proof (count_number_plain d1 o1 d2 F1 O1 F2) as P.
  destruct (of_str_count_number d1 o1 d2 L1 F1 O1 F2) as (x & X & S).
  set (n := d1 ++ o1 ++ d2) in *.
  assert (E : d1 ++ o1 ++ d2 ++ o2 = n ++ o2)
    by (unfold n; now rewrite <- !app_assoc).
  rewrite E.
  assert (NK : Str.has "K" n = false)
    by (apply has_false; intros c I; now apply P in I).
  assert (NM : Str.has "M" n = false)
    by (apply has_false; intros c I; now apply P in I).
  assert (U : Str.upper n = n)
    by (apply map_fixed; intros c I; now apply P in I).
  assert (T : Str.truthy (n ++ o2) = true).
  { unfold n; destruct d1; [simpl in L1; lia | reflexivity]. }
  assert (St : Str.strip (n ++ o2) = n ++ o2).
  { apply strip_id, forallb_forall; intros c I.
    apply in_app_or in I as [I|I]; [apply P in I as (-> & _); reflexivity|].
    destruct O2 as [-> | [-> | ->]]; [easy| |];
      destruct I as [<-|[]]; reflexivity. }
  unfold convert_to_numeric; rewrite T, St; cbn [negb].
  unfold Str.upper; rewrite map_app; fold (Str.upper n); rewrite U.
  rewrite !has_app, !str_remove_app, NK, NM.
  rewrite (remove_absent _ _ NK), (remove_absent _ _ NM).
  destruct O2 as [-> | [-> | ->]]; cbn; rewrite ?app_nil_r, X; cbn.
  - eexists; split; [reflexivity|]; exists x; auto.
  - eexists; split; [reflexivity|]; eexists; split; [reflexivity|].
    now apply mul_sign.
  - eexists; split; [reflexivity|]; eexists; split; [reflexivity|].
    now apply mul_sign.
Qed.

End CountValueFacts.

Section LazyFacts.

Import Re.

(** A lazy repetition stops at the first place where the rest of the
    pattern matches. *)
Lemma rep_lazy_first p (s : str) :
  forall lo hi n cs k res,
    rep p false lo hi n s cs k = Some res ->
    exists u t,
      s = u ++ t /\ forallb p u = true /\ lo <= List.length u /\
      k (MState (n + List.length u) t cs) = Some res /\
      forall u' t',
        s = u' ++ t' -> lo <= List.length u' ->
        List.length u' < List.length u ->
        k (MState (n + List.length u') t' cs) = None.
Proof.
  induction s as [|c s IH]; intros lo hi n cs k res H; simpl in H.
  - destruct (Nat.eqb_spec lo 0) as [->|]; [|discriminate].
    exists [], []; simpl; rewrite Nat.add_0_r; repeat split; auto.
    intros u' t' _ _ L; lia.
  - assert (Here : (if lo =? 0 then k (MState n (c :: s) cs) else None)
                   = Some res ->
              exists u t,
                c :: s = u ++ t /\ forallb p u = true /\
                lo <= List.length u /\
                k (MState (n + List.length u) t cs) = Some res /\
                forall u' t',
                  c :: s = u' ++ t' -> lo <= List.length u' ->
                  List.length u' < List.length u ->
                  k (MState (n + List.length u') t' cs) = None).
    { destruct (Nat.eqb_spec lo 0) as [->|]; [|discriminate].
      intros Hk; exists [], (c :: s); simpl; rewrite Nat.add_0_r.
      repeat split; auto; intros u' t' _ _ L; lia. }
    destruct (p c && room hi) eqn:Hc; [|auto].
    destruct (if lo =? 0 then k (MState n (c :: s) cs) else None) eqn:Hh.
    { injection H as <-; auto. }
    apply andb_prop in Hc as [Hc _].
    apply IH in H as (u & t & -> & Hu & Hlo & Hk & Min).
    exists (c :: u), t; simpl; rewrite Hc, Hu.
    replace (n + S (List.length u)) with (S n + List.length u) by lia.
    repeat split; auto; [lia|].
    intros u' t' E Lo Lt.
    destruct u' as [|c' u'].
    + simpl in E; subst t'; simpl; rewrite Nat.add_0_r.
      simpl in Lo; assert (lo = 0) by lia; subst lo; exact Hh.
    + simpl in E; injection E as <- E; simpl in Lo, Lt |- *.
      replace (n + S (List.length u')) with (S n + List.length u') by lia.
      apply (Min u' t' E); lia.
Qed.

Lemma ahead_exec (n : nat) (t : str) (cs : list str) :
  exec (Ahead (Alt (Chars (lit "Meta Description:")) Eol))
    (MState n t cs) (fun st => Some st) =
  if ahead_ok t then Some (MState n t cs) else None.
Proof.
  unfold ahead_ok; cbn [exec rest pos caps].
  destruct (Str.startswith (lit "Meta Description:") t); [reflexivity|].
  cbn [orb]; destruct t as [|c [|? ?]]; try reflexivity.
  now destruct (Chr.only nl c).
Qed.

Lemma description_exec (n : nat) (suf : str) :
  exec Pat.description_pattern (MState n suf []) (fun st => Some st) =
  if Str.startswith (lit "Description: ") suf then
    rep Chr.any false 0 None (n + List.length (lit "Description: "))
      (skipn (List.length (lit "Description: ")) suf) []
      (fun st1 =>
         exec (Ahead (Alt (Chars (lit "Meta Description:")) Eol))
           (MState (pos st1) (rest st1)
              (caps st1 ++
               [firstn (pos st1 - (n + List.length (lit "Description: ")))
                  (skipn (List.length (lit "Description: ")) suf)]))
           (fun st => Some st))
  else None.
Proof. reflexivity. Qed.

Lemma search_from_at (r : regex) (s : str) :
  forall n m,
    search_from r n s = Some m ->
    exists pre suf,
      s = pre ++ suf /\ at_pos r (n + List.length pre) suf = Some m.
Proof.
  induction s as [|c s IH]; intros n m H; simpl in H.
  - exists [], []; simpl; rewrite Nat.add_0_r.
    now destruct (at_pos r n []).
  - destruct (at_pos r n (c :: s)) eqn:E.
    + injection H as <-; exists [], (c :: s); simpl.
      now rewrite Nat.add_0_r.
    + apply IH in H as (pre & suf & -> & H).
      exists (c :: pre), suf; simpl.
      now replace (n + S (List.length pre)) with (S n + List.length pre)
        by lia.
Qed.

Lemma contains_split (p s : str) :
  Str.contains p s = true -> exists a b, s = a ++ p ++ b.
Proof.
  induction s as [|c s IH]; simpl; intros H.
  - rewrite orb_false_r in H; apply startswith_split in H.
    exists [], (skipn (List.length p) []); exact H.
  - apply orb_prop in H as [H|H].
    + apply startswith_split in H.
      exists [], (skipn (List.length p) (c :: s)); exact H.
    + destruct (IH H) as (a & b & ->); now exists (c :: a), b.
Qed.

(** What the description pattern captures, before it is stripped: the
    text after "Description: " up to the first place where "Meta
    Description:" or the end of the chunk follows. *)
Lemma description_raw (chunk : str) (m : mobj) :
  search Pat.description_pattern chunk = Some m ->
  exists pre g t,
    chunk = pre ++ lit "Description: " ++ g ++ t /\
    groups m = [g] /\ ahead_ok t = true /\
    forall u' t', g ++ t = u' ++ t' ->
                  List.length u' < List.length g -> ahead_ok t' = false.
Proof.
  intros H; apply search_from_at in H as (pre & suf & -> & H).
  unfold at_pos in H.
  destruct (exec Pat.description_pattern _ _) as [st|] eqn:E;
    [|discriminate].
  injection H as <-.
  rewrite description_exec in E.
  destruct (Str.startswith (lit "Description: ") suf) eqn:S;
    [|discriminate].
  apply startswith_split in S.
  set (t0 := skipn (List.length (lit "Description: ")) suf) in *.
  apply rep_lazy_first in E as (g & t & Et & _ & _ & K & Min).
  cbn [pos rest caps] in K, Min.
  rewrite ahead_exec in K.
  rewrite Et, firstn_here in K.
  destruct (ahead_ok t) eqn:A; [|discriminate].
  injection K as <-.
  exists pre, g, t; rewrite S, Et; repeat split; auto.
  intros u' t' E' L.
  rewrite <- Et in E'.
  specialize (Min u' t' E' ltac:(lia) L).
  rewrite ahead_exec in Min.
  now destruct (ahead_ok t').
Qed.

(** The description of a record has no white space around it and does
    not reach into the next "Meta Description:". *)
Lemma description_found (chunk d : str) :
  Field.description chunk = Some d ->
  Str.strip d = d /\
  Str.contains (lit "Meta Description:") d = false /\
  exists pre g post,
    chunk = pre ++ lit "Description: " ++ g ++ post /\ d = Str.strip g /\
    ahead_ok post = true.
Proof.
  unfold Field.description, Field.first_group.
  destruct (search Pat.description_pattern chunk) as [m|] eqn:E; [|easy].
  intros H; injection H as <-.
  apply description_raw in E as (pre & g & t & -> & -> & A & Min).
  cbn [nth]; split; [apply strip_idem|]; split; [|eauto 6].
  destruct (Str.contains _ (Str.strip g)) eqn:C; [exfalso|reflexivity].
  apply contains_split in C as (a & b & C).
  destruct (strip_split g) as (s1 & s2 & G & _).
  rewrite C in G.
  assert (X : ahead_ok (lit "Meta Description:" ++ b ++ s2 ++ t) = false).
  { apply (Min (s1 ++ a)).
    - rewrite G at 1; now rewrite <- !app_assoc.
    - rewrite G, !length_app; cbn; lia. }
  unfold ahead_ok in X; now rewrite startswith_app in X.
Qed.

End LazyFacts.

(* ================================================================== *)
(** * The fields of a record, read off the chunk *)
(* ================================================================== *)

Section RecordFacts.

Lemma record_of (chunk : str) (d : row) :
  process_chunk chunk = Ok d -> d = Field.record chunk.
Proof. apply process_chunk_ok. Qed.

Lemma followers_others (chunk f : str) :
  Field.followers chunk = Some f ->
  exists g p, Field.following chunk = Some g /\ Field.posts chunk = Some p.
Proof.
  unfold Field.followers, Field.following, Field.posts, Field.nth_group.
  destruct (Re.search Pat.meta_stats_pattern chunk); [eauto|easy].
Qed.

Lemma followers_shape (chunk f : str) :
  Field.followers chunk = Some f -> count_shape f.
Proof.
  intros F; destruct (followers_others chunk f F) as (g & p & G & P).
  now destruct (stats_found chunk f g p F G P).
Qed.

Lemma plain_float_key (v : pynum) :
  plain_float v ->
  Num.ltb v (PyInt 0) = false /\ Num.is_nan v = false.
Proof.
  intros (x & -> & S); unfold Num.ltb, Num.is_nan.
  destruct x as [[|]|[|]| |[|] m e]; try easy; cbn [Num.val Num.xltb].
  split; [|reflexivity].
  apply Z.ltb_ge.
  replace (0 - Z.min e 0)%Z with (- Z.min e 0)%Z by lia.
  assert (0 <= 2 ^ (e - Z.min e 0))%Z by (apply Z.pow_nonneg; lia).
  nia.
Qed.

Lemma numeric_key (chunk : str) :
  match Field.followers chunk with
  | Some f =>
      convert_to_numeric (Some f) = Ok (Field.numeric chunk) /\
      plain_float (Field.numeric chunk)
  | None => Field.numeric chunk = PyInt 0
  end.
Proof.
  unfold Field.numeric.
  destruct (Field.followers chunk) as [f|] eqn:F; [|reflexivity].
  destruct (convert_count_shape f (followers_shape chunk f F))
    as (v & -> & P).
  now split.
Qed.

Lemma descending_after (before after : list row) (d : row) :
  descending (before ++ d :: after) ->
  Forall (fun later =>
            Num.ltb (follower_count_numeric d)
              (follower_count_numeric later) = false) after.
Proof.
  unfold descending; induction before as [|x before IH]; cbn [app];
    intros S; apply StronglySorted_inv in S as [S F]; auto.
Qed.

End RecordFacts.

(** X2: the handle of a record is never empty, holds no closing
    parenthesis, and stands in the chunk between "(@" and ")". *)
Theorem X2_username_in_chunk (chunk : str) (d : row) (u : str) :
  process_chunk chunk = Ok d -> username d = Some u ->
  1 <= List.length u /\
  forallb (Chr.compl (Chr.only ")")) u = true /\
  exists pre post, chunk = pre ++ lit "(@" ++ u ++ ")"%char :: post.
Proof.
  intros P U; apply record_of in P; subst d.
  now apply username_found.
Qed.

Lemma X2_username_in_chunk_witness :
  1 <= List.length (lit "janedoe") /\
  forallb (Chr.compl (Chr.only ")")) (lit "janedoe") = true /\
  exists pre post,
    jane_chunk = pre ++ lit "(@" ++ lit "janedoe" ++ ")"%char :: post.
Proof.
  apply (X2_username_in_chunk jane_chunk jane_record (lit "janedoe"));
    vm_compute; reflexivity.
Defined.

(** X3: the URL of a record begins with https://, goes on for at least
    one character more, holds no white space, and stands in the chunk
    right after "URL: ". *)
Theorem X3_url_in_chunk (chunk : str) (d : row) (u : str) :
  process_chunk chunk = Ok d -> url d = Some u ->
  exists tail,
    u = lit "https://" ++ tail /\ 1 <= List.length tail /\
    forallb (Chr.compl Chr.space) u = true /\
    exists pre post, chunk = pre ++ lit "URL: " ++ u ++ post.
Proof.
  intros P U; apply record_of in P; subst d.
  now apply url_found.
Qed.

Lemma X3_url_in_chunk_witness :
  exists tail,
    lit "https://instagram.com/janedoe" = lit "https://" ++ tail /\
    1 <= List.length tail /\
    forallb (Chr.compl Chr.space) (lit "https://instagram.com/janedoe")
      = true /\
    exists pre post,
      jane_chunk =
      pre ++ lit "URL: " ++ lit "https://instagram.com/janedoe" ++ post.
Proof.
  apply (X3_url_in_chunk jane_chunk jane_record
           (lit "https://instagram.com/janedoe"));
    vm_compute; reflexivity.
Defined.

(** X4: for a chunk of ASCII text, the name and the description of the
    record are stripped of white space at both ends; the name is a
    piece of one line; the description follows "Description: " in the
    chunk, holds no "Meta Description:", and ends where
    "Meta Description:" begins or where the chunk ends (a last newline
    apart). *)
Theorem X4_name_and_description (chunk : str) (d : row) :
  ascii_text chunk = true ->
  process_chunk chunk = Ok d ->
  (forall n, name d = Some n -> Str.strip n = n /\ ~ In nl n) /\
  (forall t, description d = Some t ->
     Str.strip t = t /\
     Str.contains (lit "Meta Description:") t = false /\
     exists pre g post,
       chunk = pre ++ lit "Description: " ++ g ++ post /\
       t = Str.strip g /\ ahead_ok post = true).
Proof.
  intros _ P; apply record_of in P; subst d; split.
  - intros n; apply name_found.
  - intros t; apply description_found.
Qed.

Lemma X4_name_and_description_witness :
  ascii_text jane_chunk = true /\
  (forall n, name jane_record = Some n -> Str.strip n = n /\ ~ In nl n) /\
  (forall t, description jane_record = Some t ->
     Str.strip t = t /\
     Str.contains (lit "Meta Description:") t = false /\
     exists pre g post,
       jane_chunk = pre ++ lit "Description: " ++ g ++ post /\
       t = Str.strip g /\ ahead_ok post = true).
Proof.
  split; [reflexivity|].
  apply (X4_name_and_description jane_chunk jane_record);
    vm_compute; reflexivity.
Defined.

(** X5: for a chunk of ASCII text, the three counts of the record are
    there together or not at all; each is digits, an optional period,
    digits, and an optional K or M; they stand in the chunk in the
    order followers, following, posts, with the words Followers,
    Following and Posts after them. *)
Theorem X5_counts_in_chunk (chunk : str) (d : row) :
  ascii_text chunk = true ->
  process_chunk chunk = Ok d ->
  (followers d = None /\ following d = None /\ posts d = None) \/
  exists f g p,
    followers d = Some f /\ following d = Some g /\ posts d = Some p /\
    count_shape f /\ count_shape g /\ count_shape p /\
    exists pre w1 w2 w3 w4 w5 post,
      chunk = pre ++ f ++ w1 ++ lit "Followers," ++ w2 ++ g ++ w3 ++
              lit "Following," ++ w4 ++ p ++ w5 ++ lit "Posts" ++ post /\
      1 <= List.length w1 /\ 1 <= List.length w3 /\ 1 <= List.length w5 /\
      spaces w1 /\ spaces w2 /\ spaces w3 /\ spaces w4 /\ spaces w5.
Proof.
  intros _ P; apply record_of in P; subst d.
  cbn [followers following posts Field.record].
  destruct (Field.followers chunk) as [f|] eqn:F.
  - right.
    destruct (followers_others chunk f F) as (g & p & G & Q).
    exists f, g, p; rewrite G, Q.
    split; [reflexivity|]; split; [reflexivity|]; split; [reflexivity|].
    apply (stats_found chunk f g p F G Q).
  - left; revert F.
    unfold Field.followers, Field.following, Field.posts, Field.nth_group.
    now destruct (Re.search Pat.meta_stats_pattern chunk).
Qed.

Lemma X5_counts_in_chunk_witness :
  ascii_text jane_chunk = true /\
  ((followers jane_record = None /\ following jane_record = None /\
   posts jane_record = None) \/
  exists f g p,
    followers jane_record = Some f /\ following jane_record = Some g /\
    posts jane_record = Some p /\
    count_shape f /\ count_shape g /\ count_shape p /\
    exists pre w1 w2 w3 w4 w5 post,
      jane_chunk = pre ++ f ++ w1 ++ lit "Followers," ++ w2 ++ g ++ w3 ++
                   lit "Following," ++ w4 ++ p ++ w5 ++ lit "Posts" ++ post /\
      1 <= List.length w1 /\ 1 <= List.length w3 /\ 1 <= List.length w5 /\
      spaces w1 /\ spaces w2 /\ spaces w3 /\ spaces w4 /\ spaces w5).
Proof.
  split; [reflexivity|].
  apply (X5_counts_in_chunk jane_chunk jane_record);
    vm_compute; reflexivity.
Defined.

(** X6: the sort key of a record is never negative and never NaN.  When
    the record has counts, [float] accepts the followers text, so that
    the key is a float (possibly infinite) and not the fallback 0 of
    the except branch; when it has none, the key is the integer 0. *)
Theorem X6_sort_key (chunk : str) (d : row) :
  process_chunk chunk = Ok d ->
  match followers d with
  | Some f =>
      convert_to_numeric (Some f) = Ok (follower_count_numeric d) /\
      plain_float (follower_count_numeric d)
  | None => follower_count_numeric d = PyInt 0
  end /\
  Num.ltb (follower_count_numeric d) (PyInt 0) = false /\
  Num.is_nan (follower_count_numeric d) = false.
Proof.
  intros P; apply record_of in P; subst d.
  cbn [followers follower_count_numeric Field.record].
  pose proof (numeric_key chunk) as K.
  split; [exact K|].
  destruct (Field.followers chunk) as [f|].
  - now apply plain_float_key.
  - rewrite K; split; reflexivity.
Qed.

Lemma X6_sort_key_witness :
  match followers jane_record with
  | Some f =>
      convert_to_numeric (Some f) = Ok (follower_count_numeric jane_record) /\
      plain_float (follower_count_numeric jane_record)
  | None => follower_count_numeric jane_record = PyInt 0
  end /\
  Num.ltb (follower_count_numeric jane_record) (PyInt 0) = false /\
  Num.is_nan (follower_count_numeric jane_record) = false.
Proof.
  apply (X6_sort_key jane_chunk jane_record).
  vm_compute; reflexivity.
Defined.

(** X7: in the sorted output, no record with a positive key comes after
    a record without counts: the records whose counts were not found
    sink below every record with a positive followers count. *)
Theorem X7_records_without_counts_sink (content : str)
    (before after : list row) (d : row) :
  extract_records content = Ok (before ++ d :: after) ->
  followers d = None ->
  Forall (fun later =>
            Num.ltb (PyInt 0) (follower_count_numeric later) = false) after.
Proof.
  intros E F; apply extract_records_ok in E as (_ & _ & E); symmetry in E.
  pose proof (sort_desc_sorted _
                (records_no_nan
                   (filter (fun c => negb (blank c)) (segments content))))
    as S.
  assert (I : In d (map Field.record
                      (filter (fun c => negb (blank c)) (segments content)))).
  { eapply Permutation_in; [symmetry; apply sort_desc_perm|].
    rewrite E; apply in_or_app; right; now left. }
  apply in_map_iff in I as (chunk & <- & _).
  cbn [followers Field.record] in F.
  pose proof (numeric_key chunk) as K; rewrite F in K.
  rewrite E in S; apply descending_after in S.
  cbn [follower_count_numeric Field.record] in S.
  now rewrite K in S.
Qed.

Lemma X7_records_without_counts_sink_witness :
  Forall (fun later =>
            Num.ltb (PyInt 0) (follower_count_numeric later) = false)
    [Field.record (lit "2. Bob")].
Proof.
  apply (X7_records_without_counts_sink
           (lit "1. Ann" ++ nl :: lit "2. Bob") []
           [Field.record (lit "2. Bob")] (Field.record (lit "1. Ann")));
    vm_compute; reflexivity.
Defined.

(* ================================================================== *)
(** * The text written for the search results *)
(* ================================================================== *)

Section DecimalFacts.

Lemma digits_val_rev (s : str) :
  forall acc, Flt.rev_digits_val (rev s ++ acc) =
              digits_val (Flt.rev_digits_val acc) s.
Proof.
  induction s as [|c t IH]; intros acc; [reflexivity|].
  cbn [rev digits_val]; rewrite <- app_assoc; cbn [app].
  rewrite IH; cbn [Flt.rev_digits_val]; f_equal; lia.
Qed.

Lemma uint_digits (d : Decimal.uint) :
  forallb Chr.digit (lit (NilEmpty.string_of_uint d)) = true /\
  forall acc,
    digits_val (Z.of_nat acc) (lit (NilEmpty.string_of_uint d)) =
    Z.of_nat (Nat.of_uint_acc d acc).
Proof.
  induction d as [|d [F V]|d [F V]|d [F V]|d [F V]|d [F V]|d [F V]|d [F V]
                  |d [F V]|d [F V]|d [F V]];
    (split; [try reflexivity; exact F|]); intros acc;
    [reflexivity|..];
    cbn [NilEmpty.string_of_uint lit list_ascii_of_string digits_val
         Nat.of_uint_acc];
    rewrite Nat.tail_mul_spec;
    fold (lit (NilEmpty.string_of_uint d)); rewrite <- V; f_equal;
    match goal with
    | |- context [Flt.digit_val ?c] =>
        let v := eval vm_compute in (Flt.digit_val c) in
        change (Flt.digit_val c) with v
    end; lia.
Qed.

Lemma str_of_nat_digits (n : nat) :
  forallb Chr.digit (str_of_nat n) = true /\
  1 <= List.length (str_of_nat n) /\
  Flt.rev_digits_val (rev (str_of_nat n)) = Z.of_nat n.
Proof.
  unfold str_of_nat.
  pose proof (DecimalNat.Unsigned.of_to n) as E.
  unfold Nat.of_uint in E.
  destruct (uint_digits (Nat.to_uint n)) as [F V].
  specialize (V 0); rewrite E in V.
  pose proof (digits_val_rev (lit (NilEmpty.string_of_uint (Nat.to_uint n)))
                []) as R.
  rewrite app_nil_r in R; cbn [Flt.rev_digits_val] in R.
  change (Z.of_nat 0) with 0%Z in V.
  destruct (Nat.to_uint n) eqn:U;
    cbn [NilZero.string_of_uint];
    [cbn in E; subst n; repeat split; cbn; lia|..];
    (split; [exact F|]; split; [cbn; lia|]; now rewrite R).
Qed.

Lemma succ_digits (d : Decimal.uint) :
  Decimal.nb_digits d <= Decimal.nb_digits (Decimal.Little.succ d).
Proof.
  induction d; cbn [Decimal.Little.succ Decimal.nb_digits]; lia.
Qed.

Lemma to_lu_digits (k n : nat) :
  k <= n ->
  Decimal.nb_digits (DecimalNat.Unsigned.to_lu k) <=
  Decimal.nb_digits (DecimalNat.Unsigned.to_lu n).
Proof.
  induction 1 as [|n _ IH]; [lia|].
  rewrite DecimalNat.Unsigned.to_lu_succ.
  pose proof (succ_digits (DecimalNat.Unsigned.to_lu n)); lia.
Qed.

Lemma uint_length (d : Decimal.uint) :
  List.length (lit (NilEmpty.string_of_uint d)) = Decimal.nb_digits d.
Proof.
  induction d;
    cbn [NilEmpty.string_of_uint lit list_ascii_of_string List.length
         Decimal.nb_digits];
    [reflexivity|..]; fold (lit (NilEmpty.string_of_uint d)); now rewrite IHd.
Qed.

Lemma str_of_nat_length (n : nat) :
  List.length (str_of_nat n) =
  Decimal.nb_digits (DecimalNat.Unsigned.to_lu n).
Proof.
  unfold str_of_nat.
  rewrite DecimalNat.Unsigned.to_uint_alt.
  pose proof (to_lu_digits 0 n (Nat.le_0_l n)) as L.
  rewrite <- (DecimalFacts.nb_digits_rev (DecimalNat.Unsigned.to_lu n)) in *.
  destruct (Decimal.rev (DecimalNat.Unsigned.to_lu n)) eqn:R;
    [cbn in L; lia|..];
    cbn [NilZero.string_of_uint]; apply uint_length.
Qed.

(** A greater number has no fewer digits. *)
Lemma str_of_nat_longer (k n : nat) :
  k <= n -> List.length (str_of_nat k) <= List.length (str_of_nat n).
Proof. intros H; rewrite !str_of_nat_length; now apply to_lu_digits. Qed.

(** [int(str(n))] is [n], when [int] reads that many digits. *)
Lemma int_of_str_of_nat (n : nat) :
  List.length (str_of_nat n) <= max_str_digits ->
  int_of_str (str_of_nat n) = Ok (Z.of_nat n).
Proof.
  intros S; destruct (str_of_nat_digits n) as (F & L & V).
  now rewrite int_of_digits_short, V.
Qed.

End DecimalFacts.

Section WriterFacts.

Variable fetch : nat -> Api.fetched.

Lemma truthy_app (a b : str) (c : ascii) : Str.truthy (a ++ c :: b) = true.
Proof. now destruct a. Qed.

Lemma flat_lines_app (a b : list str) :
  flat_lines (a ++ b) = flat_lines a ++ flat_lines b.
Proof. apply flat_map_app. Qed.

Lemma truthy_mid (a b d : str) (c : ascii) :
  Str.truthy (a ++ (c :: b) ++ d) = true.
Proof. now destruct a. Qed.

(** The text of an item is its lines; no subscript fails. *)
Lemma item_content_lines (n : nat) (item : Api.item) :
  item_content n item = Got (flat_lines (item_lines n item)).
Proof.
  unfold item_content, item_lines, extract_instagram_data, flat_lines.
  destruct item as [title link [snippet|] [[persons metas]|]];
    cbn [Api.title Api.link Api.snippet Api.item_pagemap Api.persons
         Api.metatag_list keyed_bind].
  all: try destruct persons as [[|person others]|]; cbn [keyed_bind].
  all: try (change (lit " Followers, ") with (" "%char :: lit "Followers, ");
            rewrite truthy_mid).
  all: try destruct metas as [[|[[text|]] ?]|]; cbn [Api.og_description].
  all: cbn [flat_map app]; f_equal; rewrite <- ?app_assoc;
    cbn [app]; rewrite <- ?app_assoc; reflexivity.
Qed.

Lemma plain_app (a b : str) : plain (a ++ b) = plain a && plain b.
Proof. apply forallb_app. Qed.

Lemma plain_str_of_nat (n : nat) : plain (str_of_nat n) = true.
Proof.
  destruct (str_of_nat_digits n) as (F & _).
  eapply forallb_weaken; [|exact F].
  intros c Hc.
  now rewrite !(digit_not_char _ c) by (reflexivity || exact Hc).
Qed.

Lemma plain_get_or (v : option str) (default : string) :
  plain_opt v = true -> plain (lit default) = true ->
  plain (get_or v (lit default)) = true.
Proof. now destruct v. Qed.

Lemma marked_numbered (l : str) (k : nat) : numbered l k -> marked l = true.
Proof.
  intros (x & ->).
  destruct (str_of_nat_digits k) as (F & L & _).
  destruct (str_of_nat k) as [|c ds]; [simpl in L; lia|].
  cbn [forallb] in F; apply andb_prop in F as [Hc F].
  cbn [app marked]; rewrite Hc; cbn [andb].
  clear L Hc; induction ds as [|d ds IH]; [reflexivity|].
  cbn [forallb] in F; apply andb_prop in F as [Hd F].
  cbn [app skip_digits]; rewrite Hd; now apply IH.
Qed.

Lemma plain_true_iff (a b : str) :
  plain (a ++ b) = true <-> plain a = true /\ plain b = true.
Proof. rewrite plain_app; apply andb_true_iff. Qed.

(** The lines of an item: the first is numbered, the others are not
    marked. *)
Lemma item_lines_listing (n : nat) (item : Api.item) :
  plain_item item = true -> listing n 1 (item_lines n item).
Proof.
  unfold plain_item, item_lines, listing.
  destruct item as [title link snippet pagemap];
    cbn [Api.title Api.link Api.snippet Api.item_pagemap].
  intros H.
  apply andb_prop in H as [H Hp]; apply andb_prop in H as [H Hs];
    apply andb_prop in H as [Ht Hl].
  assert (N : numbered
                (str_of_nat n ++ lit ". " ++ get_or title (lit "No Title"))
                n) by (eexists; reflexivity).
  split.
  - repeat (apply Forall_app; split); repeat constructor.
    + rewrite !plain_app, plain_str_of_nat, plain_get_or; auto.
    + rewrite plain_app, plain_get_or; auto.
    + destruct snippet; repeat constructor.
      cbn [plain_opt] in Hs; now rewrite plain_app, Hs.
    + destruct pagemap as [[persons metas]|]; [|constructor].
      cbn [Api.persons Api.metatag_list] in *.
      apply andb_prop in Hp as [Hp Hm].
      apply Forall_app; split.
      * destruct persons as [[|person ?]|]; repeat constructor.
        apply andb_prop in Hp as [Hp H3]; apply andb_prop in Hp as [H1 H2].
        rewrite !plain_app, !plain_get_or; auto.
      * destruct metas as [[|[[text|]] ?]|]; repeat constructor.
        cbn [Api.og_description plain_opt] in Hm.
        now rewrite plain_app, Hm.
  - cbn [app filter]; rewrite (marked_numbered _ _ N).
    replace (filter marked _) with (@nil str);
      [repeat constructor; exact N|].
    symmetry; cbn [filter marked app lit list_ascii_of_string].
    destruct snippet; destruct pagemap as [[[[|? ?]|] [[|[[?|]] ?]|]]|];
      reflexivity.
Qed.

Lemma listing_app (first c1 c2 : nat) (a b : list str) :
  listing first c1 a -> listing (first + c1) c2 b ->
  listing first (c1 + c2) (a ++ b).
Proof.
  intros [Pa Na] [Pb Nb]; split; [apply Forall_app; now split|].
  rewrite filter_app, seq_app; now apply Forall2_app.
Qed.

Lemma listing_unmarked (first : nat) (a : list str) :
  Forall (fun l => plain l = true) a -> filter marked a = [] ->
  listing first 0 a.
Proof. intros P E; split; [exact P | rewrite E; constructor]. Qed.

Lemma items_content_lines (result_count : nat) (items : list Api.item) :
  forallb plain_item items = true ->
  forall i,
    exists ls,
      items_content result_count i items = Got (flat_lines ls) /\
      listing (result_count + i) (List.length items) ls.
Proof.
  induction items as [|item others IH]; intros P i.
  - exists []; split; [reflexivity|]; split; constructor.
  - cbn [forallb] in P; apply andb_prop in P as [Pi Po].
    destruct (IH Po (S i)) as (ls & E & L).
    exists (item_lines (result_count + i) item ++ ls); split.
    + cbn [items_content]; rewrite item_content_lines, E; cbn [keyed_bind].
      now rewrite flat_lines_app.
    + change (List.length (item :: others))
        with (1 + List.length others).
      apply listing_app; [now apply item_lines_listing|].
      now replace (result_count + i + 1) with (result_count + S i) by lia.
Qed.

Lemma page_content_lines (page result_count : nat) (r : Api.search_results) :
  forallb plain_item (items_of (Api.Fetched r)) = true ->
  exists ls,
    page_content page result_count r = Got (flat_lines ls) /\
    listing (result_count + 1)
      (List.length (items_of (Api.Fetched r))) ls.
Proof.
  intros P; unfold page_content, items_of in *.
  assert (H : listing (result_count + 1) 0
                [lit "Page " ++ str_of_nat page ++ lit " Results:";
                 rule; []]).
  { apply listing_unmarked; [|reflexivity].
    repeat constructor.
    rewrite !plain_app, plain_str_of_nat; reflexivity. }
  assert (E : lit "Page " ++ str_of_nat page ++ lit " Results:" ++ [nl] ++
              rule ++ [nl; nl]
              = flat_lines [lit "Page " ++ str_of_nat page ++
                            lit " Results:"; rule; []]).
  { unfold flat_lines; cbn [flat_map]; rewrite <- !app_assoc.
    reflexivity. }
  rewrite E; clear E.
  destruct (Api.items r) as [items|].
  - destruct (items_content_lines result_count items P 1) as (ls & E & L).
    eexists; rewrite E; cbn [keyed_bind]; rewrite <- flat_lines_app.
    split; [reflexivity|].
    apply (listing_app _ 0); [exact H|].
    now rewrite Nat.add_0_r.
  - exists ([lit "Page " ++ str_of_nat page ++ lit " Results:"; rule; []] ++
            [lit "No results found for this page."; []]); split.
    + now rewrite flat_lines_app.
    + apply (listing_app _ 0 0); [exact H|].
      apply listing_unmarked; [repeat constructor | reflexivity].
Qed.

Hypothesis plain_items :
  forall page, forallb plain_item (items_of (fetch page)) = true.

Lemma pages_loop_lines (remaining : nat) :
  forall page result_count,
    exists r ls,
      pages_loop fetch remaining page result_count = Got r /\
      written r = flat_lines ls /\
      result_count <= results r /\
      listing (result_count + 1) (results r - result_count) ls.
Proof.
  induction remaining as [|remaining IH]; intros page result_count.
  - exists (Run [] [] result_count), []; cbn [pages_loop written results].
    rewrite Nat.sub_diag; split; [reflexivity|]; split; [reflexivity|].
    split; [lia|]; split; constructor.
  - cbn [pages_loop].
    pose proof (plain_items page) as P.
    destruct (fetch page) as [|r] eqn:F.
    + eexists _, []; split; [reflexivity|]; cbn [written results].
      rewrite Nat.sub_diag; split; [reflexivity|].
      split; [lia|]; split; constructor.
    + destruct (page_content_lines page result_count r P)
        as (ls & -> & L); cbn [keyed_bind].
      set (c := match Api.items r with
                | Some items => result_count + List.length items
                | None => result_count
                end).
      assert (C : c = result_count +
                      List.length (items_of (Api.Fetched r)))
        by (unfold c, items_of; destruct (Api.items r);
            cbn [List.length]; lia).
      assert (Stop : exists r0 ls0,
                 Got (Run (flat_lines ls) 
                        ((if 1 <? page then [Sleep] else []) ++
                         [Get ((page - 1) * 10 + 1)]) c) = Got r0 /\
                 written r0 = flat_lines ls0 /\
                 result_count <= results r0 /\
                 listing (result_count + 1) (results r0 - result_count) ls0).
      { eexists _, ls; split; [reflexivity|]; cbn [written results].
        split; [reflexivity|]; split; [lia|].
        now replace (c - result_count)
          with (List.length (items_of (Api.Fetched r))) by lia. }
      destruct (IH (S page) c) as (r1 & ls1 & -> & W & G & L1).
      destruct (Api.queries r) as [[|]|]; try exact Stop;
        cbn [keyed_bind]; eexists _, (ls ++ ls1);
        (split; [reflexivity|]); cbn [written results];
        rewrite W, flat_lines_app;
        (split; [reflexivity|]); (split; [lia|]);
        replace (results r1 - result_count)
          with (List.length (items_of (Api.Fetched r)) + (results r1 - c))
          by lia;
        (apply listing_app; [exact L|]);
        now replace (result_count + 1 +
                     List.length (items_of (Api.Fetched r)))
          with (c + 1) by lia.
Qed.

End WriterFacts.

Section PagingFacts.

Variable fetch : nat -> Api.fetched.

Lemma items_content_total (result_count : nat) (items : list Api.item) :
  forall i, exists t, items_content result_count i items = Got t.
Proof.
  induction items as [|item others IH]; intros i; [now exists []|].
  destruct (IH (S i)) as (t & E).
  cbn [items_content]; rewrite item_content_lines, E; cbn [keyed_bind].
  eauto.
Qed.

Lemma page_content_total (page result_count : nat) (r : Api.search_results) :
  exists t, page_content page result_count r = Got t.
Proof.
  unfold page_content; destruct (Api.items r) as [items|]; [|eauto].
  destruct (items_content_total result_count items 1) as (t & ->).
  cbn [keyed_bind]; eauto.
Qed.

Lemma requests_next (page k : nat) :
  requests page (S k) =
  ((if 1 <? page then [Sleep] else []) ++ [Get ((page - 1) * 10 + 1)]) ++
  requests (S page) k.
Proof. reflexivity. Qed.

(** The loop requests the pages in a row, and stops at the first one
    that cannot be followed. *)
Lemma pages_loop_requests (remaining : nat) :
  forall page result_count,
    exists r k,
      pages_loop fetch remaining page result_count = Got r /\
      results r =
      result_count +
      list_sum (map (fun p => List.length (items_of (fetch p)))
                  (seq page k)) /\
      events r = requests page k /\ k <= remaining /\
      (forall i, S i < k -> continues (fetch (page + i)) = true) /\
      (k < remaining ->
       1 <= k /\ continues (fetch (page + k - 1)) = false).
Proof.
  induction remaining as [|remaining IH]; intros page result_count.
  - exists (Run [] [] result_count), 0; cbn [pages_loop events].
    repeat split; auto; cbn; lia.
  - cbn [pages_loop].
    assert (Stop : continues (fetch page) = false ->
              (if 1 <? page then [Sleep] else []) ++
              [Get ((page - 1) * 10 + 1)] = requests page 1 /\
              1 <= S remaining /\
              (forall i, S i < 1 ->
                         continues (fetch (page + i)) = true) /\
              (1 < S remaining ->
               1 <= 1 /\ continues (fetch (page + 1 - 1)) = false)).
    { intros C; split;
        [cbn [requests seq flat_map]; now rewrite app_nil_r|].
      split; [lia|]; split; [intros i Hi; lia|].
      intros _; split; [lia|].
      now replace (page + 1 - 1) with page by lia. }
    destruct (fetch page) as [|r] eqn:F.
    + eexists _, 1; split; [reflexivity|]; cbn [events results].
      split; [unfold list_sum; cbn [seq map fold_right]; rewrite F; cbn; lia|].
      now apply Stop.
    + destruct (page_content_total page result_count r) as (t & ->).
      cbn [keyed_bind].
      set (c := match Api.items r with
                | Some items => result_count + List.length items
                | None => result_count
                end).
      assert (C : c = result_count +
                      List.length (items_of (Api.Fetched r)))
        by (unfold c, items_of; destruct (Api.items r);
            cbn [List.length]; lia).
      destruct (IH (S page) c) as (r1 & k & -> & T & E & K & A & B).
      cbn [keyed_bind].
      destruct (Api.queries r) as [[|]|] eqn:Q.
      2:{ eexists _, 1; split; [reflexivity|]; cbn [events results].
          split; [unfold list_sum; cbn [seq map fold_right]; rewrite F, C; lia|].
          apply Stop; cbn [continues]; now rewrite Q. }
      all: eexists _, (S k); split; [reflexivity|]; cbn [events results];
        (split; [rewrite T, C; unfold list_sum; cbn [seq map fold_right];
                 rewrite F; lia|]);
        rewrite requests_next, E; split; [reflexivity|];
        (split; [lia|]); split.
      all: try (intros [|i] Hi;
                [rewrite Nat.add_0_r, F; cbn [continues]; now rewrite Q|];
                replace (page + S i) with (S page + i) by lia;
                apply A; lia).
      all: intros Hk; split; [lia|];
        destruct B as [B1 B2]; [lia|];
        now replace (page + S k - 1) with (S page + k - 1) by lia.
Qed.

End PagingFacts.

Section SegmentFacts.

Lemma plain_no_newline (l : str) : plain l = true -> ~ In nl l.
Proof.
  unfold plain; rewrite forallb_forall; intros H I.
  apply H in I; discriminate.
Qed.

Lemma pieces_line (l : str) :
  ~ In nl l ->
  forall cur T,
    pieces cur (l ++ nl :: T) =
    if marked T then (rev cur ++ l) :: pieces [] T
    else pieces (nl :: rev l ++ cur) T.
Proof.
  induction l as [|c l IH]; intros N cur T.
  - cbn [app pieces rev]; change (Chr.only nl nl) with true; cbn [andb].
    now rewrite app_nil_r.
  - assert (Hc : Chr.only nl c = false).
    { unfold Chr.only; destruct (Ascii.eqb_spec c nl) as [->|]; [|easy].
      exfalso; apply N; now left. }
    cbn [app pieces]; rewrite Hc; cbn [andb].
    rewrite IH by (intros I; apply N; now right).
    cbn [rev]; rewrite <- !app_assoc; reflexivity.
Qed.

Lemma marked_flat_lines (l : str) (ls : list str) :
  marked (flat_lines (l :: ls)) = marked l.
Proof.
  unfold flat_lines; cbn [flat_map]; rewrite <- app_assoc; cbn [app].
  apply marked_newline.
Qed.

(** The chunks of a text made of lines: a chunk begins at the first
    line, and at every later line that begins with an integer and a
    period. *)
Lemma pieces_lines (ls : list str) :
  Forall (fun l => plain l = true) ls ->
  forall l0 cur,
    plain l0 = true ->
    exists more rest,
      pieces cur (flat_lines (l0 :: ls)) = (rev cur ++ l0 ++ more) :: rest /\
      Forall2 (fun chunk l => exists more, chunk = l ++ more) rest
        (filter marked ls).
Proof.
  induction ls as [|l1 ls IH]; intros P l0 cur P0.
  - exists [nl], []; split; [|constructor].
    unfold flat_lines; cbn [flat_map]; rewrite app_nil_r.
    rewrite pieces_line by now apply plain_no_newline.
    cbn [marked pieces rev]; now rewrite rev_app_distr, rev_involutive,
      <- app_assoc.
  - inversion P as [|? ? P1 Ps]; subst.
    change (flat_lines (l0 :: l1 :: ls))
      with ((l0 ++ [nl]) ++ flat_lines (l1 :: ls)).
    rewrite <- app_assoc; cbn [app].
    rewrite pieces_line by now apply plain_no_newline.
    rewrite marked_flat_lines; cbn [filter].
    destruct (marked l1).
    + destruct (IH Ps l1 [] P1) as (more & rest & -> & R).
      exists [], ((l1 ++ more) :: rest); rewrite app_nil_r.
      split; [reflexivity|].
      constructor; [now exists more | exact R].
    + destruct (IH Ps l1 (nl :: rev l0 ++ cur) P1) as (more & rest & -> & R).
      exists (nl :: l1 ++ more), rest; split; [|exact R].
      cbn [rev]; rewrite rev_app_distr, rev_involutive, <- !app_assoc.
      reflexivity.
Qed.

Lemma universal_newlines_cons (c : ascii) (t : str) :
  Chr.only cr c = false ->
  universal_newlines (c :: t) = c :: universal_newlines t.
Proof. intros H; cbn [universal_newlines]; now rewrite H. Qed.

Lemma universal_newlines_plain (s : str) :
  forallb (fun c => negb (Chr.only cr c)) s = true ->
  universal_newlines s = s.
Proof.
  induction s as [|c t IH]; [reflexivity|].
  cbn [forallb universal_newlines]; intros H.
  apply andb_prop in H as [Hc Ht].
  apply negb_true_iff in Hc; rewrite Hc; now rewrite IH.
Qed.

Lemma flat_lines_no_cr (ls : list str) :
  Forall (fun l => plain l = true) ls ->
  forallb (fun c => negb (Chr.only cr c)) (flat_lines ls) = true.
Proof.
  induction 1 as [|l ls P _ IH]; [reflexivity|].
  unfold flat_lines; cbn [flat_map]; rewrite !forallb_app.
  fold (flat_lines ls); rewrite IH, andb_true_r; cbn [forallb].
  rewrite andb_true_r.
  eapply forallb_weaken; [|exact P].
  intros c Hc; now apply andb_prop in Hc as [_ Hc].
Qed.

End SegmentFacts.

Section NumberingFacts.

Import Re.

(** A greedy repetition without upper bound that meets a text of the
    class, ended by the end of the subject or by a character outside
    the class, takes all of it, if the continuation succeeds there. *)
Lemma rep_greedy_all (p : ascii -> bool) (u t : str) (cs : list str)
    (k : mstate -> option mstate) (r : mstate) :
  match t with c :: _ => p c = false | [] => True end ->
  forall lo n,
    forallb p u = true -> lo <= List.length u ->
    k (MState (n + List.length u) t cs) = Some r ->
    rep p true lo None n (u ++ t) cs k = Some r.
Proof.
  intros Ht; induction u as [|c u IH]; intros lo n F L K.
  - cbn [List.length] in *; assert (lo = 0) as -> by lia.
    rewrite Nat.add_0_r in K; cbn [app].
    destruct t as [|c t]; cbn [rep]; [exact K|].
    now rewrite Ht.
  - cbn [forallb] in F; apply andb_prop in F as [Hc F].
    cbn [app rep room option_map]; rewrite Hc; cbn [andb].
    rewrite (IH (pred lo) (S n)); auto.
    + cbn [List.length] in L; lia.
    + now replace (S n + List.length u) with (n + List.length (c :: u))
        by (cbn [List.length]; lia).
Qed.

(** The number of a chunk that begins with [str(k)] and a period
    is [k]. *)
Lemma number_numbered (l more : str) (k : nat) :
  List.length (str_of_nat k) <= max_str_digits ->
  numbered l k -> Field.number (l ++ more) = Some (Z.of_nat k).
Proof.
  intros S (x & ->).
  destruct (str_of_nat_digits k) as (F & L & _).
  unfold Field.number, rmatch, at_pos, Pat.number_pattern, Pat.plus.
  cbn [exec pos rest caps]; rewrite <- app_assoc; cbn [app].
  erewrite rep_greedy_all; [| reflexivity | exact F | exact L |].
  2:{ cbn [pos rest caps app].
      change (Str.startswith (lit ".") ("."%char :: x ++ more)) with true.
      cbv iota; reflexivity. }
  cbn [Field.first_group groups caps nth].
  replace (0 + List.length (str_of_nat k) - 0) with
    (0 + List.length (str_of_nat k) - 0 + 0) by lia.
  rewrite Nat.sub_0_r, Nat.add_0_l, firstn_app_2; cbn [firstn].
  now rewrite app_nil_r, int_of_str_of_nat.
Qed.

(** A chunk that begins with [str(k)] and a period is overlong when
    [k] has too many digits, and then only. *)
Lemma overlong_numbered (l more : str) (k : nat) :
  numbered l k ->
  overlong (l ++ more) = (max_str_digits <? List.length (str_of_nat k)).
Proof.
  intros (x & ->).
  destruct (str_of_nat_digits k) as (F & L & _).
  assert (D : forall u t,
            forallb Chr.digit u = true ->
            leading_digits (u ++ "."%char :: t) = u /\
            skip_digits (u ++ "."%char :: t) = "."%char :: t).
  { induction u as [|c u IH]; intros t H; [now split|].
    cbn [forallb] in H; apply andb_prop in H as [Hc H].
    cbn [app leading_digits skip_digits]; rewrite Hc.
    destruct (IH t H) as [-> ->]; now split. }
  unfold overlong; rewrite <- app_assoc; cbn [app].
  destruct (D (str_of_nat k) (x ++ more) F) as [E1 E2]; rewrite E1.
  replace (marked (str_of_nat k ++ "."%char :: x ++ more)) with true;
    [reflexivity|].
  destruct (str_of_nat k) as [|c u]; [cbn in L; lia|].
  cbn [forallb] in F; apply andb_prop in F as [Hc F].
  cbn [app marked]; rewrite Hc.
  destruct (D u (x ++ more) F) as [_ ->]; reflexivity.
Qed.

Lemma number_none (c : ascii) (t : str) :
  Chr.digit c = false -> Field.number (c :: t) = None.
Proof.
  intros Hc.
  unfold Field.number, rmatch, at_pos, Pat.number_pattern, Pat.plus.
  cbn [exec rep pos rest caps]; rewrite Hc; reflexivity.
Qed.

Lemma overlong_none (c : ascii) (t : str) :
  Chr.digit c = false -> overlong (c :: t) = false.
Proof. intros Hc; unfold overlong; cbn [marked]; now rewrite Hc. Qed.

Lemma name_none (c : ascii) (t : str) :
  Chr.digit c = false -> Field.name (c :: t) = None.
Proof.
  intros Hc.
  unfold Field.name, search, Pat.name_pattern.
  cbn [search_from]; rewrite search_from_bol.
  unfold at_pos, Pat.plus; cbn [exec rep pos rest caps Nat.eqb].
  rewrite Hc; reflexivity.
Qed.

Lemma pieces_head (s : str) :
  forall cur, exists more rest, pieces cur s = (rev cur ++ more) :: rest.
Proof.
  induction s as [|c s IH]; intros cur; cbn [pieces].
  - exists [], []; now rewrite app_nil_r.
  - destruct (Chr.only nl c && marked s).
    + exists [], (pieces [] s); now rewrite app_nil_r.
    + destruct (IH (c :: cur)) as (more & rest & ->).
      exists (c :: more), rest; cbn [rev]; now rewrite <- app_assoc.
Qed.

Lemma not_blank (c : ascii) (t : str) :
  Chr.space c = false -> negb (blank (c :: t)) = true.
Proof. intros H; rewrite blank_spec; cbn [forallb]; now rewrite H. Qed.

Lemma numbered_head (l : str) (k : nat) :
  numbered l k -> exists c t, l = c :: t /\ Chr.digit c = true.
Proof.
  intros (x & ->).
  destruct (str_of_nat_digits k) as (F & L & _).
  destruct (str_of_nat k) as [|c ds]; [simpl in L; lia|].
  cbn [forallb] in F; apply andb_prop in F as [Hc _].
  exists c, (ds ++ "."%char :: x); now split.
Qed.

(** The chunks that begin with numbered lines are not blank, and
    their records have the numbers of the lines. *)
Lemma numbered_chunks (rest : list str) (ls : list str) (ks : list nat) :
  Forall2 (fun chunk l => exists more, chunk = l ++ more) rest ls ->
  Forall2 numbered ls ks ->
  Forall (fun k => List.length (str_of_nat k) <= max_str_digits) ks ->
  filter (fun c => negb (blank c)) rest = rest /\
  some_overlong rest = false /\
  map (fun c => number (Field.record c)) rest =
  map (fun k => Some (Z.of_nat k)) ks.
Proof.
  intros R; revert ks; induction R as [|chunk l rest ls (more & ->) _ IH];
    intros ks N S; inversion N as [|? k ? ks' Nk Ns]; subst;
    [repeat split; reflexivity|].
  apply Forall_cons_iff in S as [Sk S].
  destruct (IH ks' Ns S) as (E1 & E2 & E3).
  unfold some_overlong; cbn [filter map existsb]; fold (some_overlong rest).
  change (number (Field.record (l ++ more)))
    with (Field.number (l ++ more)).
  rewrite (number_numbered l more k Sk Nk), E3, E2.
  rewrite (overlong_numbered l more k Nk).
  destruct (Nat.ltb_spec max_str_digits (List.length (str_of_nat k)));
    [lia|].
  destruct (numbered_head l k Nk) as (c & t & -> & Hc).
  cbn [app]; rewrite not_blank by now apply digit_not_space.
  rewrite E1; repeat split; reflexivity.
Qed.

(** The numbers up to [n] have no more digits than [n]. *)
Lemma seq_short (first count : nat) :
  List.length (str_of_nat (first + count - 1)) <= max_str_digits ->
  Forall (fun k => List.length (str_of_nat k) <= max_str_digits)
    (seq first count).
Proof.
  intros S; apply Forall_forall; intros k Hk; apply in_seq in Hk.
  etransitivity; [apply (str_of_nat_longer k (first + count - 1)); lia|].
  exact S.
Qed.

End NumberingFacts.

Section RunFacts.

Variable search_query : str.
Variable num_pages : nat.
Variable fetch : nat -> Api.fetched.

Lemma all_results_run :
  exists r,
    pages_loop fetch num_pages 1 0 = Got r /\
    all_results search_query num_pages fetch =
    Got (Run ((lit "Google Search Results for '" ++ search_query ++
               lit "'" ++ [nl] ++ rule ++ [nl; nl]) ++ written r)
             (events r) (results r)).
Proof.
  destruct (pages_loop_requests fetch num_pages 1 0) as (r & k & E & _).
  exists r; split; [exact E|].
  unfold all_results; now rewrite E.
Qed.

Lemma in_requests (page k s : nat) :
  In (Get s) (requests page k) <->
  exists p, page <= p < page + k /\ s = (p - 1) * 10 + 1.
Proof.
  unfold requests; rewrite in_flat_map; split.
  - intros (p & I & H); apply in_seq in I.
    exists p; split; [exact I|].
    apply in_app_or in H as [H|H].
    + destruct (1 <? p); [destruct H as [H|[]]; discriminate | destruct H].
    + destruct H as [H|[]]; now injection H.
  - intros (p & I & ->); exists p; split; [now apply in_seq|].
    apply in_or_app; right; now left.
Qed.

(** The chunks of the combined file, when its lines hold no line
    end and [int] reads the numbers of the items. *)
Lemma rows_of_the_run :
  plain search_query = true ->
  (forall page, forallb plain_item (items_of (fetch page)) = true) ->
  (forall r, all_results search_query num_pages fetch = Got r ->
             List.length (str_of_nat (results r)) <= max_str_digits) ->
  exists r items out,
    all_results search_query num_pages fetch = Got r /\
    universal_newlines (written r) = written r /\
    extract_items (segments (written r)) = Ok items /\
    map number items =
    None :: map (fun k => Some (Z.of_nat k)) (seq 1 (results r)) /\
    search_and_save_pages search_query num_pages fetch = Got (Ok out) /\
    Permutation items out.
Proof.
  intros Pq Pi Short.
  destruct (pages_loop_lines fetch Pi num_pages 1 0)
    as (r & ls & E & W & _ & L).
  assert (Sr : List.length (str_of_nat (results r)) <= max_str_digits).
  { eapply (Short (Run _ (events r) (results r))).
    unfold all_results; rewrite E; reflexivity. }
  clear Short.
  unfold search_and_save_pages, all_results; rewrite E; cbn [keyed_bind].
  set (h := lit "Google Search Results for '" ++ search_query ++ lit "'").
  assert (T : (lit "Google Search Results for '" ++ search_query ++
               lit "'" ++ [nl] ++ rule ++ [nl; nl]) ++ written r
              = flat_lines (h :: rule :: [] :: ls)).
  { rewrite W; unfold flat_lines, h; cbn [flat_map]; rewrite <- !app_assoc.
    reflexivity. }
  assert (Ph : plain h = true)
    by (unfold h; rewrite !plain_app, Pq; reflexivity).
  destruct L as [Pl Nl].
  rewrite Nat.sub_0_r in Nl; change (0 + 1) with 1 in Nl.
  assert (U : universal_newlines (flat_lines (h :: rule :: [] :: ls))
              = flat_lines (h :: rule :: [] :: ls)).
  { apply universal_newlines_plain, flat_lines_no_cr.
    repeat constructor; auto. }
  destruct (pieces_lines (rule :: [] :: ls)
              ltac:(repeat constructor; auto) h [] Ph)
    as (more & rest & S & R).
  change (filter marked (rule :: [] :: ls)) with (filter marked ls) in R.
  destruct (numbered_chunks rest _ _ R Nl) as (B & O & N).
  { apply seq_short; now replace (1 + results r - 1) with (results r) by lia. }
  assert (H0 : exists t, h ++ more = "G"%char :: t)
    by (eexists; reflexivity).
  destruct H0 as (t & H0).
  assert (I : extract_items (segments (flat_lines (h :: rule :: [] :: ls)))
              = Ok (map Field.record ((h ++ more) :: rest))).
  { rewrite segments_pieces.
    unfold str in *; rewrite S; cbn [rev app].
    rewrite extract_items_short.
    - cbn [filter]; rewrite H0 at 1; rewrite not_blank by reflexivity.
      unfold str in *; now rewrite B.
    - unfold some_overlong; cbn [existsb]; fold (some_overlong rest).
      rewrite O, H0, overlong_none by reflexivity.
      now rewrite andb_false_r. }
  eexists _, (map Field.record ((h ++ more) :: rest)), _.
  split; [reflexivity|]; cbn [written]; rewrite T, U.
  split; [reflexivity|]; split; [exact I|]; split.
  - cbn [map]; rewrite map_map, N.
    change (number (Field.record (h ++ more)))
      with (Field.number (h ++ more)).
    rewrite H0, number_none by reflexivity; reflexivity.
  - unfold extract_records; rewrite I; cbn [bind].
    split; [reflexivity | apply sort_desc_perm].
Qed.

End RunFacts.

(** X8: whatever the search API answers, [search_and_save_pages]
    writes its combined file without a failing subscript, and asks for
    the pages 1, 2, ... in a row with the start indices 1, 11, 21, ...,
    sleeping before each request but the first.  It asks for at most
    [num_pages] pages, and stops earlier exactly at the first page
    whose request fails or whose answer has queries without nextPage;
    [result_count] ends as the number of items of the pages asked
    for. *)
Theorem X8_pages_in_a_row (search_query : str) (num_pages : nat)
    (fetch : nat -> Api.fetched) :
  exists r k,
    all_results search_query num_pages fetch = Got r /\
    events r = requests 1 k /\ k <= num_pages /\
    (forall p, 1 <= p < k -> continues (fetch p) = true) /\
    (k < num_pages -> 1 <= k /\ continues (fetch k) = false) /\
    results r =
    list_sum (map (fun p => List.length (items_of (fetch p))) (seq 1 k)) /\
    (forall s, In (Get s) (events r) <->
               exists p, 1 <= p <= k /\ s = (p - 1) * 10 + 1).
Proof.
  destruct (pages_loop_requests fetch num_pages 1 0)
    as (r & k & E & T & V & K & A & B).
  eexists _, k; unfold all_results; rewrite E; cbn [keyed_bind].
  split; [reflexivity|]; cbn [events results].
  split; [exact V|]; split; [exact K|]; split.
  { intros p Hp; replace p with (1 + (p - 1)) by lia; apply A; lia. }
  split.
  { intros Hk; destruct (B Hk) as [B1 B2]; split; [exact B1|].
    now replace k with (1 + k - 1) by lia. }
  split; [exact T|].
  intros s; rewrite V, in_requests.
  split; intros (p & Hp & ->); exists p; split; auto; lia.
Qed.

(** X9: when the search query and the texts of the items hold no line
    end, and [result_count] has no more digits than [int] reads, the
    combined file is read back as it was written, and its chunks are
    the heading and one chunk for each item written: the records
    extracted, in the order of the chunks, are one record without a
    number and then the records numbered 1, 2, ... up to
    [result_count]; the rows of the CSV file are these records in
    another order. *)
Theorem X9_rows_of_the_items (search_query : str) (num_pages : nat)
    (fetch : nat -> Api.fetched) :
  plain search_query = true ->
  (forall page, forallb plain_item (items_of (fetch page)) = true) ->
  (forall r, all_results search_query num_pages fetch = Got r ->
             List.length (str_of_nat (results r)) <= max_str_digits) ->
  exists r items out,
    all_results search_query num_pages fetch = Got r /\
    universal_newlines (written r) = written r /\
    extract_items (segments (written r)) = Ok items /\
    map number items =
    None :: map (fun k => Some (Z.of_nat k)) (seq 1 (results r)) /\
    search_and_save_pages search_query num_pages fetch = Got (Ok out) /\
    Permutation items out.
Proof. apply rows_of_the_run. Qed.

Lemma X9_rows_of_the_items_witness :
  exists r items out,
    all_results (lit "travel India") 5 two_pages = Got r /\
    universal_newlines (written r) = written r /\
    extract_items (segments (written r)) = Ok items /\
    map number items =
    None :: map (fun k => Some (Z.of_nat k)) (seq 1 (results r)) /\
    search_and_save_pages (lit "travel India") 5 two_pages = Got (Ok out) /\
    Permutation items out.
Proof.
  apply (X9_rows_of_the_items (lit "travel India") 5 two_pages);
    [reflexivity | intros [|[|[|page]]]; reflexivity |].
  intros r E; vm_compute in E; injection E as <-.
  apply Nat.leb_le; vm_compute; reflexivity.
Defined.

(** X10: whatever the query and the answers are, the heading of the
    combined file is taken for a listing: [search_and_save_pages]
    raises the ValueError of [int], or its CSV file has a row without
    a number and without a name. *)
Theorem X10_heading_row (search_query : str) (num_pages : nat)
    (fetch : nat -> Api.fetched) :
  exists outcome,
    search_and_save_pages search_query num_pages fetch = Got outcome /\
    match outcome with
    | Ok out =>
        exists first, In first out /\ number first = None /\ name first = None
    | Raise e => e = ValueError
    end.
Proof.
  destruct (all_results_run search_query num_pages fetch) as (r & _ & E).
  unfold search_and_save_pages; rewrite E; cbn [keyed_bind written].
  eexists; split; [reflexivity|].
  destruct (extract_records _) as [out|e] eqn:X;
    [|now apply extract_records_error in X].
  apply extract_records_ok in X as (_ & _ & ->).
  rewrite segments_pieces.
  change ((lit "Google Search Results for '" ++ search_query ++ lit "'" ++
           [nl] ++ rule ++ [nl; nl]) ++ written r)
    with ("G"%char ::
          (lit "oogle Search Results for '" ++ search_query ++ lit "'" ++
           [nl] ++ rule ++ [nl; nl]) ++ written r).
  set (t0 := (lit "oogle Search Results for '" ++ _) ++ written r).
  rewrite universal_newlines_cons by reflexivity.
  generalize (universal_newlines t0); clear t0; intros t.
  cbn [pieces]; change (Chr.only nl "G") with false; cbn [andb].
  destruct (pieces_head t ["G"%char]) as (more & rest & ->).
  cbn [rev app filter]; rewrite not_blank by reflexivity.
  exists (Field.record ("G"%char :: more)); split.
  - eapply Permutation_in; [apply sort_desc_perm | now left].
  - split; [apply number_none | apply name_none]; reflexivity.
Qed.

(* ================================================================== *)
(** * The retries of safe_open_write *)
(* ================================================================== *)

Section RetryFacts.

Import Retry.

Variable max_retries : nat.
Variable open_path : nat -> option raised.
Variable open_alt : option raised.

Lemma tries_app (n : nat) (rest : list action) :
  Open Original :: Wait :: tries n ++ rest = tries (S n) ++ rest.
Proof. reflexivity. Qed.

(** The run of the loop from iteration [attempt] on: it stops at the
    first iteration in which [open(path)] does not raise
    PermissionError; when there is none, it opens the alternative
    file in the last iteration. *)
Lemma attempts_run (remaining : nat) :
  forall attempt,
    attempt + remaining = max_retries ->
    (exists a,
       attempt <= a < max_retries /\
       (forall j, attempt <= j < a -> open_path j = Some PermissionError) /\
       open_path a <> Some PermissionError /\
       attempts max_retries open_path open_alt remaining attempt =
       (tries (a - attempt) ++ [Open Original],
        arrival (open_path a) Original a)) \/
    (remaining = 0 /\ attempts max_retries open_path open_alt remaining attempt = ([], Returned)) \/
    (1 <= remaining /\
     (forall j, attempt <= j < max_retries -> open_path j = Some PermissionError) /\
     attempts max_retries open_path open_alt remaining attempt =
     (tries (remaining - 1) ++ [Open Original; Open Alternative],
      arrival open_alt Alternative (max_retries - 1))).
Proof.
  induction remaining as [|r IH]; intros attempt E; [right; left; auto|].
  cbn [attempts].
  destruct (open_path attempt) as [[|]|] eqn:O.
  - unfold handler.
    destruct r as [|r].
    + right; right.
      replace (attempt <? max_retries - 1) with false
        by (symmetry; apply Nat.ltb_ge; lia).
      split; [lia|]; split.
      * intros j Hj; now replace j with attempt by lia.
      * replace (max_retries - 1) with attempt by lia.
        now destruct open_alt.
    + replace (attempt <? max_retries - 1) with true
        by (symmetry; apply Nat.ltb_lt; lia).
      destruct (IH (S attempt) ltac:(lia))
        as [(a & Ha & D & N & ->) | [(H0 & _) | (_ & D & ->)]];
        [left | lia | right; right].
      * exists a; split; [lia|]; split.
        { intros j Hj; destruct (Nat.eq_dec j attempt) as [->|];
            [exact O | apply D; lia]. }
        split; [exact N|].
        unfold prepend; cbn [fst snd app].
        rewrite tries_app.
        now replace (S (a - S attempt)) with (a - attempt) by lia.
      * split; [lia|]; split.
        { intros j Hj; destruct (Nat.eq_dec j attempt) as [->|];
            [exact O | apply D; lia]. }
        unfold prepend; cbn [fst snd app].
        rewrite tries_app.
        now replace (S (S r - 1)) with (S (S r) - 1) by lia.
  - left; exists attempt; split; [lia|]; split; [intros j Hj; lia|].
    rewrite O, Nat.sub_diag; split; [discriminate | reflexivity].
  - left; exists attempt; split; [lia|]; split; [intros j Hj; lia|].
    rewrite O, Nat.sub_diag; split; [discriminate | reflexivity].
Qed.

Lemma count_app (kind : action -> bool) (a b : list action) :
  count kind (a ++ b) = count kind a + count kind b.
Proof. unfold count; now rewrite filter_app, length_app. Qed.

Lemma count_tries (n : nat) :
  count (is_open Original) (tries n) = n /\
  count (is_open Alternative) (tries n) = 0 /\
  count is_wait (tries n) = n /\
  count is_body (tries n) = 0.
Proof.
  induction n as [|n (A & B & C & D)]; [repeat split|].
  unfold count in *; cbn [tries filter is_open is_wait is_body List.length].
  rewrite A, B, C, D; repeat split.
Qed.

Lemma following_run (a : nat) :
  a < max_retries ->
  let r := handler max_retries open_alt a
             (following max_retries open_path open_alt a) in
  (exists a',
     a < a' < max_retries /\
     (forall j, a < j < a' -> open_path j = Some PermissionError) /\
     open_path a' <> Some PermissionError /\
     r = (Wait :: tries (a' - S a) ++ [Open Original],
          arrival (open_path a') Original a')) \/
  ((forall j, a < j < max_retries -> open_path j = Some PermissionError) /\
   r = ((if a <? max_retries - 1
         then Wait :: tries (max_retries - S a - 1) ++ [Open Original]
         else []) ++ [Open Alternative],
        arrival open_alt Alternative (max_retries - 1))).
Proof.
  intros Ha r; unfold r, handler, following.
  destruct (a <? max_retries - 1) eqn:T.
  - apply Nat.ltb_lt in T.
    destruct (attempts_run (max_retries - S a) (S a) ltac:(lia))
      as [(a' & Ha' & D & N & ->) | [(H0 & _) | (_ & D & ->)]];
      [left | lia | right].
    + exists a'; split; [lia|]; split; [intros j Hj; apply D; lia|].
      split; [exact N | reflexivity].
    + split; [intros j Hj; apply D; lia|].
      unfold prepend; cbn [fst snd app]; now rewrite <- app_assoc.
  - apply Nat.ltb_ge in T; right; split; [intros j Hj; lia|].
    replace (max_retries - 1) with a by lia.
    now destruct open_alt.
Qed.

Lemma arrival_not_returned (r : option raised) (f : file) (a : nat) :
  arrival r f a <> Returned.
Proof. now destruct r. Qed.

(** The first iteration in which [open(path)] does not raise
    PermissionError is unique. *)
Lemma first_open_unique (a b : nat) :
  (forall j, j < a -> open_path j = Some PermissionError) ->
  open_path a <> Some PermissionError ->
  (forall j, j < b -> open_path j = Some PermissionError) ->
  open_path b <> Some PermissionError ->
  a = b.
Proof.
  intros Da Na Db Nb.
  destruct (Nat.lt_trichotomy a b) as [L | [E | L]]; [|exact E|].
  - now contradiction Na; apply Db.
  - now contradiction Nb; apply Da.
Qed.

Variable body : file -> option raised.

(** The [with] statement, read off the outcomes of [open] and of the
    body. *)
Lemma safe_open_write_run :
  let r := safe_open_write max_retries open_path open_alt body in
  (max_retries = 0 /\ r = ([], DidNotYield)) \/
  (exists a,
     a < max_retries /\
     (forall j, j < a -> open_path j = Some PermissionError) /\
     match open_path a with
     | None =>
         match body Original with
         | None => r = (tries a ++ [Open Original; Body Original], Completed)
         | Some OtherException =>
             r = (tries a ++ [Open Original; Body Original],
                  Fails OtherException)
         | Some PermissionError =>
             exists later p,
               handler max_retries open_alt a
                 (following max_retries open_path open_alt a) = (later, p) /\
               p <> Returned /\
               r = (tries a ++ [Open Original; Body Original] ++ later,
                    match p with
                    | Raised e => Fails e
                    | _ => DidNotStop
                    end)
         end
     | Some PermissionError => False
     | Some OtherException =>
         r = (tries a ++ [Open Original], Fails OtherException)
     end) \/
  (1 <= max_retries /\
   (forall j, j < max_retries -> open_path j = Some PermissionError) /\
   r = (tries (max_retries - 1) ++ [Open Original; Open Alternative] ++
        match open_alt with
        | None => [Body Alternative]
        | Some _ => []
        end,
        match open_alt, body Alternative with
        | None, None => Completed
        | None, Some e => Fails e
        | Some e, _ => Fails e
        end)).
Proof.
  intros r; unfold r, safe_open_write.
  destruct (attempts_run max_retries 0 ltac:(lia))
    as [(a & Ha & D & N & ->) | [(H0 & ->) | (H1 & D & ->)]].
  - right; left; exists a; split; [lia|].
    split; [intros j Hj; apply D; lia|].
    rewrite Nat.sub_0_r.
    destruct (open_path a) as [[|]|] eqn:O; [easy | |];
      cbn [arrival]; [reflexivity|].
    destruct (body Original) as [[|]|] eqn:B;
      cbn [resume_next resume_throw]; rewrite <- ?app_assoc;
      try reflexivity.
    destruct (handler max_retries open_alt a
                (following max_retries open_path open_alt a))
      as [later p] eqn:H.
    assert (NR : p <> Returned).
    { pose proof (following_run a ltac:(lia)) as F; cbv zeta in F.
      rewrite H in F.
      destruct F as [(a' & _ & _ & _ & F) | (_ & F)];
        injection F as _ ->; apply arrival_not_returned. }
    exists later, p; split; [reflexivity|]; split; [exact NR|].
    rewrite <- app_assoc; cbn [app]; destruct p; easy.
  - left; split; [exact H0 | reflexivity].
  - right; right; split; [exact H1|].
    split; [intros j Hj; apply D; lia|].
    destruct open_alt as [e|]; cbn [arrival];
      [now rewrite app_nil_r|].
    unfold resume_next, resume_throw, following.
    replace (max_retries - S (max_retries - 1)) with 0 by lia.
    destruct (body Alternative) as [[|]|]; cbn [attempts];
      rewrite <- app_assoc; reflexivity.
Qed.

End RetryFacts.

(** X11: the with statement over [safe_open_write] completes in two
    cases only.  Either [open(path)] raises PermissionError in the
    iterations before some iteration [a < max_retries], succeeds in
    iteration [a], and the body finishes: the program has waited [a]
    times.  Or [open(path)] raises PermissionError in all the
    [max_retries >= 1] iterations, the file of the alternative name is
    opened in the last one, and the body finishes: the program has
    waited [max_retries - 1] times. *)
Theorem X11_safe_open_write_completes (max_retries : nat)
    (open_path : nat -> option Retry.raised) (open_alt : option Retry.raised)
    (body : Retry.file -> option Retry.raised) (acts : list Retry.action) :
  Retry.safe_open_write max_retries open_path open_alt body
  = (acts, Retry.Completed) <->
  (exists a,
     a < max_retries /\
     (forall j, j < a -> open_path j = Some Retry.PermissionError) /\
     open_path a = None /\ body Retry.Original = None /\
     acts = Retry.tries a ++
            [Retry.Open Retry.Original; Retry.Body Retry.Original]) \/
  (1 <= max_retries /\
   (forall j, j < max_retries -> open_path j = Some Retry.PermissionError) /\
   open_alt = None /\ body Retry.Alternative = None /\
   acts = Retry.tries (max_retries - 1) ++
          [Retry.Open Retry.Original; Retry.Open Retry.Alternative;
           Retry.Body Retry.Alternative]).
Proof.
  pose proof (safe_open_write_run max_retries open_path open_alt body) as R.
  cbv zeta in R; split.
  - intros E; rewrite E in R.
    destruct R as [(_ & R) | [(a & Ha & D & R) | (H1 & D & R)]];
      [discriminate | |].
    + destruct (open_path a) as [[|]|] eqn:O; [easy | discriminate |].
      destruct (body Retry.Original) as [[|]|] eqn:B.
      * destruct R as (later & p & _ & NR & R).
        injection R as _ R; destruct p; easy.
      * discriminate.
      * injection R as ->; left; exists a; auto.
    + destruct open_alt as [e|]; [discriminate|].
      destruct (body Retry.Alternative) as [e|] eqn:B; [discriminate|].
      injection R as ->; right; auto.
  - intros [(a & Ha & D & O & B & ->) | (H1 & D & O & B & ->)].
    + destruct R as [(H0 & _) | [(a' & Ha' & D' & R) | (_ & D' & _)]];
        [lia | |].
      * assert (a' = a) as ->.
        { apply (first_open_unique open_path); auto.
          - intros N; now rewrite N in R.
          - now rewrite O. }
        rewrite O, B in R; exact R.
      * rewrite D' in O by lia; discriminate.
    + destruct R as [(H0 & _) | [(a' & Ha' & _ & R) | (_ & _ & R)]];
        [lia | |].
      * rewrite D in R by lia; destruct R.
      * subst open_alt; rewrite B in R; exact R.
Qed.

Ltac counting :=
  unfold fst, snd;
  rewrite ?count_app;
  repeat match goal with
         | |- context [Retry.tries ?n] =>
             let A := fresh in
             let B := fresh in
             let C := fresh in
             let D := fresh in
             destruct (count_tries n) as (A & B & C & D);
             rewrite ?A, ?B, ?C, ?D; clear A B C D
         end;
  cbn [Retry.count filter Retry.is_open Retry.is_wait Retry.is_body
       List.length app].

Section RetryBounds.

Import Retry.

Variable max_retries : nat.
Variable open_path : nat -> option raised.
Variable open_alt : option raised.
Variable body : file -> option raised.

Lemma not_in_tries (f : file) (n : nat) : ~ In (Body f) (tries n).
Proof.
  induction n as [|n IH]; cbn [tries In]; [easy|].
  intros [I|[I|I]]; [easy | easy | auto].
Qed.

Lemma later_counts (a : nat) (later : list action) (p : progress) :
  a < max_retries ->
  handler max_retries open_alt a
    (following max_retries open_path open_alt a) = (later, p) ->
  1 <= count (is_open Original) later + count (is_open Alternative) later /\
  a + 1 + count (is_open Original) later <= max_retries /\
  count (is_open Alternative) later <= 1 /\
  a + count is_wait later <= max_retries - 1 /\
  count is_body later = 0.
Proof.
  intros Ha H.
  pose proof (following_run max_retries open_path open_alt a Ha) as F.
  cbv zeta in F; rewrite H in F.
  destruct F as [(a' & Ha' & _ & _ & F) | (_ & F)]; injection F as -> _.
  - change (Wait :: tries (a' - S a) ++ [Open Original])
      with ([Wait] ++ tries (a' - S a) ++ [Open Original]).
    counting; lia.
  - destruct (a <? max_retries - 1) eqn:T;
      [apply Nat.ltb_lt in T | apply Nat.ltb_ge in T].
    + change (Wait :: tries (max_retries - S a - 1) ++ [Open Original])
        with ([Wait] ++ tries (max_retries - S a - 1) ++ [Open Original]).
      counting; lia.
    + counting; lia.
Qed.

End RetryBounds.

Ltac body_in I :=
  repeat (apply in_app_or in I as [I|I]);
  try (now apply not_in_tries in I);
  cbn [In] in I; repeat (destruct I as [I|I]); try easy;
  try (injection I as <-).

(** X12: whatever [open] and the body do, the with statement over
    [safe_open_write] calls [open(path)] at most [max_retries] times,
    opens the file of the alternative name at most once, waits at most
    [max_retries - 1] times, and runs the body at most once.  With
    [max_retries = 0] nothing is opened and the statement ends in the
    RuntimeError of a generator that did not yield.  An exception of
    the body is never swallowed: when the body raises, the statement
    does not complete. *)
Theorem X12_safe_open_write_bounds (max_retries : nat)
    (open_path : nat -> option Retry.raised) (open_alt : option Retry.raised)
    (body : Retry.file -> option Retry.raised) :
  let r := Retry.safe_open_write max_retries open_path open_alt body in
  Retry.count (Retry.is_open Retry.Original) (fst r) <= max_retries /\
  Retry.count (Retry.is_open Retry.Alternative) (fst r) <= 1 /\
  Retry.count Retry.is_wait (fst r) <= max_retries - 1 /\
  Retry.count Retry.is_body (fst r) <= 1 /\
  (max_retries = 0 -> r = ([], Retry.DidNotYield)) /\
  (forall f, In (Retry.Body f) (fst r) -> body f <> None ->
             snd r <> Retry.Completed).
Proof.
  pose proof (safe_open_write_run max_retries open_path open_alt body) as R.
  cbv zeta in *.
  destruct R as [(H0 & ->) | [(a & Ha & D & R) | (H1 & D & ->)]].
  - cbn; repeat split; try lia; easy.
  - destruct (open_path a) as [[|]|] eqn:O; [easy | |].
    + rewrite R; split; [counting; lia|]; split; [counting; lia|].
      split; [counting; lia|]; split; [counting; lia|].
      split; [lia|]; unfold fst, snd; intros f I; body_in I.
    + destruct (body Retry.Original) as [[|]|] eqn:B.
      * destruct R as (later & p & H & NR & ->).
        destruct (later_counts max_retries open_path open_alt a later p Ha H)
          as (_ & L1 & L2 & L3 & L4).
        split; [counting; lia|]; split; [counting; lia|].
        split; [counting; lia|]; split; [counting; lia|].
        split; [lia|]; unfold fst, snd; intros _ _ _; destruct p; easy.
      * rewrite R; split; [counting; lia|]; split; [counting; lia|].
        split; [counting; lia|]; split; [counting; lia|].
        split; [lia|]; unfold fst, snd; easy.
      * rewrite R; split; [counting; lia|]; split; [counting; lia|].
        split; [counting; lia|]; split; [counting; lia|].
        split; [lia|]; unfold fst, snd; intros f I; body_in I.
        now rewrite B.
  - split; [destruct open_alt; counting; lia|].
    split; [destruct open_alt; counting; lia|].
    split; [destruct open_alt; counting; lia|].
    split; [destruct open_alt; counting; lia|].
    split; [lia|]; unfold fst, snd; intros f I.
    destruct open_alt as [e|]; [easy|].
    body_in I; intros B; destruct (body Retry.Alternative); easy.
Qed.

(** X13: a PermissionError of the body on the file first opened is not
    retried.  The generator takes it for a failure of [open]: one more
    [open] is called ([open(path)] again while iterations are left,
    else the alternative name) and the body never runs again.  The
    statement ends in RuntimeError, the generator having yielded a
    second time, or in the exception of a later [open] that failed;
    when the next [open(path)] succeeds, the file is opened a second
    time and the statement ends in RuntimeError. *)
Theorem X13_body_permission_error (max_retries : nat)
    (open_path : nat -> option Retry.raised) (open_alt : option Retry.raised)
    (body : Retry.file -> option Retry.raised) (a : nat) :
  a < max_retries ->
  (forall j, j < a -> open_path j = Some Retry.PermissionError) ->
  open_path a = None ->
  body Retry.Original = Some Retry.PermissionError ->
  let r := Retry.safe_open_write max_retries open_path open_alt body in
  Retry.count Retry.is_body (fst r) = 1 /\
  a + 2 <= Retry.count (Retry.is_open Retry.Original) (fst r) +
           Retry.count (Retry.is_open Retry.Alternative) (fst r) /\
  (snd r = Retry.DidNotStop \/
   exists e,
     snd r = Retry.Fails e /\
     ((exists a', a < a' < max_retries /\ open_path a' = Some e) \/
      open_alt = Some e)) /\
  (S a < max_retries -> open_path (S a) = None ->
   r = (Retry.tries a ++
        [Retry.Open Retry.Original; Retry.Body Retry.Original; Retry.Wait;
         Retry.Open Retry.Original],
        Retry.DidNotStop)).
Proof.
  intros Ha D O B r.
  pose proof (safe_open_write_run max_retries open_path open_alt body) as R.
  cbv zeta in R; fold r in R.
  destruct R as [(H0 & _) | [(a' & Ha' & D' & R) | (_ & D' & _)]];
    [lia | | rewrite D' in O by lia; discriminate].
  assert (a' = a) as ->.
  { apply (first_open_unique open_path); auto.
    - intros N; now rewrite N in R.
    - now rewrite O. }
  rewrite O, B in R; destruct R as (later & p & H & NR & ->).
  destruct (later_counts max_retries open_path open_alt a later p Ha H)
    as (L0 & L1 & L2 & L3 & L4).
  split; [counting; lia|]; split; [counting; lia|].
  pose proof (following_run max_retries open_path open_alt a Ha) as F.
  cbv zeta in F; rewrite H in F; unfold snd.
  split.
  - destruct F as [(b & Hb & _ & N & F) | (_ & F)]; injection F as _ ->.
    + destruct (open_path b) as [e|] eqn:O'; cbn [Retry.arrival];
        [right | now left].
      exists e; split; [reflexivity|]; left; exists b; auto.
    + destruct open_alt as [e|]; cbn [Retry.arrival]; [right | now left].
      exists e; split; [reflexivity|]; now right.
  - intros Hs Os.
    destruct F as [(b & Hb & D'' & N & F) | (D'' & _)];
      [|rewrite D'' in Os by lia; discriminate].
    assert (b = S a) as ->.
    { destruct (Nat.eq_dec b (S a)) as [E|E]; [exact E|].
      rewrite D'' in Os by lia; discriminate. }
    injection F as -> ->; rewrite Os, Nat.sub_diag; reflexivity.
Qed.

Lemma X13_body_permission_error_witness :
  Retry.safe_open_write 3 (fun _ => None) None
    (fun _ => Some Retry.PermissionError)
  = ([Retry.Open Retry.Original; Retry.Body Retry.Original; Retry.Wait;
      Retry.Open Retry.Original],
     Retry.DidNotStop).
Proof.
  refine (proj2 (proj2 (proj2
            (X13_body_permission_error 3 (fun _ => None) None
               (fun _ => Some Retry.PermissionError) 0 _ _ _ _))) _ _);
    [lia | intros j Hj; lia | reflexivity | reflexivity | lia | reflexivity].
Defined.

(* ================================================================== *)
(** * The names of the files and the configuration *)
(* ================================================================== *)

Section NameFacts.

Lemma sub_non_word_word (s : str) : forallb word (sub_non_word s) = true.
Proof.
  induction s as [|c s IH]; [reflexivity|].
  cbn [sub_non_word map forallb]; fold (sub_non_word s); rewrite IH.
  destruct (word c) eqn:W; cbn [negb]; [now rewrite W | reflexivity].
Qed.

Lemma sub_non_word_keeps (s : str) :
  forallb word s = true -> sub_non_word s = s.
Proof.
  induction s as [|c s IH]; [reflexivity|].
  cbn [sub_non_word map forallb]; fold (sub_non_word s).
  intros H; apply andb_prop in H as [W H].
  now rewrite W, IH.
Qed.

Lemma digit_word (c : ascii) : Chr.digit c = true -> word c = true.
Proof. intros H; unfold word; now rewrite H, orb_true_r. Qed.

Lemma word_name_char (s : str) :
  forallb word s = true -> forallb name_char s = true.
Proof.
  apply forallb_weaken; intros c H; unfold name_char; now rewrite H.
Qed.

Lemma int_of_str_error (s : str) (e : exn) :
  int_of_str s = Raise e -> e = ValueError.
Proof.
  unfold int_of_str.
  destruct (Flt.sign (Str.strip s)) as [neg body].
  destruct (Flt.digitpart body) as [[ds [|? ?]]|];
    try destruct (max_str_digits <? List.length ds); intros H;
    try discriminate; now injection H.
Qed.

End NameFacts.

(** X14: for a niche and a location of ASCII text, the base name of the
    files of a search is made of letters, digits and underscores only,
    when the time stamp is: every character outside this class is
    replaced by an underscore, one for one, and a text of the class is
    kept as it is.  So the combined file, the page files and the CSV
    file lie in [results_dir] and in [results_dir/csv_results], under
    names without a separator or white space. *)
Theorem X14_file_names (results_dir niche location timestamp : str)
    (page : nat) :
  ascii_text niche = true -> ascii_text location = true ->
  forallb word timestamp = true ->
  let base := base_filename niche location timestamp in
  forallb word base = true /\
  List.length (sub_non_word niche) = List.length niche /\
  (forallb word niche = true -> sub_non_word niche = niche) /\
  (exists file,
     all_results_path results_dir base = results_dir ++ "/"%char :: file /\
     forallb name_char file = true) /\
  (exists file,
     page_file_path results_dir page base = results_dir ++ "/"%char :: file /\
     forallb name_char file = true) /\
  (exists file,
     csv_filename results_dir base =
     results_dir ++ lit "/csv_results/" ++ file /\
     forallb name_char file = true).
Proof.
  intros _ _ T base.
  assert (B : forallb word base = true).
  { unfold base, base_filename.
    now rewrite !forallb_app, !sub_non_word_word, T. }
  pose proof (word_name_char base B) as N.
  split; [exact B|]; split; [apply length_map|].
  split; [apply sub_non_word_keeps|]; split; [|split].
  - exists (lit "all_results_" ++ base ++ lit ".txt"); split; [reflexivity|].
    now rewrite !forallb_app, N.
  - exists (lit "page_" ++ str_of_nat page ++ lit "_" ++ base ++ lit ".txt").
    split; [reflexivity|].
    rewrite !forallb_app, N.
    rewrite (word_name_char (str_of_nat page)); [reflexivity|].
    eapply forallb_weaken; [apply digit_word | apply str_of_nat_digits].
  - exists (base ++ lit ".csv"); split; [reflexivity|].
    now rewrite !forallb_app, N.
Qed.

Lemma X14_file_names_witness :
  ascii_text (lit "../a b") = true /\
  ascii_text (lit "New Delhi") = true /\
  forallb word (lit "20240131_120000") = true /\
  forallb word (base_filename (lit "../a b") (lit "New Delhi")
                  (lit "20240131_120000")) = true /\
  List.length (sub_non_word (lit "../a b")) = List.length (lit "../a b") /\
  (forallb word (lit "../a b") = true ->
   sub_non_word (lit "../a b") = lit "../a b") /\
  (exists file,
     all_results_path (lit "out")
       (base_filename (lit "../a b") (lit "New Delhi")
          (lit "20240131_120000"))
     = lit "out" ++ "/"%char :: file /\
     forallb name_char file = true) /\
  (exists file,
     page_file_path (lit "out") 2
       (base_filename (lit "../a b") (lit "New Delhi")
          (lit "20240131_120000"))
     = lit "out" ++ "/"%char :: file /\
     forallb name_char file = true) /\
  (exists file,
     csv_filename (lit "out")
       (base_filename (lit "../a b") (lit "New Delhi")
          (lit "20240131_120000"))
     = lit "out" ++ lit "/csv_results/" ++ file /\
     forallb name_char file = true).
Proof.
  split; [reflexivity|]; split; [reflexivity|]; split; [reflexivity|].
  apply (X14_file_names (lit "out") (lit "../a b") (lit "New Delhi")
           (lit "20240131_120000") 2); reflexivity.
Defined.

(** X15: [load_config] raises ValueError and nothing else.  It returns
    a configuration exactly when GOOGLE_API_KEY and
    GOOGLE_SEARCH_ENGINE_ID are both set, to any text, empty or not,
    and MAX_PAGES is unset or a text that [int] accepts; then
    [max_pages] is that integer, 10 when MAX_PAGES is unset, and
    [results_dir] is RESULTS_DIR, or google_search_results when that
    is unset. *)
Theorem X15_load_config (getenv : string -> option str) :
  (forall e, load_config getenv = Raise e -> e = ValueError) /\
  (forall c,
     load_config getenv = Ok c <->
     getenv "GOOGLE_API_KEY"%string = Some (api_key c) /\
     getenv "GOOGLE_SEARCH_ENGINE_ID"%string = Some (search_engine_id c) /\
     results_dir c =
     get_or (getenv "RESULTS_DIR"%string) (lit "google_search_results") /\
     int_of_str (get_or (getenv "MAX_PAGES"%string) (lit "10"))
     = Ok (max_pages c)) /\
  (getenv "MAX_PAGES"%string = None ->
   forall c, load_config getenv = Ok c -> max_pages c = 10%Z).
Proof.
  unfold load_config.
  destruct (int_of_str (get_or (getenv "MAX_PAGES"%string) (lit "10")))
    as [n|e'] eqn:I; cbn [bind].
  - split; [|split].
    + intros e H.
      destruct (getenv "GOOGLE_API_KEY"%string),
               (getenv "GOOGLE_SEARCH_ENGINE_ID"%string);
        try discriminate; now injection H.
    + intros [k s d m]; cbn [api_key search_engine_id results_dir max_pages].
      destruct (getenv "GOOGLE_API_KEY"%string) as [k'|],
               (getenv "GOOGLE_SEARCH_ENGINE_ID"%string) as [s'|];
        split; try discriminate; try (intros (A & B & C & D); discriminate).
      * intros H; injection H as -> -> <- ->; auto.
      * intros (A & B & -> & D); injection A as ->; injection B as ->.
        now injection D as ->.
    + intros M c H; rewrite M in I.
      assert (n = 10%Z) as -> by (vm_compute in I; now injection I).
      destruct (getenv "GOOGLE_API_KEY"%string),
               (getenv "GOOGLE_SEARCH_ENGINE_ID"%string);
        try discriminate; now injection H as <-.
  - split; [|split].
    + intros e H; injection H as <-; now apply int_of_str_error in I.
    + intros c; split; [discriminate | intros (_ & _ & _ & D); discriminate].
    + discriminate.
Qed.

(* ================================================================== *)
(** * From the items of the search to the rows *)
(* ================================================================== *)

Section FirstMatchFacts.

Import Re.

(** A lazy repetition takes the shortest text after which the rest of
    the pattern matches. *)
Lemma rep_lazy_at (p : ascii -> bool) (t : str) (cs : list str)
    (k : mstate -> option mstate) (r : mstate) (u : str) :
  forall lo n,
    forallb p u = true -> lo <= List.length u ->
    k (MState (n + List.length u) t cs) = Some r ->
    (forall u' t',
       u ++ t = u' ++ t' -> lo <= List.length u' ->
       List.length u' < List.length u ->
       k (MState (n + List.length u') t' cs) = None) ->
    rep p false lo None n (u ++ t) cs k = Some r.
Proof.
  induction u as [|c u IH]; intros lo n F L K Min.
  - cbn [List.length] in *; assert (lo = 0) as -> by lia.
    rewrite Nat.add_0_r in K; cbn [app].
    destruct t as [|c t]; cbn [rep Nat.eqb]; [exact K|].
    rewrite K; now destruct (p c && room None).
  - cbn [forallb] in F; apply andb_prop in F as [Hc F].
    cbn [app rep room option_map]; rewrite Hc; cbn [andb].
    assert (H0 : (if lo =? 0 then k (MState n (c :: u ++ t) cs) else None)
                 = None).
    { destruct (Nat.eqb_spec lo 0) as [->|]; [|reflexivity].
      rewrite <- (Nat.add_0_r n).
      apply (Min [] (c :: u ++ t)); cbn [List.length]; [reflexivity|lia..]. }
    rewrite H0; apply IH; auto.
    + cbn [List.length] in L; lia.
    + now replace (S n + List.length u) with (n + List.length (c :: u))
        by (cbn [List.length]; lia).
    + intros u' t' E Lo Lt.
      replace (S n + List.length u') with (n + List.length (c :: u'))
        by (cbn [List.length]; lia).
      apply Min; cbn [List.length app]; [now rewrite E | lia | lia].
Qed.

(** The search passes over the places where the pattern does not
    match. *)
Lemma search_from_skip (r : regex) (s pre : str) :
  forall n,
    (forall a b, pre = a ++ b -> b <> [] ->
                 at_pos r (n + List.length a) (b ++ s) = None) ->
    search_from r n (pre ++ s) = search_from r (n + List.length pre) s.
Proof.
  induction pre as [|c pre IH]; intros n H.
  - cbn [app List.length]; now rewrite Nat.add_0_r.
  - cbn [app search_from].
    pose proof (H [] (c :: pre) eq_refl ltac:(discriminate)) as H0.
    cbn [List.length app] in H0; rewrite Nat.add_0_r in H0; rewrite H0.
    rewrite IH.
    + f_equal; cbn [List.length]; lia.
    + intros a b E N.
      replace (S n + List.length a) with (n + List.length (c :: a))
        by (cbn [List.length]; lia).
      apply H; [now rewrite E | exact N].
Qed.

Lemma at_pos_chars_none (l : str) (r : regex) (n : nat) (s : str) :
  Str.startswith l s = false -> at_pos (Cat (Chars l) r) n s = None.
Proof. intros H; unfold at_pos; cbn [exec rest]; now rewrite H. Qed.

Lemma search_from_here (r : regex) (n : nat) (s : str) (m : mobj) :
  at_pos r n s = Some m -> search_from r n s = Some m.
Proof. intros H; destruct s; cbn [search_from]; now rewrite H. Qed.

Lemma skipn_here (u t : str) : skipn (List.length u) (u ++ t) = t.
Proof. induction u; [reflexivity | assumption]. Qed.

Lemma firstn_all_app (u t : str) : firstn (List.length u) (u ++ t) = u.
Proof.
  rewrite <- (Nat.add_0_r (List.length u)), firstn_app_2.
  cbn [firstn]; apply app_nil_r.
Qed.

(** The handle: the text between the first "(@" and the ")" after
    it. *)
Lemma username_of (pre user post : str) :
  Str.has "(" pre = false ->
  1 <= List.length user -> Str.has ")" user = false ->
  Field.username (pre ++ lit "(@" ++ user ++ ")"%char :: post) = Some user.
Proof.
  intros Hp Lu Hu.
  unfold Field.username, search.
  rewrite search_from_skip.
  2:{ intros a b E N; apply at_pos_chars_none.
      destruct b as [|c b]; [easy|].
      assert (Hc : Ascii.eqb "(" c = false).
      { unfold Str.has in Hp; rewrite E, existsb_app in Hp.
        apply orb_false_iff in Hp as [_ Hp]; cbn [existsb] in Hp.
        now apply orb_false_iff in Hp as [Hp _]. }
      cbn [app lit list_ascii_of_string Str.startswith].
      now rewrite Hc. }
  assert (A : exists m,
             at_pos Pat.username_pattern (0 + List.length pre)
               (lit "(@" ++ user ++ ")"%char :: post) = Some m /\
             groups m = [user]).
  { unfold at_pos, Pat.username_pattern, Pat.plus.
    cbn [exec pos rest caps].
    rewrite startswith_app, skipn_here.
    erewrite rep_greedy_all; cycle 1.
    - reflexivity.
    - unfold Str.has in Hu; apply forallb_forall; intros c I.
      unfold Chr.compl, Chr.only.
      destruct (Ascii.eqb_spec c ")") as [->|]; [|reflexivity].
      assert (existsb (Ascii.eqb ")") user = true)
        by (apply existsb_exists; exists ")"%char; split;
            [exact I | reflexivity]).
      congruence.
    - exact Lu.
    - cbn [pos rest caps].
      change (Str.startswith (lit ")") (")"%char :: post)) with true.
      cbv iota; reflexivity.
    - eexists; split; [reflexivity|].
      cbn [pos caps groups].
      replace (0 + List.length pre + List.length (lit "(@") +
               List.length user - (0 + List.length pre +
                                  List.length (lit "(@")))
        with (List.length user) by lia.
      cbn [app]; now rewrite firstn_all_app. }
  destruct A as (m & A & G).
  rewrite (search_from_here _ _ _ _ A); cbn [Field.first_group].
  now rewrite G.
Qed.

Lemma has_app_false (c : ascii) (a b : str) :
  Str.has c (a ++ b) = false -> Str.has c a = false /\ Str.has c b = false.
Proof.
  unfold Str.has; rewrite existsb_app; apply orb_false_iff.
Qed.

(** The URL: the text without white space after the first "URL: ",
    when that text begins with https://. *)
Lemma url_of (pre tail post : str) :
  Str.has ":" pre = false ->
  1 <= List.length tail -> forallb (Chr.compl Chr.space) tail = true ->
  match post with c :: _ => Chr.space c = true | [] => True end ->
  Field.url (pre ++ lit "URL: " ++ (lit "https://" ++ tail) ++ post)
  = Some (lit "https://" ++ tail).
Proof.
  intros Hp Lt Ft Hpost.
  unfold Field.url, search.
  rewrite search_from_skip.
  2:{ intros a b E N; apply at_pos_chars_none.
      rewrite E in Hp; apply has_app_false in Hp as [_ Hb].
      destruct b as [|b1 [|b2 [|b3 [|b4 b]]]]; [easy|..];
        cbn [app lit list_ascii_of_string Str.startswith].
      4:{ unfold Str.has in Hb; cbn [existsb] in Hb.
          repeat (apply orb_false_iff in Hb as [? Hb]).
          match goal with
          | H : Ascii.eqb ":" b4 = false |- _ => rewrite H
          end.
          repeat match goal with
                 | |- context [Ascii.eqb ?x ?y] =>
                     is_var y; destruct (Ascii.eqb x y)
                 end; reflexivity. }
      all: repeat match goal with
                  | |- context [Ascii.eqb ?x ?y] =>
                      is_var y; destruct (Ascii.eqb x y)
                  end; reflexivity. }
  assert (A : exists m,
             at_pos Pat.url_pattern (0 + List.length pre)
               (lit "URL: " ++ (lit "https://" ++ tail) ++ post) = Some m /\
             groups m = [lit "https://" ++ tail]).
  { unfold at_pos, Pat.url_pattern, Pat.plus.
    cbn [exec pos rest caps].
    rewrite startswith_app, skipn_here, <- app_assoc.
    rewrite startswith_app, skipn_here.
    erewrite rep_greedy_all; cycle 1.
    - destruct post as [|c post]; [exact I|].
      unfold Chr.compl; now rewrite Hpost.
    - exact Ft.
    - exact Lt.
    - cbn [pos rest caps]; reflexivity.
    - eexists; split; [reflexivity|].
      cbn [pos caps groups app]; f_equal.
      replace (0 + List.length pre + List.length (lit "URL: ") +
               List.length (lit "https://") + List.length tail -
               (0 + List.length pre + List.length (lit "URL: ")))
        with (List.length (lit "https://" ++ tail))
        by (rewrite length_app; lia).
      now rewrite app_assoc, firstn_all_app. }
  destruct A as (m & A & G).
  rewrite (search_from_here _ _ _ _ A); cbn [Field.first_group].
  now rewrite G.
Qed.

(** White space and then "(@" do not begin a text that has a
    character that is no white space before its first parenthesis. *)
Lemma spaces_handle_none (x rest' : str) (n : nat) (cs : list str)
    (k : mstate -> option mstate) :
  forallb Chr.space x = false ->
  Str.has "(" x = false ->
  forallb Chr.space rest' = true ->
  forall post,
    exec (Cat (Pat.star Chr.space) (Chars (lit "(@")))
      (MState n (x ++ rest' ++ lit "(@" ++ post) cs) k = None.
Proof.
  intros Fx Hx Fr post.
  destruct (exec _ _ k) as [r|] eqn:E; [exfalso | reflexivity].
  apply exec_sound in E as (st' & M & _).
  cbn [Sem.matches Pat.star] in M.
  destruct M as (m & (w & t & E1 & Fw & _ & _ & ->) & S & _).
  cbn [rest] in E1, S.
  apply startswith_split in S; cbn [List.length lit list_ascii_of_string
    skipn] in S.
  set (z := match t with _ :: _ :: l => l | _ => t end) in S.
  rewrite S in E1; clear S.
  apply app_eq_app in E1 as (l & [[E1 E2] | [E1 E2]]).
  - destruct l as [|c l].
    + rewrite app_nil_r in E1; subst w; congruence.
    + cbn [app lit list_ascii_of_string] in E2.
      injection E2 as <- _.
      rewrite E1 in Hx; apply has_app_false in Hx as [_ Hx].
      cbn in Hx; discriminate.
  - destruct l as [|c l].
    + rewrite app_nil_r in E1; subst w; congruence.
    + rewrite E1, forallb_app in Fw; apply andb_prop in Fw as [Fw _].
      congruence.
Qed.

(** The stripped text ends in a character that is no white space. *)
Lemma strip_last (s y z : str) :
  Str.strip s = y ++ z -> z <> [] -> forallb Chr.space z = false.
Proof.
  intros E N.
  destruct (exists_last N) as (z' & c & ->).
  assert (H : Str.lstrip (rev (Str.lstrip s)) = c :: rev z' ++ rev y).
  { apply (f_equal (@rev ascii)) in E.
    unfold Str.strip, Str.rstrip in E; rewrite rev_involutive in E.
    now rewrite E, !rev_app_distr. }
  pose proof (lstrip_head (rev (Str.lstrip s))) as L; rewrite H in L.
  rewrite forallb_app; cbn [forallb]; rewrite L.
  now rewrite andb_false_r.
Qed.

(** The name: the text between the period after the number and the
    first "(@", without the white space around it. *)
Lemma name_at (ds a g b post : str) :
  forallb Chr.digit ds = true -> 1 <= List.length ds ->
  forallb Chr.space a = true -> forallb Chr.space b = true ->
  forallb Chr.dot g = true -> Str.has "(" g = false ->
  match g ++ b with c :: _ => Chr.space c = false | [] => True end ->
  (forall y z, g = y ++ z -> z <> [] -> forallb Chr.space z = false) ->
  exists m,
    at_pos Pat.name_pattern 0
      (ds ++ "."%char :: a ++ g ++ b ++ lit "(@" ++ post) = Some m /\
    groups m = [g].
Proof.
  intros Fd Ld Fa Fb Fg Hg Head Last.
  unfold at_pos, Pat.name_pattern, Pat.plus, Pat.star, Pat.star_lazy.
  cbn [exec pos rest caps Nat.eqb].
  erewrite rep_greedy_all; cycle 1.
  - reflexivity.
  - exact Fd.
  - exact Ld.
  - cbn [exec pos rest caps].
    change (Str.startswith (lit ".") ("."%char :: ?x)) with true.
    cbn [lit list_ascii_of_string List.length skipn].
    erewrite rep_greedy_all; cycle 1.
    + destruct g as [|c g]; [|exact Head].
      destruct b as [|c b]; [reflexivity | exact Head].
    + exact Fa.
    + lia.
    + cbn [pos rest caps].
      erewrite rep_lazy_at; cycle 1.
      * exact Fg.
      * lia.
      * cbn [pos rest caps].
        erewrite rep_greedy_all; cycle 1.
        -- reflexivity.
        -- exact Fb.
        -- lia.
        -- cbn [pos rest caps]; rewrite startswith_app; reflexivity.
        -- reflexivity.
      * intros u' t' E _ L.
        apply app_eq_app in E as (l & [[E1 E2] | [E1 E2]]).
        -- cbn [pos rest caps]; subst t'.
           apply spaces_handle_none; auto.
           ++ apply (Last u' l E1).
              intros ->; rewrite app_nil_r in E1; subst u'; lia.
           ++ rewrite E1 in Hg; now apply has_app_false in Hg.
        -- exfalso; rewrite E1, length_app in L; lia.
      * reflexivity.
    + reflexivity.
  - eexists; split; [reflexivity|].
    cbn [pos caps groups app]; f_equal.
    match goal with
    | |- firstn ?k _ = _ => replace k with (List.length g) by lia
    end.
    apply firstn_all_app.
Qed.

Lemma name_of (ds body post : str) :
  forallb Chr.digit ds = true -> 1 <= List.length ds ->
  Str.has "(" body = false -> forallb Chr.dot body = true ->
  Field.name (ds ++ "."%char :: body ++ lit "(@" ++ post)
  = Some (Str.strip body).
Proof.
  intros Fd Ld Hb Fb.
  destruct (strip_split body) as (a & b & E & Sa & Sb).
  assert (A : exists m,
             at_pos Pat.name_pattern 0
               (ds ++ "."%char :: body ++ lit "(@" ++ post) = Some m /\
             groups m = [Str.strip body]).
  { destruct (Str.strip body) as [|c g] eqn:G.
    - cbn [app] in E.
      pose proof (name_at ds body [] [] post Fd Ld) as N.
      cbn [app] in N; apply N; auto.
      + rewrite E, forallb_app, Sa, Sb; reflexivity.
      + intros y z Ey Nz; destruct y; destruct z; easy.
    - pose proof (name_at ds a (c :: g) b post Fd Ld Sa Sb) as N.
      rewrite E, <- !app_assoc; apply N.
      + rewrite E, !forallb_app in Fb.
        apply andb_prop in Fb as [_ Fb]; now apply andb_prop in Fb as [Fb _].
      + rewrite E in Hb; apply has_app_false in Hb as [_ Hb].
        now apply has_app_false in Hb as [Hb _].
      + cbn [app].
        pose proof (lstrip_head (Str.strip body)) as H.
        now rewrite strip_head, G in H.
      + intros y z Ey Nz; rewrite <- G in Ey.
        now apply (strip_last body y z). }
  destruct A as (m & A & G).
  unfold Field.name, search.
  rewrite (search_from_here _ _ _ _ A); cbn [Field.first_group option_map].
  rewrite G; cbn [nth]; now rewrite strip_idem.
Qed.

End FirstMatchFacts.

Section GroupFacts.

(** The chunk that begins at a line goes on over the lines after it
    that do not begin with an integer and a period. *)
Lemma pieces_group (others : list str) (after : list str) :
  Forall (fun l => plain l = true) (others ++ after) ->
  Forall (fun l => marked l = false) others ->
  forall l cur,
    plain l = true ->
    exists more rest,
      pieces cur (flat_lines (l :: others ++ after)) =
      (rev cur ++ l ++ List.concat (map (cons nl) others) ++ more) :: rest.
Proof.
  induction others as [|o others IH]; intros P U l cur Pl.
  - cbn [app map List.concat] in *.
    destruct (pieces_lines after P l cur Pl) as (more & rest & -> & _).
    now exists more, rest.
  - inversion P as [|? ? Po P']; inversion U as [|? ? Uo U']; subst.
    change (flat_lines (l :: (o :: others) ++ after))
      with ((l ++ [nl]) ++ flat_lines (o :: others ++ after)).
    rewrite <- app_assoc; cbn [app].
    rewrite pieces_line by now apply plain_no_newline.
    rewrite marked_flat_lines, Uo.
    destruct (IH P' U' o (nl :: rev l ++ cur) Po) as (more & rest & ->).
    exists more, rest; f_equal.
    cbn [rev map List.concat]; rewrite rev_app_distr, rev_involutive.
    rewrite <- !app_assoc; reflexivity.
Qed.

(** A line that begins with an integer and a period begins a
    chunk. *)
Lemma pieces_from (before : list str) (l1 : str) (rest : list str) :
  marked l1 = true ->
  forall b0 cur,
    Forall (fun l => plain l = true) (b0 :: before) ->
    exists pre,
      pieces cur (flat_lines (b0 :: before ++ l1 :: rest)) =
      pre ++ pieces [] (flat_lines (l1 :: rest)).
Proof.
  intros M; induction before as [|b1 before IH]; intros b0 cur P;
    inversion P as [|? ? P0 P']; subst.
  - change (flat_lines (b0 :: [] ++ l1 :: rest))
      with ((b0 ++ [nl]) ++ flat_lines (l1 :: rest)).
    rewrite <- app_assoc; cbn [app].
    rewrite pieces_line by now apply plain_no_newline.
    rewrite marked_flat_lines, M.
    now exists [rev cur ++ b0].
  - change (flat_lines (b0 :: (b1 :: before) ++ l1 :: rest))
      with ((b0 ++ [nl]) ++ flat_lines (b1 :: before ++ l1 :: rest)).
    rewrite <- app_assoc; cbn [app].
    rewrite pieces_line by now apply plain_no_newline.
    destruct (marked (flat_lines (b1 :: before ++ l1 :: rest))).
    + destruct (IH b1 [] P') as (pre & ->).
      now exists ((rev cur ++ b0) :: pre).
    + apply IH, P'.
Qed.

Lemma group_chunk (b0 : str) (before others after : list str) (l1 : str) :
  Forall (fun l => plain l = true)
    (b0 :: before ++ (l1 :: others) ++ after) ->
  marked l1 = true -> Forall (fun l => marked l = false) others ->
  exists more,
    In (l1 ++ List.concat (map (cons nl) others) ++ more)
      (segments (flat_lines (b0 :: before ++ (l1 :: others) ++ after))).
Proof.
  intros P M U.
  rewrite segments_pieces.
  change (b0 :: before ++ (l1 :: others) ++ after)
    with ((b0 :: before) ++ (l1 :: others) ++ after) in P.
  apply Forall_app in P as [Pb P].
  cbn [app] in P; inversion P as [|? ? P1 Po]; subst.
  destruct (pieces_from before l1 (others ++ after) M b0 [] Pb) as (pre & E).
  cbn [app]; rewrite E.
  destruct (pieces_group others after Po U l1 [] P1) as (more & rest & ->).
  exists more; apply in_or_app; right; now left.
Qed.

End GroupFacts.

Section ItemFacts.

Variable fetch : nat -> Api.fetched.

Lemma item_lines_plain (n : nat) (item : Api.item) :
  plain_item item = true ->
  Forall (fun l => plain l = true) (item_lines n item).
Proof. intros P; now destruct (item_lines_listing n item P). Qed.

Lemma items_content_at (result_count : nat) (items : list Api.item) :
  forallb plain_item items = true ->
  forall i j item,
    nth_error items i = Some item ->
    exists before after,
      items_content result_count j items =
      Got (flat_lines (before ++
                       item_lines (result_count + j + i) item ++ after)) /\
      Forall (fun l => plain l = true) (before ++ after).
Proof.
  induction items as [|x items IH]; intros P i j item N;
    [destruct i; discriminate|].
  cbn [forallb] in P; apply andb_prop in P as [Px P].
  cbn [items_content]; rewrite item_content_lines; cbn [keyed_bind].
  destruct i as [|i]; cbn [nth_error] in N.
  - injection N as ->.
    destruct (items_content_lines result_count items P (S j))
      as (ls & -> & L & _).
    cbn [keyed_bind]; exists [], ls; split; [|exact L].
    now rewrite Nat.add_0_r, <- flat_lines_app.
  - destruct (IH P i (S j) item N) as (before & after & -> & F).
    cbn [keyed_bind].
    exists (item_lines (result_count + j) x ++ before), after; split.
    + rewrite <- flat_lines_app, <- app_assoc.
      now replace (result_count + S j + i) with (result_count + j + S i)
        by lia.
    + rewrite <- app_assoc; apply Forall_app; split;
        [now apply item_lines_plain | exact F].
Qed.

Lemma page_content_at (page result_count i : nat) (r : Api.search_results)
    (item : Api.item) :
  forallb plain_item (items_of (Api.Fetched r)) = true ->
  nth_error (items_of (Api.Fetched r)) i = Some item ->
  exists before after,
    page_content page result_count r =
    Got (flat_lines (before ++
                     item_lines (result_count + 1 + i) item ++ after)) /\
    Forall (fun l => plain l = true) (before ++ after).
Proof.
  intros P N; unfold page_content, items_of in *.
  destruct (Api.items r) as [items|]; [|destruct i; discriminate].
  destruct (items_content_at result_count items P i 1 item N)
    as (before & after & -> & F).
  cbn [keyed_bind].
  exists ((lit "Page " ++ str_of_nat page ++ lit " Results:") :: rule ::
          [] :: before), after; split.
  - f_equal; unfold flat_lines; cbn [flat_map app].
    rewrite <- !app_assoc; reflexivity.
  - cbn [app]; repeat constructor; [|exact F].
    rewrite !plain_app, plain_str_of_nat; reflexivity.
Qed.

Hypothesis plain_items :
  forall page, forallb plain_item (items_of (fetch page)) = true.

Lemma pages_loop_at (p i : nat) (item : Api.item) :
  nth_error (items_of (fetch p)) i = Some item ->
  forall remaining page result_count,
    page <= p < page + remaining ->
    (forall j, page <= j < p -> continues (fetch j) = true) ->
    exists r before after,
      pages_loop fetch remaining page result_count = Got r /\
      written r =
      flat_lines
        (before ++
         item_lines
           (result_count +
            list_sum (map (fun j => List.length (items_of (fetch j)))
                        (seq page (p - page))) + 1 + i) item ++ after) /\
      Forall (fun l => plain l = true) (before ++ after).
Proof.
  intros N; induction remaining as [|remaining IH];
    intros page result_count Hp C; [lia|].
  cbn [pages_loop].
  pose proof (plain_items page) as P.
  destruct (Nat.eq_dec page p) as [->|Ne].
  - destruct (fetch p) as [|r] eqn:F; [destruct i; discriminate|].
    destruct (page_content_at p result_count i r item P N)
      as (before & after & -> & Pl).
    cbn [keyed_bind]; rewrite Nat.sub_diag.
    cbn [seq map list_sum]; rewrite Nat.add_0_r.
    set (c := match Api.items r with
              | Some items => result_count + List.length items
              | None => result_count
              end).
    destruct (pages_loop_lines fetch plain_items remaining (S p) c)
      as (r1 & ls1 & -> & W & _ & [L1 _]).
    cbn [keyed_bind].
    assert (Stop : exists r0 before0 after0,
               Got (Run (flat_lines (before ++
                           item_lines (result_count + 1 + i) item ++ after))
                      ((if 1 <? p then [Sleep] else []) ++
                       [Get ((p - 1) * 10 + 1)]) c) = Got r0 /\
               written r0 =
               flat_lines (before0 ++
                           item_lines (result_count + 1 + i) item ++
                           after0) /\
               Forall (fun l => plain l = true) (before0 ++ after0))
      by (eexists _, before, after; split; [reflexivity|];
          split; [reflexivity | exact Pl]).
    destruct (Api.queries r) as [[|]|]; try exact Stop;
      eexists _, before, (after ++ ls1);
      (split; [reflexivity|]); cbn [written];
      (split; [rewrite W, <- flat_lines_app, <- !app_assoc; reflexivity|]);
      rewrite app_assoc; apply Forall_app; now split.
  - pose proof (C page ltac:(lia)) as Cp.
    destruct (fetch page) as [|r] eqn:F; [discriminate|].
    destruct (page_content_lines page result_count r P)
      as (ls & -> & [Pl _]).
    cbn [keyed_bind].
    set (c := match Api.items r with
              | Some items => result_count + List.length items
              | None => result_count
              end).
    assert (Ec : c = result_count +
                     List.length (items_of (Api.Fetched r)))
      by (unfold c, items_of; destruct (Api.items r);
          cbn [List.length]; lia).
    destruct (IH (S page) c ltac:(lia) ltac:(intros j Hj; apply C; lia))
      as (r1 & before & after & -> & W & Pb).
    cbn [keyed_bind].
    assert (En : result_count +
                 list_sum (map (fun j => List.length (items_of (fetch j)))
                             (seq page (p - page))) + 1 + i
                 = c + list_sum
                         (map (fun j => List.length (items_of (fetch j)))
                            (seq (S page) (p - S page))) + 1 + i).
    { replace (p - page) with (S (p - S page)) by lia.
      unfold list_sum; cbn [seq map fold_right]; rewrite F; lia. }
    rewrite En.
    cbn [continues] in Cp.
    destruct (Api.queries r) as [[|]|]; try discriminate;
      eexists _, (ls ++ before), after;
      (split; [reflexivity|]); cbn [written];
      (split; [rewrite W, <- flat_lines_app, <- !app_assoc; reflexivity|]);
      rewrite <- app_assoc; apply Forall_app; now split.
Qed.

End ItemFacts.

Section RoundTripFacts.

Lemma has_digits_false (c : ascii) (ds : str) :
  Chr.digit c = false -> forallb Chr.digit ds = true ->
  Str.has c ds = false.
Proof.
  intros Hc F; unfold Str.has.
  destruct (existsb (Ascii.eqb c) ds) eqn:E; [|reflexivity].
  apply existsb_exists in E as (d & I & E).
  apply Ascii.eqb_eq in E; subst d.
  rewrite forallb_forall in F; apply F in I; congruence.
Qed.

Lemma plain_dot (s : str) : plain s = true -> forallb Chr.dot s = true.
Proof.
  apply forallb_weaken; intros c H.
  now apply andb_prop in H as [H _].
Qed.

(** The fields read from a chunk that begins with the two lines
    written for an item whose title shows a handle. *)
Lemma item_chunk_fields (n : nat) (nm user t' tail others : str) :
  List.length (str_of_nat n) <= max_str_digits ->
  plain nm = true ->
  Str.has "(" nm = false ->
  Str.has ":" (nm ++ lit "(@" ++ user ++ ")"%char :: t') = false ->
  1 <= List.length user -> Str.has ")" user = false ->
  1 <= List.length tail -> forallb (Chr.compl Chr.space) tail = true ->
  let chunk :=
    (str_of_nat n ++ lit ". " ++ nm ++ lit "(@" ++ user ++ ")"%char :: t') ++
    nl :: (lit "   URL: " ++ lit "https://" ++ tail) ++ nl :: others in
  Field.number chunk = Some (Z.of_nat n) /\
  Field.name chunk = Some (Str.strip nm) /\
  Field.username chunk = Some user /\
  Field.url chunk = Some (lit "https://" ++ tail).
Proof.
  intros Sn Pn Hn Hc Lu Hu Lt Ft chunk.
  destruct (str_of_nat_digits n) as (Fd & Ld & _).
  split; [|split; [|split]].
  - apply number_numbered; [exact Sn | eexists; reflexivity].
  - replace chunk
      with (str_of_nat n ++ "."%char :: (" "%char :: nm) ++ lit "(@" ++
            (user ++ ")"%char :: t') ++
            nl :: (lit "   URL: " ++ lit "https://" ++ tail) ++ nl :: others)
      by (unfold chunk; rewrite <- !app_assoc; reflexivity).
    rewrite name_of; auto.
    cbn [forallb]; now rewrite plain_dot.
  - replace chunk
      with ((str_of_nat n ++ lit ". " ++ nm) ++ lit "(@" ++ user ++
            ")"%char :: t' ++
            nl :: (lit "   URL: " ++ lit "https://" ++ tail) ++ nl :: others)
      by (unfold chunk; rewrite <- !app_assoc; reflexivity).
    apply username_of; auto.
    rewrite !has_app, has_digits_false, Hn by (reflexivity || exact Fd).
    reflexivity.
  - replace chunk
      with (((str_of_nat n ++ lit ". " ++ nm ++ lit "(@" ++ user ++
              ")"%char :: t') ++ nl :: lit "   ") ++
            lit "URL: " ++ (lit "https://" ++ tail) ++ nl :: others)
      by (unfold chunk; rewrite <- !app_assoc; reflexivity).
    apply url_of; auto.
    set (T := nm ++ lit "(@" ++ user ++ ")"%char :: t') in *.
      rewrite 3!has_app, has_digits_false, Hc
        by (reflexivity || exact Fd).
      reflexivity.
Qed.

End RoundTripFacts.

Section CountRoundTrip.

Import Re Sem.

(** Two texts that agree up to the first occurrence of a character
    agree before it and after it. *)
Lemma first_char_unique (c : ascii) (a a' b b' : str) :
  a ++ c :: b = a' ++ c :: b' ->
  Str.has c a = false -> Str.has c a' = false ->
  a = a' /\ b = b'.
Proof.
  revert a'; induction a as [|x a IH]; intros [|x' a'] E H H';
    cbn [app] in E.
  - injection E as <-; auto.
  - injection E as <- _; cbn in H'; now rewrite Ascii.eqb_refl in H'.
  - injection E as -> _; cbn in H; now rewrite Ascii.eqb_refl in H.
  - injection E as <- E.
    cbn [Str.has existsb] in H, H'.
    apply orb_false_iff in H as [_ H]; apply orb_false_iff in H' as [_ H'].
    destruct (IH a' E H H') as [-> ->]; auto.
Qed.

(** A run of characters of a class that ends where the class ends is
    determined by the text. *)
Lemma run_unique (p : ascii -> bool) (u v x y : str) :
  u ++ x = v ++ y ->
  forallb p u = true -> forallb p v = true ->
  match x with c :: _ => p c = false | [] => True end ->
  match y with c :: _ => p c = false | [] => True end ->
  u = v /\ x = y.
Proof.
  revert v; induction u as [|a u IH]; intros [|b v] E Fu Fv Hx Hy;
    cbn [app forallb] in *.
  - auto.
  - subst x; apply andb_prop in Fv as [Fb _]; congruence.
  - subst y; apply andb_prop in Fu as [Fa _]; congruence.
  - injection E as <- E.
    apply andb_prop in Fu as [_ Fu]; apply andb_prop in Fv as [_ Fv].
    destruct (IH v E Fu Fv Hx Hy) as [-> ->]; auto.
Qed.

Lemma count_shape_chars (f : str) :
  count_shape f ->
  forallb count_char f = true /\
  exists c t, f = c :: t /\ Chr.digit c = true.
Proof.
  intros (d1 & o1 & d2 & o2 & -> & L & F1 & O1 & F2 & O2); split.
  - rewrite !forallb_app.
    assert (D : forall d, forallb Chr.digit d = true ->
                          forallb count_char d = true).
    { intros d; apply forallb_weaken; intros c H; unfold count_char.
      now rewrite H. }
    rewrite (D d1 F1), (D d2 F2).
    destruct O1 as [-> | ->]; destruct O2 as [-> | [-> | ->]]; reflexivity.
  - destruct d1 as [|c d1]; [simpl in L; lia|].
    cbn [forallb] in F1; apply andb_prop in F1 as [Hc _].
    exists c, (d1 ++ o1 ++ d2 ++ o2); now split.
Qed.

Lemma count_char_plain (c : ascii) :
  count_char c = true -> Chr.space c = false /\ Ascii.eqb "," c = false.
Proof.
  destruct c as [[] [] [] [] [] [] [] []]; vm_compute;
    intros H; try discriminate; split; reflexivity.
Qed.

Lemma count_no_space (f : str) :
  forallb count_char f = true -> forallb (Chr.compl Chr.space) f = true.
Proof.
  apply forallb_weaken; intros c H; unfold Chr.compl.
  now destruct (count_char_plain c H) as [-> _].
Qed.

Lemma count_no_comma (f : str) :
  forallb count_char f = true -> Str.has "," f = false.
Proof.
  intros F; unfold Str.has.
  destruct (existsb (Ascii.eqb ",") f) eqn:E; [|reflexivity].
  apply existsb_exists in E as (c & I & E).
  rewrite forallb_forall in F; apply F, count_char_plain in I as [_ I].
  congruence.
Qed.

Lemma spaces_no_comma (w : str) :
  forallb Chr.space w = true -> Str.has "," w = false.
Proof.
  intros F; unfold Str.has.
  destruct (existsb (Ascii.eqb ",") w) eqn:E; [|reflexivity].
  apply existsb_exists in E as (c & I & E).
  apply Ascii.eqb_eq in E; subst c.
  rewrite forallb_forall in F; apply F in I; discriminate.
Qed.

(** A text of the shape of a count is matched by the pattern of a
    count. *)
Lemma matches_count_intro (f t : str) (n : nat) (cs : list str) :
  count_shape f ->
  matches Pat.count (MState n (f ++ t) cs) (MState (n + List.length f) t cs).
Proof.
  intros (d1 & o1 & d2 & o2 & -> & L & F1 & O1 & F2 & O2).
  unfold Pat.count, Pat.plus, Pat.opt, Pat.star; cbn [matches].
  exists (MState (n + List.length d1) (o1 ++ d2 ++ o2 ++ t) cs); split.
  { exists d1, (o1 ++ d2 ++ o2 ++ t); cbn [rest pos caps within].
    rewrite <- !app_assoc; auto. }
  exists (MState (n + List.length d1 + List.length o1) (d2 ++ o2 ++ t) cs).
  split.
  { exists o1, (d2 ++ o2 ++ t); cbn [rest pos caps within].
    destruct O1 as [-> | ->]; cbn; auto 6. }
  exists (MState (n + List.length d1 + List.length o1 + List.length d2)
            (o2 ++ t) cs); split.
  { exists d2, (o2 ++ t); cbn [rest pos caps within]; repeat split; auto.
    lia. }
  exists o2, t; cbn [rest pos caps within].
  split; [reflexivity|]; split;
    [destruct O2 as [-> | [-> | ->]]; reflexivity|].
  split; [lia|]; split;
    [destruct O2 as [-> | [-> | ->]]; cbn; lia|].
  f_equal; rewrite !length_app; lia.
Qed.

Lemma count_head (f x : str) :
  count_shape f ->
  match f ++ x with c :: _ => Chr.space c = false | [] => True end.
Proof.
  intros S; destruct (count_shape_chars f S) as (_ & c & t & -> & Hc).
  cbn [app]; now apply digit_not_space.
Qed.

Lemma spaces_head (w x : str) :
  forallb Chr.space w = true -> 1 <= List.length w ->
  match w ++ x with
  | c :: _ => Chr.compl Chr.space c = false
  | [] => True
  end.
Proof.
  destruct w as [|c w]; cbn [List.length forallb app]; [lia|].
  intros F _; apply andb_prop in F as [F _]; unfold Chr.compl.
  now rewrite F.
Qed.

(** What a match of the pattern of the counts has captured, when it
    begins in a text without a comma that the line of the counts
    follows. *)
Lemma stats_match_inv (y f g p post : str) (n : nat) (st' : mstate) :
  matches Pat.meta_stats_pattern
    (MState n (y ++ f ++ lit " Followers, " ++ g ++ lit " Following, " ++
               p ++ lit " Posts" ++ post) []) st' ->
  Str.has "," y = false ->
  count_shape f -> count_shape g -> count_shape p ->
  exists c w1,
    caps st' = [c; g; p] /\ count_shape c /\
    forallb Chr.space w1 = true /\ 1 <= List.length w1 /\
    c ++ w1 = y ++ f ++ [" "%char].
Proof.
  intros M Hy Sf Sg Sp.
  unfold Pat.meta_stats_pattern, Pat.plus, Pat.star in M.
  cbn [matches] in M.
  destruct M as (m1 & M1 & m2 & M2 & m3 & M3 & m4 & M4 & m5 & M5 &
                 m6 & M6 & m7 & M7 & m8 & M8 & m9 & M9 & m10 & M10 & M11).
  apply matches_count_group in M1 as (c & t1 & E1 & S1 & ->).
  destruct M2 as (w1 & t2 & E2 & F2 & L2 & _ & ->).
  apply matches_chars in M3 as (t3 & E3 & ->).
  destruct M4 as (w2 & t4 & E4 & F4 & _ & _ & ->).
  apply matches_count_group in M5 as (g' & t5 & E5 & S5 & ->).
  destruct M6 as (w3 & t6 & E6 & F6 & L6 & _ & ->).
  apply matches_chars in M7 as (t7 & E7 & ->).
  destruct M8 as (w4 & t8 & E8 & F8 & _ & _ & ->).
  apply matches_count_group in M9 as (p' & t9 & E9 & S9 & ->).
  destruct M10 as (w5 & t10 & E10 & F10 & L10 & _ & ->).
  apply matches_chars in M11 as (t11 & E11 & ->).
  cbn [rest pos caps app] in *; subst.
  destruct (count_shape_chars f Sf) as (Cf & _).
  destruct (count_shape_chars g Sg) as (Cg & _).
  destruct (count_shape_chars p Sp) as (Cp & _).
  destruct (count_shape_chars c S1) as (Cc & _).
  destruct (count_shape_chars g' S5) as (Cg' & _).
  destruct (count_shape_chars p' S9) as (Cp' & _).
  (* up to the comma of Followers, *)
  assert (A : (y ++ f ++ lit " Followers") ++ ","%char ::
              (lit " " ++ g ++ lit " Following, " ++ p ++ lit " Posts" ++
               post)
              = (c ++ w1 ++ lit "Followers") ++ ","%char ::
                (w2 ++ g' ++ w3 ++ lit "Following," ++ w4 ++ p' ++ w5 ++
                 lit "Posts" ++ t11)).
  { rewrite <- !app_assoc; exact E1. }
  apply first_char_unique in A as [A1 A2].
  2:{ rewrite !has_app, Hy, (count_no_comma f Cf); reflexivity. }
  2:{ rewrite !has_app, (count_no_comma c Cc), (spaces_no_comma w1 F2).
      reflexivity. }
  assert (B1 : c ++ w1 = y ++ f ++ [" "%char]).
  { apply (app_inv_tail (lit "Followers")).
    rewrite <- !app_assoc; symmetry; exact A1. }
  (* up to the comma of Following, *)
  assert (B : (lit " " ++ g ++ lit " Following") ++ ","%char ::
              (lit " " ++ p ++ lit " Posts" ++ post)
              = (w2 ++ g' ++ w3 ++ lit "Following") ++ ","%char ::
                (w4 ++ p' ++ w5 ++ lit "Posts" ++ t11)).
  { rewrite <- !app_assoc; exact A2. }
  apply first_char_unique in B as [B2 B3].
  2:{ rewrite !has_app, (count_no_comma g Cg); reflexivity. }
  2:{ rewrite !has_app, (count_no_comma g' Cg'), (spaces_no_comma w2 F4),
        (spaces_no_comma w3 F6); reflexivity. }
  assert (G : g' = g).
  { assert (B2' : lit " " ++ g ++ [" "%char] = w2 ++ g' ++ w3).
    { apply (app_inv_tail (lit "Following")).
      rewrite <- !app_assoc; exact B2. }
    apply (run_unique Chr.space) in B2' as [_ B2'];
      [| reflexivity | exact F4 | now apply count_head
       | now apply count_head].
    apply (run_unique (Chr.compl Chr.space)) in B2' as [B2' _];
      [auto | now apply count_no_space | now apply count_no_space
      | reflexivity | ].
    rewrite <- (app_nil_r w3); now apply spaces_head. }
  assert (P : p' = p).
  { apply (run_unique Chr.space) in B3 as [_ B3];
      [| reflexivity | exact F8 | now apply count_head
       | now apply count_head].
    apply (run_unique (Chr.compl Chr.space)) in B3 as [B3 _];
      [auto | now apply count_no_space | now apply count_no_space
      | reflexivity | now apply spaces_head]. }
  subst g' p'; exists c, w1; auto.
Qed.

Lemma matches_count_group_intro (f t : str) (n : nat) (cs : list str) :
  count_shape f ->
  matches (Grp Pat.count) (MState n (f ++ t) cs)
    (MState (n + List.length f) t (cs ++ [f])).
Proof.
  intros S; cbn [matches].
  exists (MState (n + List.length f) t cs); split;
    [now apply matches_count_intro|].
  cbn [pos rest caps]; now rewrite firstn_here.
Qed.

Lemma matches_spaces_intro (lo : nat) (w t : str) (n : nat)
    (cs : list str) :
  forallb Chr.space w = true -> lo <= List.length w ->
  matches (Rep Chr.space lo None true) (MState n (w ++ t) cs)
    (MState (n + List.length w) t cs).
Proof.
  intros F L; cbn [matches]; exists w, t; cbn [rest pos caps within].
  auto.
Qed.

Lemma matches_chars_intro (l t : str) (n : nat) (cs : list str) :
  matches (Chars l) (MState n (l ++ t) cs) (MState (n + List.length l) t cs).
Proof. apply matches_chars; exists t; auto. Qed.

(** The line of the counts is matched by the pattern of the counts. *)
Lemma stats_match_intro (f g p post : str) (n : nat) :
  count_shape f -> count_shape g -> count_shape p ->
  exists st',
    matches Pat.meta_stats_pattern
      (MState n (f ++ lit " Followers, " ++ g ++ lit " Following, " ++
                 p ++ lit " Posts" ++ post) []) st'.
Proof.
  intros Sf Sg Sp.
  unfold Pat.meta_stats_pattern, Pat.plus, Pat.star.
  eexists; cbn [matches].
  eexists; split; [apply matches_count_group_intro, Sf|].
  eexists; split;
    [apply (matches_spaces_intro 1 (lit " ")); [reflexivity | cbn; lia]|].
  eexists; split; [apply (matches_chars_intro (lit "Followers,"))|].
  eexists; split;
    [apply (matches_spaces_intro 0 (lit " ")); [reflexivity | cbn; lia]|].
  eexists; split; [apply matches_count_group_intro, Sg|].
  eexists; split;
    [apply (matches_spaces_intro 1 (lit " ")); [reflexivity | cbn; lia]|].
  eexists; split; [apply (matches_chars_intro (lit "Following,"))|].
  eexists; split;
    [apply (matches_spaces_intro 0 (lit " ")); [reflexivity | cbn; lia]|].
  eexists; split; [apply matches_count_group_intro, Sp|].
  eexists; split;
    [apply (matches_spaces_intro 1 (lit " ")); [reflexivity | cbn; lia]|].
  apply (matches_chars_intro (lit "Posts")).
Qed.

(** The counts read from a chunk in which no comma comes before the
    line of the counts. *)
Lemma stats_of (pre f g p post : str) :
  Str.has "," pre = false ->
  count_shape f -> count_shape g -> count_shape p ->
  let chunk := (pre ++ [" "%char]) ++ f ++ lit " Followers, " ++ g ++
               lit " Following, " ++ p ++ lit " Posts" ++ post in
  Field.followers chunk = Some f /\
  Field.following chunk = Some g /\
  Field.posts chunk = Some p.
Proof.
  intros Hp Sf Sg Sp chunk.
  assert (A : exists m,
             search Pat.meta_stats_pattern chunk = Some m /\
             groups m = [f; g; p]).
  { unfold search, chunk; rewrite search_from_skip.
    - destruct (stats_match_intro f g p post
                  (0 + List.length (pre ++ [" "%char])) Sf Sg Sp)
        as (st' & M).
      pose proof (exec_complete _ _ _ (fun st => Some st) M
                    ltac:(discriminate)) as C.
      destruct (exec Pat.meta_stats_pattern _ (fun st => Some st))
        as [st|] eqn:E; [|easy].
      exists (MObj (0 + List.length (pre ++ [" "%char])) (pos st)
                (firstn (pos st - (0 + List.length (pre ++ [" "%char])))
                   (f ++ lit " Followers, " ++ g ++ lit " Following, " ++
                    p ++ lit " Posts" ++ post)) (caps st)).
      split; [apply search_from_here; unfold at_pos; now rewrite E|].
      apply exec_sound in E as (st1 & M1 & E1); injection E1 as ->.
      apply (stats_match_inv []) in M1
          as (c & w1 & -> & Sc & Fw & Lw & E1); auto.
      cbn [groups]; f_equal.
      destruct (count_shape_chars c Sc) as (Cc & _).
      destruct (count_shape_chars f Sf) as (Cf & _).
      cbn [app] in E1.
      apply (run_unique (Chr.compl Chr.space)) in E1 as [E1 _];
        [auto | now apply count_no_space | now apply count_no_space
        | | reflexivity].
      rewrite <- (app_nil_r w1); now apply spaces_head.
    - intros a b E N; unfold at_pos.
      destruct (exec Pat.meta_stats_pattern _ (fun st => Some st))
        as [st|] eqn:X; [exfalso | reflexivity].
      apply exec_sound in X as (st1 & M1 & _).
      destruct (exists_last N) as (b' & x & ->).
      rewrite app_assoc in E; apply app_inj_tail in E as [E <-].
      apply stats_match_inv in M1 as (c & w1 & _ & Sc & Fw & Lw & E1); auto.
      2:{ rewrite E in Hp; apply has_app_false in Hp as [_ Hp].
          now rewrite has_app, Hp. }
      destruct (count_shape_chars c Sc) as (Cc & _).
      destruct (count_shape_chars f Sf) as (_ & d & t & -> & Hd).
      apply app_eq_app in E1 as (l & [[E1 E2] | [E1 E2]]).
      + apply count_no_space in Cc; rewrite E1, !forallb_app in Cc.
        cbn in Cc; rewrite andb_false_r in Cc; discriminate.
      + rewrite E2, !forallb_app in Fw; cbn [app forallb] in Fw.
        rewrite (digit_not_space d Hd) in Fw.
        rewrite andb_false_r in Fw; discriminate. }
  destruct A as (m & A & G).
  unfold Field.followers, Field.following, Field.posts, Field.nth_group.
  rewrite A, G; auto.
Qed.

End CountRoundTrip.

Section ItemRow.

(** The lines of an item: the numbered line, the line of the URL,
    and at least one more line; none but the first begins with an
    integer and a period. *)
Lemma item_lines_shape (n : nat) (item : Api.item) :
  exists o others,
    item_lines n item =
    (str_of_nat n ++ lit ". " ++ get_or (Api.title item) (lit "No Title")) ::
    (lit "   URL: " ++ get_or (Api.link item) (lit "No URL")) ::
    o :: others /\
    Forall (fun l => marked l = false)
      ((lit "   URL: " ++ get_or (Api.link item) (lit "No URL")) ::
       o :: others).
Proof.
  unfold item_lines.
  destruct item as [title link [snippet|] pagemap];
    cbn [Api.title Api.link Api.snippet Api.item_pagemap];
    destruct pagemap as [[[[|? ?]|] [[|[[?|]] ?]|]]|];
    cbn [Api.persons Api.metatag_list Api.og_description app];
    eexists _, _; (split; [reflexivity|]); repeat constructor.
Qed.

(** An item of a page that is reached has a row: the record of a
    chunk that begins with the lines written for the item. *)
Lemma item_row (search_query : str) (num_pages : nat)
    (fetch : nat -> Api.fetched) (p i : nat) (item : Api.item) :
  plain search_query = true ->
  (forall page, forallb plain_item (items_of (fetch page)) = true) ->
  1 <= p <= num_pages ->
  (forall j, 1 <= j < p -> continues (fetch j) = true) ->
  nth_error (items_of (fetch p)) i = Some item ->
  (forall r, all_results search_query num_pages fetch = Got r ->
             List.length (str_of_nat (results r)) <= max_str_digits) ->
  exists out more,
    search_and_save_pages search_query num_pages fetch = Got (Ok out) /\
    In (Field.record
          (unsplit
             (item_lines
                (list_sum (map (fun j => List.length (items_of (fetch j)))
                             (seq 1 (p - 1))) + i + 1) item) ++ more)) out /\
    List.length
      (str_of_nat
         (list_sum (map (fun j => List.length (items_of (fetch j)))
                      (seq 1 (p - 1))) + i + 1)) <= max_str_digits.
Proof.
  intros Pq Pi Hp C N Short.
  destruct (rows_of_the_run search_query num_pages fetch Pq Pi Short)
    as (r0 & _ & out & _ & _ & _ & _ & Ret & _).
  destruct (pages_loop_at fetch Pi p i item N num_pages 1 0 ltac:(lia) C)
    as (r & before & after & E & W & Pl).
  set (n := 0 + list_sum (map (fun j => List.length (items_of (fetch j)))
                            (seq 1 (p - 1))) + 1 + i) in W.
  replace (list_sum (map (fun j => List.length (items_of (fetch j)))
                       (seq 1 (p - 1))) + i + 1) with n by (unfold n; lia).
  assert (Pit : plain_item item = true).
  { pose proof (Pi p) as H; rewrite forallb_forall in H.
    apply H; eapply nth_error_In, N. }
  destruct (item_lines_shape n item) as (o & others & Sh & U).
  set (l1 := str_of_nat n ++ lit ". " ++
             get_or (Api.title item) (lit "No Title")) in *.
  set (l2 := lit "   URL: " ++ get_or (Api.link item) (lit "No URL")) in *.
  set (h := lit "Google Search Results for '" ++ search_query ++ lit "'").
  assert (Ph : plain h = true)
    by (unfold h; rewrite !plain_app, Pq; reflexivity).
  apply Forall_app in Pl as [Pb Pa].
  pose proof (item_lines_plain n item Pit) as Pil; rewrite Sh in Pil.
  assert (T : (lit "Google Search Results for '" ++ search_query ++
               lit "'" ++ [nl] ++ rule ++ [nl; nl]) ++ written r
              = flat_lines (h :: (rule :: [] :: before) ++
                            (l1 :: l2 :: o :: others) ++ after)).
  { rewrite W, Sh; unfold flat_lines, h; cbn [flat_map app].
    rewrite <- !app_assoc; reflexivity. }
  assert (Pall : Forall (fun l => plain l = true)
                   (h :: (rule :: [] :: before) ++
                    (l1 :: l2 :: o :: others) ++ after)).
  { constructor; [exact Ph|]; apply Forall_app; split;
      [repeat constructor; exact Pb|].
    apply Forall_app; split; [exact Pil | exact Pa]. }
  assert (M1 : marked l1 = true)
    by (apply (marked_numbered l1 n); eexists; reflexivity).
  destruct (group_chunk h (rule :: [] :: before) (l2 :: o :: others) after
              l1 Pall M1 U) as (more & I).
  exists out, more; split; [exact Ret|].
  unfold search_and_save_pages, all_results in Ret; rewrite E in Ret.
  cbn [keyed_bind written] in Ret.
  rewrite T, universal_newlines_plain in Ret
    by (apply flat_lines_no_cr, Pall).
  apply (f_equal (fun k => match k with Got a => a | KeyError => Ok [] end))
    in Ret.
  apply extract_records_ok in Ret as (O & _ & ->).
  destruct (numbered_head l1 n ltac:(eexists; reflexivity))
    as (c & ds & El1 & Hcd).
  assert (Nb : forall m, negb (blank (l1 ++ m)) = true).
  { intros m; rewrite El1; cbn [app].
    apply not_blank; now apply digit_not_space. }
  split.
  - rewrite Sh; cbn [unsplit]; rewrite <- app_assoc.
    eapply Permutation_in; [apply sort_desc_perm|].
    apply in_map, filter_In; split; [exact I | apply Nb].
  - unfold some_overlong in O.
    destruct (Nat.ltb_spec max_str_digits (List.length (str_of_nat n)))
      as [Long|]; [exfalso | assumption].
    assert (X : existsb (fun c => negb (blank c) && overlong c)
                  (segments
                     (flat_lines
                        (h :: (rule :: [] :: before) ++
                         (l1 :: l2 :: o :: others) ++ after))) = true).
    { apply existsb_exists; eexists; split; [exact I|].
      rewrite Nb, (overlong_numbered l1 _ n) by (eexists; reflexivity).
      now apply Nat.ltb_lt. }
    unfold str in *; congruence.
Qed.

End ItemRow.

(** X16: an item of a page that is reached, whose title shows a name
    and a handle as [name (@handle)...] and whose link is an https URL,
    comes back from the CSV file.  When the title and the link are
    ASCII text, the query and the texts written hold no line end, the
    title has no colon, the name no parenthesis, the handle no closing
    parenthesis and the link no white space, and [result_count] has no
    more digits than [int] reads, the rows of [search_and_save_pages]
    include a row with the number of the item (the items of the pages
    before it, and its place on the page), the name stripped of white
    space, the handle and the link. *)
Theorem X16_item_round_trip (search_query : str) (num_pages : nat)
    (fetch : nat -> Api.fetched) (p i : nat) (item : Api.item)
    (nm user t' tail : str) :
  plain search_query = true ->
  (forall page, forallb plain_item (items_of (fetch page)) = true) ->
  (forall r, all_results search_query num_pages fetch = Got r ->
             List.length (str_of_nat (results r)) <= max_str_digits) ->
  1 <= p <= num_pages ->
  (forall j, 1 <= j < p -> continues (fetch j) = true) ->
  nth_error (items_of (fetch p)) i = Some item ->
  Api.title item = Some (nm ++ lit "(@" ++ user ++ ")"%char :: t') ->
  ascii_text (nm ++ lit "(@" ++ user ++ ")"%char :: t') = true ->
  Str.has "(" nm = false ->
  Str.has ":" (nm ++ lit "(@" ++ user ++ ")"%char :: t') = false ->
  1 <= List.length user -> Str.has ")" user = false ->
  Api.link item = Some (lit "https://" ++ tail) ->
  ascii_text tail = true ->
  1 <= List.length tail -> forallb (Chr.compl Chr.space) tail = true ->
  exists out d,
    search_and_save_pages search_query num_pages fetch = Got (Ok out) /\
    In d out /\
    number d =
    Some (Z.of_nat
            (list_sum (map (fun j => List.length (items_of (fetch j)))
                         (seq 1 (p - 1))) + i + 1)) /\
    name d = Some (Str.strip nm) /\
    username d = Some user /\
    url d = Some (lit "https://" ++ tail).
Proof.
  intros Pq Pi Short Hp C N Et _ Hn Hc Lu Hu El _ Lt Ft.
  destruct (item_row search_query num_pages fetch p i item Pq Pi Hp C N Short)
    as (out & more & E & I & Sn).
  set (n := list_sum (map (fun j => List.length (items_of (fetch j)))
                        (seq 1 (p - 1))) + i + 1) in *.
  assert (Pnm : plain nm = true).
  { pose proof (Pi p) as H; rewrite forallb_forall in H.
    apply nth_error_In, H in N.
    unfold plain_item in N; rewrite Et in N.
    repeat (apply andb_prop in N as [N _]).
    cbn [plain_opt] in N; rewrite plain_app in N.
    now apply andb_prop in N as [N _]. }
  destruct (item_lines_shape n item) as (o & others & Sh & _).
  rewrite Et, El in Sh; cbn [get_or] in Sh.
  rewrite Sh in I; cbn [unsplit map List.concat] in I.
  destruct (item_chunk_fields n nm user t' tail
              (o ++ List.concat (map (cons nl) others) ++ more)
              Sn Pnm Hn Hc Lu Hu Lt Ft) as (F1 & F2 & F3 & F4).
  match type of I with
  | In (Field.record ?c) _ =>
      match type of F1 with
      | Field.number ?c' = _ =>
          replace c with c' in I
            by (rewrite <- !app_assoc; cbn [app]; rewrite <- !app_assoc;
                reflexivity)
      end
  end.
  eexists out, _; split; [exact E|]; split; [exact I|].
  now cbn [number name username url Field.record].
Qed.

Lemma X16_item_round_trip_witness :
  exists out d,
    search_and_save_pages (lit "travel India") 5 two_pages = Got (Ok out) /\
    In d out /\
    number d = Some 1%Z /\
    name d = Some (lit "Ann") /\
    username d = Some (lit "ann") /\
    url d = Some (lit "https://instagram.com/ann").
Proof.
  apply (X16_item_round_trip (lit "travel India") 5 two_pages 1 0 ann_item
           (lit "Ann ") (lit "ann") [] (lit "instagram.com/ann"));
    [ reflexivity | intros [|[|[|page]]]; reflexivity
    | intros r E; vm_compute in E; injection E as <-;
      apply Nat.leb_le; vm_compute; reflexivity
    | lia | intros j Hj; lia | reflexivity | reflexivity | reflexivity
    | reflexivity | reflexivity | cbn; lia | reflexivity | reflexivity
    | reflexivity | cbn; lia | reflexivity ].
Defined.

(** X17: the counts of an item of a page that is reached come back
    from the CSV file.  When the query and the texts written hold no
    line end, the title, the link and the snippet hold no comma, the
    followers, following and interactioncount of the first person of
    the item each have the shape of a count, and [result_count] has no
    more digits than [int] reads, the rows of [search_and_save_pages]
    include a row with the number of the item and these three counts,
    whose sort key is [convert_to_numeric] of the followers. *)
Theorem X17_counts_round_trip (search_query : str) (num_pages : nat)
    (fetch : nat -> Api.fetched) (p i : nat) (item : Api.item)
    (pagemap : Api.pagemap) (person : Api.person)
    (others : list Api.person) (f g c : str) :
  plain search_query = true ->
  (forall page, forallb plain_item (items_of (fetch page)) = true) ->
  (forall r, all_results search_query num_pages fetch = Got r ->
             List.length (str_of_nat (results r)) <= max_str_digits) ->
  1 <= p <= num_pages ->
  (forall j, 1 <= j < p -> continues (fetch j) = true) ->
  nth_error (items_of (fetch p)) i = Some item ->
  comma_free (Api.title item) = true ->
  comma_free (Api.link item) = true ->
  comma_free (Api.snippet item) = true ->
  Api.item_pagemap item = Some pagemap ->
  Api.persons pagemap = Some (person :: others) ->
  Api.followers person = Some f -> count_shape f ->
  Api.following person = Some g -> count_shape g ->
  Api.interactioncount person = Some c -> count_shape c ->
  exists out d,
    search_and_save_pages search_query num_pages fetch = Got (Ok out) /\
    In d out /\
    number d =
    Some (Z.of_nat
            (list_sum (map (fun j => List.length (items_of (fetch j)))
                         (seq 1 (p - 1))) + i + 1)) /\
    followers d = Some f /\ following d = Some g /\ posts d = Some c /\
    convert_to_numeric (Some f) = Ok (follower_count_numeric d).
Proof.
  intros Pq Pi Short Hp C N Ct Cl Cs Em Ep Ef Sf Eg Sg Ec Sc.
  destruct (item_row search_query num_pages fetch p i item Pq Pi Hp C N Short)
    as (out & more & E & I & Sn).
  set (n := list_sum (map (fun j => List.length (items_of (fetch j)))
                        (seq 1 (p - 1))) + i + 1) in *.
  set (chunk := unsplit (item_lines n item) ++ more) in *.
  assert (F1 : Field.number chunk = Some (Z.of_nat n)).
  { destruct (item_lines_shape n item) as (o & os & Sh & _).
    unfold chunk; rewrite Sh; cbn [unsplit]; rewrite <- app_assoc.
    apply number_numbered; [exact Sn | eexists; reflexivity]. }
  assert (S : exists pre post,
             chunk = (pre ++ [" "%char]) ++ f ++ lit " Followers, " ++ g ++
                     lit " Following, " ++ c ++ lit " Posts" ++ post /\
             Str.has "," pre = false).
  { destruct (str_of_nat_digits n) as (Fd & _).
    pose proof (has_digits_false "," (str_of_nat n) eq_refl Fd) as Hd.
    unfold chunk, item_lines; clear I F1 chunk.
    destruct item as [title link snippet pm].
    cbn [Api.title Api.link Api.snippet Api.item_pagemap] in *.
    subst pm; rewrite Ep, Ef, Eg, Ec; cbn [get_or].
    set (ml := match Api.metatag_list pagemap with
               | Some (metatags :: _) =>
                   match Api.og_description metatags with
                   | Some text => [lit "   Meta Description: " ++ text]
                   | None => []
                   end
               | _ => []
               end).
    assert (Ht : Str.has "," (get_or title (lit "No Title")) = false)
      by (destruct title; [now apply negb_true_iff in Ct | reflexivity]).
    assert (Hl : Str.has "," (get_or link (lit "No URL")) = false)
      by (destruct link; [now apply negb_true_iff in Cl | reflexivity]).
    destruct snippet as [s|]; cbn [comma_free] in Cs.
    - apply negb_true_iff in Cs.
      exists (str_of_nat n ++ lit ". " ++ get_or title (lit "No Title") ++
              nl :: lit "   URL: " ++ get_or link (lit "No URL") ++
              nl :: lit "   Description: " ++ s ++ nl :: lit "  "),
             (List.concat (map (cons nl) (ml ++ [[]])) ++ more); split.
      + cbn [app unsplit map List.concat].
        repeat (rewrite <- app_assoc || rewrite <- app_comm_cons).
        reflexivity.
      + rewrite !has_app, Hd, Ht; cbn [orb].
        change (nl :: lit "   URL: " ++ get_or link (lit "No URL") ++
                nl :: lit "   Description: " ++ s ++ nl :: lit "  ")
          with ((nl :: lit "   URL: ") ++ get_or link (lit "No URL") ++
                (nl :: lit "   Description: ") ++ s ++ nl :: lit "  ").
        rewrite !has_app, Hl, Cs; reflexivity.
    - exists (str_of_nat n ++ lit ". " ++ get_or title (lit "No Title") ++
              nl :: lit "   URL: " ++ get_or link (lit "No URL") ++
              nl :: lit "  "),
             (List.concat (map (cons nl) (ml ++ [[]])) ++ more); split.
      + cbn [app unsplit map List.concat].
        repeat (rewrite <- app_assoc || rewrite <- app_comm_cons).
        reflexivity.
      + rewrite !has_app, Hd, Ht; cbn [orb].
        change (nl :: lit "   URL: " ++ get_or link (lit "No URL") ++
                nl :: lit "  ")
          with ((nl :: lit "   URL: ") ++ get_or link (lit "No URL") ++
                nl :: lit "  ").
        rewrite !has_app, Hl; reflexivity. }
  destruct S as (pre & post & S & Hpre).
  destruct (stats_of pre f g c post Hpre Sf Sg Sc) as (G1 & G2 & G3).
  rewrite <- S in G1, G2, G3.
  exists out, (Field.record chunk); split; [exact E|]; split; [exact I|].
  cbn [number followers following posts follower_count_numeric Field.record].
  repeat (split; [assumption|]).
  pose proof (numeric_key chunk) as K; rewrite G1 in K; apply K.
Qed.

Lemma X17_counts_round_trip_witness :
  exists out d,
    search_and_save_pages (lit "travel India") 5 two_pages = Got (Ok out) /\
    In d out /\
    number d = Some 1%Z /\
    followers d = Some (lit "500K") /\
    following d = Some (lit "20") /\
    posts d = Some (lit "1.5K") /\
    convert_to_numeric (Some (lit "500K")) = Ok (follower_count_numeric d).
Proof.
  apply (X17_counts_round_trip (lit "travel India") 5 two_pages 1 0 ann_item
           (Api.Pagemap
              (Some [Api.Person (Some (lit "500K")) (Some (lit "20"))
                       (Some (lit "1.5K"))])
              (Some [Api.Metatags (Some (lit "Ann on Instagram"))]))
           (Api.Person (Some (lit "500K")) (Some (lit "20"))
              (Some (lit "1.5K")))
           [] (lit "500K") (lit "20") (lit "1.5K"));
    try reflexivity; try lia.
  - intros [|[|[|page]]]; reflexivity.
  - intros r E; vm_compute in E; injection E as <-.
    apply Nat.leb_le; vm_compute; reflexivity.
  - exists (lit "500"), [], [], ["K"%char]; cbn; intuition lia.
  - exists (lit "20"), [], [], []; cbn; intuition lia.
  - exists (lit "1"), ["."%char], (lit "5"), ["K"%char]; cbn; intuition lia.
Defined.
